(** * dstock-tools: the flow orchestrators, their poller and their helpers

    A shallow embedding of
      - [src/config/hypercore.ts]: [toAssetBridgeAddress];
      - [src/config/tokens.ts]: [TOKENS], [requireToken];
      - the flow BSC -> HyperEVM -> HyperCore, [flowBscToHypeCore] (its
        text is the second script of [src/unnamed/part_001]);
      - the flow HyperCore -> HyperEVM -> BSC, [src/flowHypeCoreToBsc.ts];
      - the helpers that both flow scripts carry: [getArg], [hasFlag],
        [getPositionalArg], [runStep], [sleep], [pollUntil],
        [formatElapsedMs], [fetchHyperCoreSpotTotal];
      - the earlier flow without confirmations (the first script of
        [src/unnamed/part_012]);
      - [src/router/utils.ts]: [env] and the resolvers of endpoints and
        addresses;
      - three of the step executors that the flows invoke,
        [src/bscToHypeEvm.ts], [src/hypeEvmToBsc.ts] and the executor of
        the hop to HyperCore (the first script of [src/unnamed/part_003]):
        [confirmOrExit] and [main];
    and the properties of these programs.

    Conventions.  A [bigint] is a [Z].  A [number] that holds an integer
    (a token index, a decimals count, an exit code, a count of
    milliseconds) is a [Z] too, which is exact as long as the number is a
    safe integer; where an integer of any size may be written, [Number]
    gives the number that it is.  A string is a [string] of code units
    below 256, which is what addresses, flags, token names and amounts
    are made of.  The body of an HTTP answer is any value of JSON.
    [await] is sequencing in a monad of state and
    exceptions; the outside world (clock, timers, child processes, RPC
    endpoints, the info endpoint) is a deterministic machine with a hidden
    state; a loop takes fuel. *)

From Stdlib Require Import ZArith List String Ascii Bool Lia.
From Stdlib Require Import HexadecimalString HexadecimalN HexadecimalFacts DecimalString.
From Stdlib Require Hexadecimal Decimal.
Import ListNotations.

Local Open Scope string_scope.
Local Open Scope Z_scope.

(** ** JavaScript strings *)

Module JsString.

(** [String.prototype.repeat] for a one-character pad. *)
Fixpoint replicate (n : nat) (c : ascii) : string :=
  match n with
  | O => EmptyString
  | S k => String c (replicate k c)
  end.

(** [s.padStart(targetLength, c)] with a pad string of one character. *)
Definition padStart (s : string) (targetLength : nat) (c : ascii) : string :=
  replicate (targetLength - String.length s) c ++ s.

(** The lower case of a code unit below 256: of [A] to [Z], and of the
    capital letters from U+00C0 to U+00DE (U+00D7 is no letter). *)
Definition lowerChar (c : ascii) : ascii :=
  let n := nat_of_ascii c in
  if ((Nat.leb 65 n && Nat.leb n 90)
      || (Nat.leb 192 n && Nat.leb n 222 && negb (Nat.eqb n 215)))%bool
  then ascii_of_nat (n + 32) else c.

(** [s.toLowerCase()]. *)
Fixpoint toLowerCase (s : string) : string :=
  match s with
  | EmptyString => EmptyString
  | String c r => String (lowerChar c) (toLowerCase r)
  end.

(** [s.startsWith(p)]. *)
Definition startsWith (p s : string) : bool := String.prefix p s.

(** [n.toString(16)] of an integer-valued number: all the digits of the
    integer, which is what is printed for a safe integer. *)
Definition toString16 (n : Z) : string :=
  if n <? 0
  then "-" ++ HexadecimalString.NilZero.string_of_uint (N.to_hex_uint (Z.to_N (- n)))
  else HexadecimalString.NilZero.string_of_uint (N.to_hex_uint (Z.to_N n)).

(** [String(n)] of an integer-valued number. *)
Definition ofInt (n : Z) : string :=
  DecimalString.NilZero.string_of_int (Z.to_int n).

(** The white space and the line terminators below 256: the space, the
    characters from U+0009 to U+000D, and the no-break space U+00A0. *)
Definition isSpace (c : ascii) : bool :=
  let n := nat_of_ascii c in
  (Nat.eqb n 32 || (Nat.leb 9 n && Nat.leb n 13) || Nat.eqb n 160)%bool.

Fixpoint trimStart (s : string) : string :=
  match s with
  | EmptyString => EmptyString
  | String c r => if isSpace c then trimStart r else s
  end.

Fixpoint trimEnd (s : string) : string :=
  match s with
  | EmptyString => EmptyString
  | String c r =>
      match trimEnd r with
      | EmptyString => if isSpace c then EmptyString else String c EmptyString
      | r' => String c r'
      end
  end.

(** [s.trim()]. *)
Definition trim (s : string) : string := trimEnd (trimStart s).

Fixpoint insertSorted (x : string) (l : list string) : list string :=
  match l with
  | [] => [x]
  | y :: r => if String.leb x y then x :: l else y :: insertSorted x r
  end.

(** [l.sort()] with the default (code unit) order. *)
Definition sort (l : list string) : list string :=
  fold_right insertSorted [] l.

(** The line feed of a template literal. *)
Definition nl : string := String (ascii_of_nat 10) EmptyString.

(** [l.join(sep)]. *)
Fixpoint join (sep : string) (l : list string) : string :=
  match l with
  | [] => ""
  | [x] => x
  | x :: r => x ++ sep ++ join sep r
  end.

End JsString.

(** ** Numbers *)

(** [Number.MAX_SAFE_INTEGER]. *)
Definition MAX_SAFE_INTEGER : Z := 2 ^ 53 - 1.

(** The number that an integer is when it is written in a program or
    handed to [Number]: itself up to [2^53], and beyond that the nearest
    integer that has 53 significant bits, the even one of two that are
    equally near (the integer is taken below [2^1024]). *)
Definition Number (n : Z) : Z :=
  let m := Z.abs n in
  let bits := Z.log2 m + 1 in
  if bits <=? 53 then n
  else
    let shift := bits - 53 in
    let q := Z.shiftr m shift in
    let rest := Z.land m (Z.ones shift) in
    let half := Z.shiftl 1 (shift - 1) in
    let up := ((half <? rest) || ((rest =? half) && Z.odd q))%bool in
    Z.sgn n * Z.shiftl (if up then q + 1 else q) shift.

(** ** [src/config/hypercore.ts] *)

Definition toAssetBridgeAddress (tokenIndex : Z) : string :=
  let addressLength := 42%nat in
  let addressPrefix := "0x2" in
  let indexAsHex := JsString.toString16 (Number tokenIndex) in
  let addressLengthWithoutPrefix := (addressLength - String.length addressPrefix)%nat in
  addressPrefix ++ JsString.padStart indexAsHex addressLengthWithoutPrefix "0"%char.


(** ** Errors, results of library calls, outcomes of promises *)

(** [new Error(message)], and every other value a promise rejects with. *)
Inductive JsError : Type :=
| Error (message : string).

(** What a synchronous library call does: return or throw. *)
Inductive Result (A : Type) : Type :=
| Ok (a : A)
| Raise (e : JsError).
Arguments Ok {A} a.
Arguments Raise {A} e.

(** What an awaited promise does within a given number of loop turns:
    resolve, reject, or still be looping when the fuel is spent. *)
Inductive Outcome (A : Type) : Type :=
| Ret (a : A)
| Throw (e : JsError)
| Pending.
Arguments Ret {A} a.
Arguments Throw {A} e.
Arguments Pending {A}.

(** ** The command line ([process.argv], [process.env]) *)

Record Process : Type := {
  argv : list string;
  SRC_RPC_URL : option string;
  PRIVATE_KEY : option string
}.

(** [l.findIndex(p)]; [None] is JavaScript's [-1]. *)
Fixpoint findIndex {A : Type} (p : A -> bool) (l : list A) : option nat :=
  match l with
  | [] => None
  | a :: r => if p a then Some O else option_map S (findIndex p r)
  end.

Definition getArg (name : string) (args : list string) : option string :=
  match findIndex (fun a => String.eqb a name) args with
  | Some idx => nth_error args (idx + 1)
  | None => None
  end.

Definition hasFlag (flag : string) (args : list string) : bool :=
  existsb (fun a => String.eqb a flag) args.

(** [!x] is false: the value is a string and is not empty. *)
Definition truthy (x : option string) : bool :=
  match x with
  | Some s => negb (String.eqb s "")
  | None => false
  end.

(** The loop of [getPositionalArg], on what is left of [argv.slice(2)]. *)
Fixpoint positionals (rest : list string) : list string :=
  match rest with
  | [] => []
  | a :: r =>
      if String.eqb a "" then positionals r
      else if JsString.startsWith "-" a then
        match r with
        | next :: r' =>
            if (truthy (Some next) && negb (JsString.startsWith "-" next))%bool
            then positionals r'
            else positionals r
        | [] => []
        end
      else a :: positionals r
  end.

Definition getPositionalArg (index : nat) (args : list string) : option string :=
  nth_error (positionals (skipn 2 args)) index.

(** [a ?? b]. *)
Definition orElse {A : Type} (a b : option A) : option A :=
  match a with
  | Some _ => a
  | None => b
  end.

(** ** [src/config/tokens.ts] *)

Record BscConfig : Type := {
  wrapper : string;
  adapter : string;
  underlying : option string
}.

Record TokenConfig : Type := {
  name : string;
  bsc : BscConfig;
  hyperEvm_oft : string;
  hyperCore_tokenIndex : Z
}.

Definition TOKENS : list (string * TokenConfig) :=
  [ ("crcld",
     {| name := "CRCLd";
        bsc := {| wrapper := "0x8edE6AffCBe962e642f83d84b8Af66313A700dDf";
                  adapter := "0xF351FA44A73E6D1E9c4C2927A8D2b8c69a8B8897";
                  underlying := Some "0x992879cd8ce0c312d98648875b5a8d6d042cbf34" |};
        hyperEvm_oft := "0xe74aA6C4050A15790525eB11cc4562c664dC67C9";
        hyperCore_tokenIndex := 409 |}) ].

(** What [TOKENS[key]] evaluates to.  [TOKENS] is a plain object, so the
    two all-lowercase names it inherits from [Object.prototype] are found
    too; all that matters of those values is that they are truthy and have
    no [bsc] and no [hyperEvm] property. *)
Inductive TokenMeta : Type :=
| Own (c : TokenConfig)
| Inherited.

Fixpoint assoc {A : Type} (key : string) (l : list (string * A)) : option A :=
  match l with
  | [] => None
  | (k, v) :: r => if String.eqb k key then Some v else assoc key r
  end.

Definition lookupToken (registry : list (string * TokenConfig)) (key : string)
  : option TokenMeta :=
  match assoc key registry with
  | Some c => Some (Own c)
  | None =>
      if (String.eqb key "constructor" || String.eqb key "__proto__")%bool
      then Some Inherited
      else None
  end.

Definition normalizeTokenName (s : string) : string :=
  JsString.toLowerCase (JsString.trim s).

Definition requireToken (registry : list (string * TokenConfig)) (input : option string)
  : Result TokenMeta :=
  match input with
  | None => Raise (Error "Missing token name (e.g. CRCLd).")
  | Some i =>
      if String.eqb i "" then Raise (Error "Missing token name (e.g. CRCLd).")
      else
        let key := normalizeTokenName i in
        match lookupToken registry key with
        | Some token => Ok token
        | None =>
            let known := JsString.join ", " (JsString.sort (map fst registry)) in
            Raise (Error ("Unknown token: " ++ i ++ ". Known tokens: " ++ known))
        end
  end.

(** ** Values read from JSON *)

(** What [JSON.parse] gives.  A number that is an integer is a [JNumber];
    any other number is a [JReal], given by its text.  An object is the
    list of its own properties, and a name is looked up from the left. *)
#[warnings="-register-all"]
Inductive Json : Type :=
| JNull
| JBool (b : bool)
| JNumber (n : Z)
| JReal (numeral : string)
| JString (s : string)
| JArray (items : list Json)
| JObject (properties : list (string * Json)).

(** [v?.name] for a name that no value inherits ([balances], [token],
    [total]): the own property of an object, and [undefined] on anything
    else. *)
Definition property (name : string) (v : Json) : option Json :=
  match v with
  | JObject properties => assoc name properties
  | _ => None
  end.

(** ** The libraries the flows call ([viem], and the number built-ins) *)

Record Account : Type := { address : string }.

(** Pure functions of [viem] and of the JavaScript run time.  None of them
    touches the network.  [number] stands for the numbers that are not
    integers (a balance read with [parseFloat]).  [jsonToNumber] is
    [Number(v)] on a value read from JSON that is not a number: the
    integer that the result is, and [None] when the result is [NaN] or no
    integer.  [jsonToString] is [String(v)] on a value that is not a
    string.  Both can throw, on an object that has a property [toString]
    or [valueOf] of its own. *)
Record Library : Type := {
  number : Type;
  zero : number;
  parseFloat : string -> number;
  numberToString : number -> string;
  jsonToNumber : Json -> Result (option Z);
  jsonToString : Json -> Result string;
  isAddress : string -> bool;
  privateKeyToAccount : string -> Result Account;
  parseUnits : string -> Z -> Result Z;
  formatUnits : Z -> Z -> string
}.

(** ** The outside world *)

(** The two public clients: [bscClient] and [hyperEvmClient]. *)
Inductive Chain : Type := BscChain | HyperEvmChain.

(** The two view functions read with [readContract]. *)
Inductive ContractCall : Type :=
| Decimals
| BalanceOf (owner : string).

(** How a child process ends: the ['error'] event, or the ['exit'] event
    with its [code] and [signal] (each of them possibly [null]). *)
Inductive ChildResult : Type :=
| ChildError (e : JsError)
| ChildExit (code : option Z) (signal : option string).

(** The answer of the info endpoint.  [json] is what [res.json()] gives:
    a rejection, or the value that the body denotes, whatever it is. *)
Record HttpResponse : Type := {
  ok : bool;
  status : Z;
  statusText : string;
  json : Result Json
}.

(** What [fetch] does: reject (the request failed) or resolve. *)
Inductive FetchResult : Type :=
| FetchFails (e : JsError)
| FetchResponds (res : HttpResponse).

(** The environment a flow runs in, as a deterministic machine with a
    hidden state [W]: the clock, the timers, the child processes, the two
    RPC endpoints and the info endpoint. *)
Record Host (W : Type) : Type := {
  clock : W -> Z;
  setTimeout : Z -> W -> W;
  spawn : string -> list string -> W -> ChildResult * W;
  readContract : Chain -> string -> ContractCall -> W -> Result Z * W;
  fetchInfo : string -> W -> FetchResult * W
}.
Arguments clock {W} _ _.
Arguments setTimeout {W} _ _ _.
Arguments spawn {W} _ _ _ _.
Arguments readContract {W} _ _ _ _ _.
Arguments fetchInfo {W} _ _ _.

(** What a run does, in order.  Besides the effects on the outside world
    the trace logs two things of the orchestrator itself: each call of
    [pollUntil] and each exception raised. *)
Inductive Event : Type :=
| EvSpawn (script : string) (args : list string) (r : ChildResult)
| EvReadContract (c : Chain) (contract : string) (call : ContractCall) (r : Result Z)
| EvFetch (user : string) (r : FetchResult)
| EvSleep (ms : Z)
| EvLog (line : string)
| EvPollUntil (label : string)
| EvThrow (e : JsError).

(** The two variables that the progress-printing [read] closures capture
    and assign. *)
Record Frame : Type := {
  lastPrintedAt : Z;
  lastSeen : Z
}.

(** The state of a run: the outside world, the captured variables, and
    the trace so far. *)
Record State (W : Type) : Type := {
  world : W;
  frame : Frame;
  trace : list Event
}.
Arguments world {W} _.
Arguments frame {W} _.
Arguments trace {W} _.

(** ** The monad of asynchronous code

    [await] is sequencing: one thread of control, a state that is passed
    along, and a rejection that ends whatever awaits it. *)

Definition M (W A : Type) : Type := State W -> Outcome A * State W.

Definition ret {W A : Type} (a : A) : M W A := fun s => (Ret a, s).

Definition bind {W A B : Type} (m : M W A) (f : A -> M W B) : M W B :=
  fun s =>
    match m s with
    | (Ret a, s') => f a s'
    | (Throw e, s') => (Throw e, s')
    | (Pending, s') => (Pending, s')
    end.

Declare Scope flow_scope.
Delimit Scope flow_scope with flow.
Notation "x <- m ;; k" := (bind m (fun x => k))
  (at level 100, m at next level, right associativity) : flow_scope.
Notation "m ;; k" := (bind m (fun _ => k))
  (at level 100, right associativity) : flow_scope.
Local Open Scope flow_scope.

Definition record {W : Type} (ev : Event) (s : State W) : State W :=
  {| world := world s; frame := frame s; trace := trace s ++ [ev] |}.

(** [throw e], and the rejection of a promise with [e]. *)
Definition throw {W A : Type} (e : JsError) : M W A :=
  fun s => (Throw e, record (EvThrow e) s).

Definition pending {W A : Type} : M W A := fun s => (Pending, s).

(** A library call that may throw. *)
Definition call {W A : Type} (r : Result A) : M W A :=
  match r with
  | Ok a => ret a
  | Raise e => throw e
  end.

(** [if (!x) throw new Error(message)], after which [x] is a string. *)
Definition orThrow {W : Type} (x : option string) (message : string) : M W string :=
  match x with
  | Some s => if truthy x then ret s else throw (Error message)
  | None => throw (Error message)
  end.

Definition consoleLog {W : Type} (line : string) : M W unit :=
  fun s => (Ret tt, record (EvLog line) s).

Definition getFrame {W : Type} : M W Frame := fun s => (Ret (frame s), s).

Definition setFrame {W : Type} (f : Frame) : M W unit :=
  fun s => (Ret tt, {| world := world s; frame := f; trace := trace s |}).

(** *** The calls on the host *)

(** [Date.now()]. *)
Definition dateNow {W : Type} (host : Host W) : M W Z :=
  fun s => (Ret (clock host (world s)), s).

(** [sleep(ms)]: a promise that a timer of [ms] milliseconds resolves. *)
Definition sleep {W : Type} (host : Host W) (ms : Z) : M W unit :=
  fun s =>
    (Ret tt,
     {| world := setTimeout host ms (world s);
        frame := frame s;
        trace := trace s ++ [EvSleep ms] |}).

(** [client.readContract({ address, abi, functionName, args })]. *)
Definition readContractM {W : Type} (host : Host W)
    (c : Chain) (contract : string) (fn : ContractCall) : M W Z :=
  fun s =>
    let (r, w') := readContract host c contract fn (world s) in
    let s' := {| world := w'; frame := frame s;
                 trace := trace s ++ [EvReadContract c contract fn r] |} in
    call r s'.

(** [fetch("https://api.hyperliquid.xyz/info", { method: "POST", ...,
    body: JSON.stringify({ type: "spotClearinghouseState", user }) })]. *)
Definition fetchM {W : Type} (host : Host W) (user : string) : M W HttpResponse :=
  fun s =>
    let (r, w') := fetchInfo host user (world s) in
    let s' := {| world := w'; frame := frame s;
                 trace := trace s ++ [EvFetch user r] |} in
    match r with
    | FetchFails e => throw e s'
    | FetchResponds res => ret res s'
    end.

(** ** The helpers that both flow scripts carry (the same text in both) *)

(** The ['exit'] handler of [runStep]: [None] resolves, [Some e] rejects. *)
Definition exitVerdict (stepName : string) (code : option Z) (signal : option string)
  : option JsError :=
  if truthy signal
  then Some (Error (stepName ++ " terminated by signal: "
                      ++ match signal with Some sg => sg | None => "" end))
  else match code with
       | Some 0 => None
       | Some c => Some (Error (stepName ++ " failed with exit code " ++ JsString.ofInt c))
       | None => Some (Error (stepName ++ " failed with exit code null"))
       end.

(** Which error, if any, the promise of [runStep] rejects with. *)
Definition childVerdict (stepName : string) (r : ChildResult) : option JsError :=
  match r with
  | ChildError e => Some e
  | ChildExit code signal => exitVerdict stepName code signal
  end.

(** [runStep]: spawn [tsx scriptRelPath ...args] and await its end. *)
Definition runStep {W : Type} (host : Host W)
    (stepName scriptRelPath : string) (args : list string) : M W unit :=
  fun s =>
    let (r, w') := spawn host scriptRelPath args (world s) in
    let s' := {| world := w'; frame := frame s;
                 trace := trace s ++ [EvSpawn scriptRelPath args r] |} in
    match childVerdict stepName r with
    | None => ret tt s'
    | Some e => throw e s'
    end.

Record PollOpts : Type := {
  timeoutMs : option Z;
  intervalMs : option Z
}.

Definition optOr (x : option Z) (d : Z) : Z :=
  match x with
  | Some v => v
  | None => d
  end.

Definition timeoutMessage (label : string) : string :=
  "Timeout waiting for: " ++ label.

(** The [while (true)] of [pollUntil]; a turn of the loop costs one unit
    of fuel. *)
Fixpoint pollLoop {W T : Type} (host : Host W) (fuel : nat)
    (label : string) (read : M W T) (ok : T -> bool)
    (timeout interval started : Z) : M W T :=
  match fuel with
  | O => pending
  | S fuel' =>
      value <- read ;;
      if ok value then ret value
      else
        now <- dateNow host ;;
        if now - started >? timeout
        then throw (Error (timeoutMessage label))
        else (sleep host interval ;;
              pollLoop host fuel' label read ok timeout interval started)
  end.

Definition pollUntil {W T : Type} (host : Host W) (fuel : nat)
    (label : string) (read : M W T) (ok : T -> bool) (opts : option PollOpts)
    : M W T :=
  let timeout := optOr (match opts with Some o => timeoutMs o | None => None end) (10 * 60000) in
  let interval := optOr (match opts with Some o => intervalMs o | None => None end) 5000 in
  (fun s => (Ret tt, record (EvPollUntil label) s)) ;;
  started <- dateNow host ;;
  pollLoop host fuel label read ok timeout interval started.

Definition formatElapsedMs (ms : Z) : string :=
  let s := ms / 1000 in
  let m := s / 60 in
  let r := Z.rem s 60 in
  if m >? 0
  then JsString.ofInt m ++ "m" ++ JsString.ofInt r ++ "s"
  else JsString.ofInt r ++ "s".

(** [Number(v)], as far as it is an integer; [None] is [undefined]. *)
Definition toNumber (lib : Library) (v : option Json) : Result (option Z) :=
  match v with
  | None => Ok None
  | Some (JNumber n) => Ok (Some n)
  | Some (JReal _) => Ok None
  | Some other => jsonToNumber lib other
  end.

(** [String(v)]. *)
Definition toString (lib : Library) (v : Json) : Result string :=
  match v with
  | JString s => Ok s
  | other => jsonToString lib other
  end.

(** [data?.balances ?? []]. *)
Definition balancesOf (data : Json) : Json :=
  match property "balances" data with
  | None | Some JNull => JArray []
  | Some balances => balances
  end.

(** The callback of [find]: [Number(b?.token) === Number(tokenIndex)]. *)
Definition isEntryOf (lib : Library) (tokenIndex : Z) (b : Json) : Result bool :=
  match toNumber lib (property "token" b) with
  | Ok (Some n) => Ok (n =? Number tokenIndex)
  | Ok None => Ok false
  | Raise e => Raise e
  end.

(** [balances.find(callback)] on an array: the callback is called on the
    elements in order, up to the first that it accepts. *)
Fixpoint findEntry (lib : Library) (tokenIndex : Z) (balances : list Json)
  : Result (option Json) :=
  match balances with
  | [] => Ok None
  | b :: rest =>
      match isEntryOf lib tokenIndex b with
      | Raise e => Raise e
      | Ok true => Ok (Some b)
      | Ok false => findEntry lib tokenIndex rest
      end
  end.

(** [bal?.total != null ? String(bal.total) : null]. *)
Definition totalOf (lib : Library) (bal : option Json) : Result (option string) :=
  match bal with
  | None => Ok None
  | Some b =>
      match property "total" b with
      | None | Some JNull => Ok None
      | Some total =>
          match toString lib total with
          | Ok s => Ok (Some s)
          | Raise e => Raise e
          end
      end
  end.

Definition fetchHyperCoreSpotTotal {W : Type} (host : Host W) (lib : Library)
    (user : string) (tokenIndex : Z) : M W (option string) :=
  res <- fetchM host user ;;
  if negb (ok res)
  then throw (Error ("HyperCore API error: " ++ JsString.ofInt (status res)
                       ++ " " ++ statusText res))
  else
    data <- call (json res) ;;
    match balancesOf data with
    | JArray balances =>
        bal <- call (findEntry lib tokenIndex balances) ;;
        call (totalOf lib bal)
    | _ => throw (Error "balances.find is not a function")
    end.

(** [coreBalBeforeStr ? parseUnits(coreBalBeforeStr, tokenDecimals) : 0n],
    and the same expression on [s] in the [read] closure of the last hop
    of [flowBscToHypeCore]. *)
Definition spotTotalToUnits {W : Type} (lib : Library)
    (s : option string) (tokenDecimals : Z) : M W Z :=
  match s with
  | Some str => if truthy s then call (parseUnits lib str tokenDecimals) else ret 0
  | None => ret 0
  end.

(** [coreBalBeforeStr ? parseFloat(coreBalBeforeStr) : 0]
    ([flowHypeCoreToBsc]). *)
Definition spotTotalToNumber (lib : Library) (s : option string) : number lib :=
  match s with
  | Some str => if truthy s then parseFloat lib str else zero lib
  | None => zero lib
  end.

(** [tokenMeta.bsc.wrapper], [tokenMeta.hyperEvm.oft]: the first property
    read of [tokenMeta], which fails on a value that [TOKENS] inherits. *)
Definition ownConfig {W : Type} (m : TokenMeta) (property : string) : M W TokenConfig :=
  match m with
  | Own c => ret c
  | Inherited =>
      throw (Error ("Cannot read properties of undefined (reading '" ++ property ++ "')"))
  end.

(** The [read] closures that print their progress: read the balance, print
    a line when it is due and the credit has not arrived, return the
    balance.  [window] is 5000 or 10000 and [what] the text that names the
    credit awaited. *)
Definition waitingRead {W : Type} (host : Host W) (lib : Library)
    (c : Chain) (contract owner : string)
    (window : Z) (what : string)
    (started expectedAtLeast tokenDecimals : Z) (tokenName : string) : M W Z :=
  bal <- readContractM host c contract (BalanceOf owner) ;;
  now <- dateNow host ;;
  fr <- getFrame ;;
  let shouldPrint := ((now - lastPrintedAt fr >? window) || negb (bal =? lastSeen fr))%bool in
  (if (shouldPrint && (bal <? expectedAtLeast))%bool
   then
     (setFrame {| lastPrintedAt := now; lastSeen := bal |} ;;
      let currentHuman := formatUnits lib bal tokenDecimals in
      let expectedHuman := formatUnits lib expectedAtLeast tokenDecimals in
      consoleLog ("[flow] Waiting for " ++ what ++ "... elapsed="
                    ++ formatElapsedMs (now - started) ++ " "
                    ++ "current=" ++ currentHuman ++ " expected>=" ++ expectedHuman
                    ++ " token=" ++ tokenName))
   else ret tt) ;;
  ret bal.

(** The three confirmation predicates, as the flows write them. *)

(** [(bal) => bal > wrapperBalBefore] *)
Definition anyIncrease (before : Z) (bal : Z) : bool := bal >? before.

(** [(bal) => bal >= expectedAtLeast], with
    [expectedAtLeast = before + amountWei] *)
Definition atLeast (expectedAtLeast : Z) (bal : Z) : bool := bal >=? expectedAtLeast.

(** [minExpected = (coreAmountWei * 999n) / 1000n]; the division of two
    [bigint]s truncates. *)
Definition minExpected (coreAmountWei : Z) : Z := Z.quot (coreAmountWei * 999) 1000.

(** [(bal) => bal >= coreBalBefore + minExpected] *)
Definition withinTolerance (coreBalBefore coreAmountWei : Z) (bal : Z) : bool :=
  bal >=? coreBalBefore + minExpected coreAmountWei.

(** [hasFlag("--dry-run") ? ["--dry-run"] : []] *)
Definition dryRunArgs (args : list string) : list string :=
  if hasFlag "--dry-run" args then ["--dry-run"] else [].

(** ** [flowBscToHypeCore]: BSC -> HyperEVM -> HyperCore *)

Module FlowBscToHypeCore.
Section Main.

Context {W : Type}.
Variable host : Host W.
Variable lib : Library.
Variable registry : list (string * TokenConfig).
Variable process : Process.

Definition mismatchMessage (to signer : string) : string :=
  "--to must equal the EVM address of PRIVATE_KEY for this flow." ++ JsString.nl
    ++ "to=" ++ to ++ JsString.nl
    ++ "signer=" ++ signer ++ JsString.nl
    ++ "Otherwise step 3 cannot transfer the token to HyperCore.".

(** The [read] closure of the last hop. *)
Definition readCoreSpot (user : string) (tokenIndex tokenDecimals : Z) : M W Z :=
  s <- fetchHyperCoreSpotTotal host lib user tokenIndex ;;
  spotTotalToUnits lib s tokenDecimals.

Definition main (fuel : nat) : M W unit :=
  let args := argv process in
  token <- orThrow (orElse (getArg "--token" args) (getPositionalArg 0 args))
             "Missing token. Usage: npm run flow -- <TOKEN> --to <ADDR> --amount <AMOUNT>" ;;
  to <- orThrow (match getArg "--to" args with
                 | Some t => if isAddress lib t then Some t else None
                 | None => None
                 end)
          "Missing/invalid --to (recipient on destination chain for sendToHyperEvm)" ;;
  let amount := getArg "--amount" args in
  wrapAmount <- orThrow (orElse (getArg "--wrap-amount" args) amount)
                  "Missing --amount (or --wrap-amount)" ;;
  sendAmount <- orThrow (orElse (getArg "--send-amount" args) amount)
                  "Missing --amount (or --send-amount)" ;;
  coreAmount <- orThrow (orElse (getArg "--core-amount" args) amount)
                  "Missing --amount (or --core-amount)" ;;
  let dryRun := dryRunArgs args in
  let isDryRun := hasFlag "--dry-run" args in
  _ <- orThrow (SRC_RPC_URL process) "Missing SRC_RPC_URL" ;;
  privateKey <- orThrow (PRIVATE_KEY process) "Missing PRIVATE_KEY" ;;
  account <- call (privateKeyToAccount lib privateKey) ;;
  tokenMeta <- call (requireToken registry (Some token)) ;;
  (if negb (String.eqb (JsString.toLowerCase to) (JsString.toLowerCase (address account)))
   then throw (Error (mismatchMessage to (address account)))
   else ret tt) ;;
  (* Step 1: wrap on BSC *)
  cfg <- ownConfig tokenMeta "wrapper" ;;
  wrapperBalBefore <-
    readContractM host BscChain (wrapper (bsc cfg)) (BalanceOf (address account)) ;;
  runStep host "bscWrap" "src/bscWrap.ts" ([token; "--amount"; wrapAmount] ++ dryRun) ;;
  (if negb isDryRun
   then
     (pollUntil host fuel "wrapper balance increase after wrap"
        (readContractM host BscChain (wrapper (bsc cfg)) (BalanceOf (address account)))
        (anyIncrease wrapperBalBefore)
        (Some {| timeoutMs := Some (2 * 60000); intervalMs := Some 3000 |}) ;;
      ret tt)
   else ret tt) ;;
  (* Step 2: send to HyperEVM (LayerZero) *)
  tokenDecimals <- readContractM host HyperEvmChain (hyperEvm_oft cfg) Decimals ;;
  sendAmountWei <- call (parseUnits lib sendAmount tokenDecimals) ;;
  hyperBalBefore <- readContractM host HyperEvmChain (hyperEvm_oft cfg) (BalanceOf to) ;;
  runStep host "bscToHypeEvm" "src/bscToHypeEvm.ts"
    ([token; "--to"; to; "--amount"; sendAmount] ++ dryRun) ;;
  (if negb isDryRun
   then
     (let expectedAtLeast := hyperBalBefore + sendAmountWei in
      started <- dateNow host ;;
      setFrame {| lastPrintedAt := 0; lastSeen := hyperBalBefore |} ;;
      pollUntil host fuel "HyperEVM token balance credited"
        (waitingRead host lib HyperEvmChain (hyperEvm_oft cfg) to
           5000 "HyperEVM credit" started expectedAtLeast tokenDecimals (name cfg))
        (atLeast expectedAtLeast)
        (Some {| timeoutMs := Some (24 * 60 * 60000); intervalMs := Some 1000 |}) ;;
      ret tt)
   else ret tt) ;;
  (* Step 3: send token from HyperEVM to HyperCore *)
  let tokenIndex := hyperCore_tokenIndex cfg in
  let coreBridge := toAssetBridgeAddress tokenIndex in
  coreAmountWei <- call (parseUnits lib coreAmount tokenDecimals) ;;
  coreBalBeforeStr <- fetchHyperCoreSpotTotal host lib (address account) tokenIndex ;;
  coreBalBefore <- spotTotalToUnits lib coreBalBeforeStr tokenDecimals ;;
  runStep host "hypeEvmToHypeCore" "src/hypeEvmToHypeCore.ts"
    ([token; "--amount"; coreAmount] ++ dryRun) ;;
  (if negb isDryRun
   then
     (pollUntil host fuel
        ("HyperCore spot credit for tokenIndex=" ++ JsString.ofInt tokenIndex)
        (readCoreSpot (address account) tokenIndex tokenDecimals)
        (withinTolerance coreBalBefore coreAmountWei)
        (Some {| timeoutMs := Some (10 * 60000); intervalMs := Some 5000 |}) ;;
      ret tt)
   else ret tt).

End Main.
End FlowBscToHypeCore.

(** ** [src/flowHypeCoreToBsc.ts]: HyperCore -> HyperEVM -> BSC *)

Module FlowHypeCoreToBsc.
Section Main.

Context {W : Type}.
Variable host : Host W.
Variable lib : Library.
Variable registry : list (string * TokenConfig).
Variable process : Process.

Definition mismatchMessage (to signer : string) : string :=
  "--to must equal the EVM address of PRIVATE_KEY for this flow." ++ JsString.nl
    ++ "to=" ++ to ++ JsString.nl
    ++ "signer=" ++ signer ++ JsString.nl
    ++ "Otherwise step 3 (unwrap) cannot operate on the received tokens.".

Definition banner (title : string) : string :=
  JsString.nl ++ "========== " ++ title ++ " ==========" ++ JsString.nl.

Definition main (fuel : nat) : M W unit :=
  let args := argv process in
  token <- orThrow (orElse (getArg "--token" args) (getPositionalArg 0 args))
             "Missing token. Usage: npm run flowHypeCoreToBsc -- <TOKEN> --to <ADDR> --amount <AMOUNT>" ;;
  to <- orThrow (match getArg "--to" args with
                 | Some t => if isAddress lib t then Some t else None
                 | None => None
                 end)
          "Missing/invalid --to (recipient on BSC for final unwrapped tokens)" ;;
  let amount := getArg "--amount" args in
  spotSendAmount <- orThrow (orElse (getArg "--spot-send-amount" args) amount)
                      "Missing --amount (or --spot-send-amount)" ;;
  bridgeAmount <- orThrow (orElse (getArg "--bridge-amount" args) amount)
                    "Missing --amount (or --bridge-amount)" ;;
  unwrapAmount <- orThrow (orElse (getArg "--unwrap-amount" args) amount)
                    "Missing --amount (or --unwrap-amount)" ;;
  let dryRun := dryRunArgs args in
  let isDryRun := hasFlag "--dry-run" args in
  _ <- orThrow (SRC_RPC_URL process) "Missing SRC_RPC_URL" ;;
  privateKey <- orThrow (PRIVATE_KEY process) "Missing PRIVATE_KEY" ;;
  account <- call (privateKeyToAccount lib privateKey) ;;
  tokenMeta <- call (requireToken registry (Some token)) ;;
  (if negb (String.eqb (JsString.toLowerCase to) (JsString.toLowerCase (address account)))
   then throw (Error (mismatchMessage to (address account)))
   else ret tt) ;;
  (* Get token decimals *)
  cfg <- ownConfig tokenMeta "oft" ;;
  tokenDecimals <- readContractM host HyperEvmChain (hyperEvm_oft cfg) Decimals ;;
  let tokenIndex := hyperCore_tokenIndex cfg in
  (* Step 1: HyperCore -> HyperEVM (spotSend) *)
  consoleLog (banner "Step 1: HyperCore → HyperEVM (spotSend)") ;;
  coreBalBeforeStr <- fetchHyperCoreSpotTotal host lib (address account) tokenIndex ;;
  let coreBalBefore := spotTotalToNumber lib coreBalBeforeStr in
  consoleLog ("[flow] HyperCore spot balance before: "
                ++ numberToString lib coreBalBefore ++ " " ++ name cfg) ;;
  hyperEvmBalBefore <-
    readContractM host HyperEvmChain (hyperEvm_oft cfg) (BalanceOf (address account)) ;;
  consoleLog ("[flow] HyperEVM balance before: "
                ++ formatUnits lib hyperEvmBalBefore tokenDecimals ++ " " ++ name cfg) ;;
  runStep host "hypeCoreToHypeEvm" "src/hypeCoreToHypeEvm.ts"
    ([token; "--amount"; spotSendAmount] ++ dryRun) ;;
  (if negb isDryRun
   then
     (spotSendAmountWei <- call (parseUnits lib spotSendAmount tokenDecimals) ;;
      let expectedAtLeast := hyperEvmBalBefore + spotSendAmountWei in
      started <- dateNow host ;;
      setFrame {| lastPrintedAt := 0; lastSeen := hyperEvmBalBefore |} ;;
      pollUntil host fuel "HyperEVM token balance credited from HyperCore"
        (waitingRead host lib HyperEvmChain (hyperEvm_oft cfg) (address account)
           5000 "HyperEVM credit from HyperCore"
           started expectedAtLeast tokenDecimals (name cfg))
        (atLeast expectedAtLeast)
        (Some {| timeoutMs := Some (5 * 60000); intervalMs := Some 2000 |}) ;;
      consoleLog "[flow] HyperEVM balance credited!")
   else ret tt) ;;
  (* Step 2: HyperEVM -> BSC (LayerZero) *)
  consoleLog (banner "Step 2: HyperEVM → BSC (LayerZero)") ;;
  bscWrapperBalBefore <-
    readContractM host BscChain (wrapper (bsc cfg)) (BalanceOf (address account)) ;;
  consoleLog ("[flow] BSC wrapper balance before: "
                ++ formatUnits lib bscWrapperBalBefore tokenDecimals ++ " " ++ name cfg) ;;
  runStep host "hypeEvmToBsc" "src/hypeEvmToBsc.ts"
    ([token; "--to"; to; "--amount"; bridgeAmount] ++ dryRun) ;;
  (if negb isDryRun
   then
     (bridgeAmountWei <- call (parseUnits lib bridgeAmount tokenDecimals) ;;
      let expectedAtLeast := bscWrapperBalBefore + bridgeAmountWei in
      started <- dateNow host ;;
      setFrame {| lastPrintedAt := 0; lastSeen := bscWrapperBalBefore |} ;;
      pollUntil host fuel "BSC wrapper balance credited from HyperEVM"
        (waitingRead host lib BscChain (wrapper (bsc cfg)) (address account)
           10000 "BSC credit from LayerZero"
           started expectedAtLeast tokenDecimals (name cfg))
        (atLeast expectedAtLeast)
        (Some {| timeoutMs := Some (30 * 60000); intervalMs := Some 5000 |}) ;;
      consoleLog "[flow] BSC wrapper balance credited!")
   else ret tt) ;;
  (* Step 3: Unwrap on BSC *)
  consoleLog (banner "Step 3: Unwrap on BSC (CRCLd → CRCLon)") ;;
  underlying <- orThrow (underlying (bsc cfg))
                  ("Missing underlying address for " ++ name cfg
                     ++ ". Cannot proceed with unwrap.") ;;
  underlyingBalBefore <-
    readContractM host BscChain underlying (BalanceOf (address account)) ;;
  consoleLog ("[flow] BSC underlying balance before: "
                ++ formatUnits lib underlyingBalBefore tokenDecimals) ;;
  runStep host "bscUnwrap" "src/bscUnwrap.ts"
    ([token; "--to"; to; "--amount"; unwrapAmount] ++ dryRun) ;;
  (if negb isDryRun
   then
     (underlyingBalAfter <-
        readContractM host BscChain underlying (BalanceOf (address account)) ;;
      let delta := underlyingBalAfter - underlyingBalBefore in
      consoleLog (JsString.nl ++ "========== Flow Complete ==========") ;;
      consoleLog ("[flow] Final underlying balance: "
                    ++ formatUnits lib underlyingBalAfter tokenDecimals) ;;
      consoleLog ("[flow] Received: " ++ formatUnits lib delta tokenDecimals
                    ++ " underlying tokens"))
   else ret tt).

End Main.
End FlowHypeCoreToBsc.

(** ** Definitions used to state the properties *)

(** The number that a string of hexadecimal digits denotes. *)
Definition hexValue (s : string) : option N :=
  option_map N.of_hex_uint (HexadecimalString.NilEmpty.uint_of_string s).

Definition isLowerHexDigit (c : ascii) : bool :=
  let n := nat_of_ascii c in
  ((Nat.leb 48 n && Nat.leb n 57) || (Nat.leb 97 n && Nat.leb n 102))%bool.

Fixpoint allChars (p : ascii -> bool) (s : string) : bool :=
  match s with
  | EmptyString => true
  | String c r => (p c && allChars p r)%bool
  end.

(** The address rule, read for every index of at most 39 hexadecimal
    digits. *)
Definition bridge_address_on_39_digits : Prop :=
  forall tokenIndex : Z,
    0 <= tokenIndex ->
    (String.length (JsString.toString16 tokenIndex) <= 39)%nat ->
    let digits := JsString.toString16 tokenIndex in
    toAssetBridgeAddress tokenIndex
      = "0x2" ++ JsString.replicate (39 - String.length digits) "0"%char ++ digits
    /\ String.length (toAssetBridgeAddress tokenIndex) = 42%nat
    /\ allChars isLowerHexDigit digits = true
    /\ hexValue digits = Some (Z.to_N tokenIndex)
    /\ (forall other : Z,
          0 <= other ->
          (String.length (JsString.toString16 other) <= 39)%nat ->
          toAssetBridgeAddress other = toAssetBridgeAddress tokenIndex ->
          other = tokenIndex).

(** A child process that ended well: exit code 0 and no signal. *)
Definition childSucceeded (r : ChildResult) : bool :=
  match childVerdict "" r with
  | None => true
  | Some _ => false
  end.

(** The events that end a hop in failure: a step executor that did not
    end well, and an exception (a poll timeout is one). *)
Definition hopFailure (ev : Event) : bool :=
  match ev with
  | EvSpawn _ _ r => negb (childSucceeded r)
  | EvThrow _ => true
  | _ => false
  end.

(** What a dry run may do: no poll, no sleep, and step executors only
    with [--dry-run] as their last argument. *)
Definition dryEvent (ev : Event) : bool :=
  match ev with
  | EvSpawn _ args _ =>
      match rev args with
      | last :: _ => String.eqb last "--dry-run"
      | [] => false
      end
  | EvPollUntil _ | EvSleep _ => false
  | _ => true
  end.

(** The step executors a trace invoked, in order: script and arguments. *)
Definition spawned (tr : list Event) : list (string * list string) :=
  flat_map (fun ev => match ev with
                      | EvSpawn script args _ => [(script, args)]
                      | _ => []
                      end) tr.

(** The values a trace read from contracts, in order. *)
Definition contractReads (tr : list Event) : list (Result Z) :=
  flat_map (fun ev => match ev with
                      | EvReadContract _ _ _ r => [r]
                      | _ => []
                      end) tr.

Definition sleeps (tr : list Event) : list Z :=
  flat_map (fun ev => match ev with
                      | EvSleep ms => [ms]
                      | _ => []
                      end) tr.

Definition initial {W : Type} (w : W) : State W :=
  {| world := w; frame := {| lastPrintedAt := 0; lastSeen := 0 |}; trace := [] |}.

(** *** A scripted host, to run the flows on

    The clock advances by [latency] at each call on the network and by the
    delay of each timer.  The reads, the child processes and the requests
    are answered from scripts; when a script is used up the host answers
    [idle] to a read, exit code 0 to a child and an empty list of balances
    to a request. *)
Module Sim.

Record World : Type := {
  now : Z;
  latency : Z;
  answers : list (Result Z);
  idle : Result Z;
  exits : list ChildResult;
  infos : list FetchResult
}.

Definition emptyInfo : FetchResult :=
  FetchResponds {| ok := true; status := 200; statusText := "OK";
                   json := Ok (JObject [("balances", JArray [])]) |}.

Definition host : Host World :=
  {| clock := now;
     setTimeout := fun ms w =>
       {| now := now w + Z.max 0 ms; latency := latency w; answers := answers w;
          idle := idle w; exits := exits w; infos := infos w |};
     spawn := fun _ _ w =>
       (hd (ChildExit (Some 0) None) (exits w),
        {| now := now w + Z.max 0 (latency w); latency := latency w; answers := answers w;
           idle := idle w; exits := tl (exits w); infos := infos w |});
     readContract := fun _ _ _ w =>
       (hd (idle w) (answers w),
        {| now := now w + Z.max 0 (latency w); latency := latency w; answers := tl (answers w);
           idle := idle w; exits := exits w; infos := infos w |});
     fetchInfo := fun _ w =>
       (hd emptyInfo (infos w),
        {| now := now w + Z.max 0 (latency w); latency := latency w; answers := answers w;
           idle := idle w; exits := exits w; infos := tl (infos w) |}) |}.

(** A library for the runs: amounts are decimal integers (no fraction),
    every string is an address, the account of a key is the key. *)
Definition parseInteger (s : string) : Result Z :=
  match DecimalString.NilZero.int_of_string s with
  | Some d => Ok (Z.of_int d)
  | None => Raise (Error ("Invalid decimal number: " ++ s))
  end.

Definition lib : Library :=
  {| number := Z;
     zero := 0;
     parseFloat := fun s => match parseInteger s with Ok z => z | Raise _ => 0 end;
     numberToString := JsString.ofInt;
     jsonToNumber := fun v =>
       match v with
       | JNull | JBool false => Ok (Some 0)
       | JBool true => Ok (Some 1)
       | JString s => match parseInteger s with Ok z => Ok (Some z) | Raise _ => Ok None end
       | _ => Ok None
       end;
     jsonToString := fun v =>
       match v with
       | JNull => Ok "null"
       | JBool true => Ok "true"
       | JBool false => Ok "false"
       | JNumber n => Ok (JsString.ofInt n)
       | JReal numeral => Ok numeral
       | _ => Raise (Error "Cannot convert object to primitive value")
       end;
     isAddress := fun _ => true;
     privateKeyToAccount := fun k => Ok {| address := k |};
     parseUnits := fun s _ => parseInteger s;
     formatUnits := fun v _ => JsString.ofInt v |}.

Definition quiet (balances : list Z) (rest : Z) : World :=
  {| now := 1000; latency := 0; answers := map Ok balances; idle := Ok rest;
     exits := []; infos := [] |}.

End Sim.

(** *** What [pollUntil] is expected to do *)

Section PollerSpec.

Context {W T : Type}.
Variable host : Host W.
Variable label : string.
Variable read : M W T.
Variable ok : T -> bool.
Variables timeout interval started : Z.

(** The runs of the loop, as the text of [pollUntil] describes them: read;
    return a satisfying value; otherwise fail when the time is up, else
    sleep [interval] and start over.  An error of the read ends the run. *)
Inductive Polls : State W -> Outcome T -> State W -> Prop :=
| Polls_satisfied s v s1 :
    read s = (Ret v, s1) -> ok v = true ->
    Polls s (Ret v) s1
| Polls_read_throws s e s1 :
    read s = (Throw e, s1) ->
    Polls s (Throw e) s1
| Polls_timeout s v s1 :
    read s = (Ret v, s1) -> ok v = false ->
    timeout < clock host (world s1) - started ->
    Polls s (Throw (Error (timeoutMessage label)))
      (record (EvThrow (Error (timeoutMessage label))) s1)
| Polls_again s v s1 o s2 :
    read s = (Ret v, s1) -> ok v = false ->
    clock host (world s1) - started <= timeout ->
    Polls (snd (sleep host interval s1)) o s2 ->
    Polls s o s2.

(** A timer of [ms] milliseconds fires no earlier than [ms] later. *)
Definition Timely : Prop :=
  forall ms w, clock host w + ms <= clock host (setTimeout host ms w).

(** The clock does not go back while the read runs, and the read ends. *)
Definition Steady : Prop :=
  forall s, clock host (world s) <= clock host (world (snd (read s))).

Definition Ends : Prop :=
  forall s, fst (read s) <> Pending.

End PollerSpec.

(** The options of a call of [pollUntil], defaults applied, and a number
    of turns that is enough for the loop to end. *)
Definition timeoutOf (opts : option PollOpts) : Z :=
  optOr (match opts with Some o => timeoutMs o | None => None end) (10 * 60000).

Definition intervalOf (opts : option PollOpts) : Z :=
  optOr (match opts with Some o => intervalMs o | None => None end) 5000.

Definition pollFuel (opts : option PollOpts) : nat :=
  S (S (Z.to_nat (timeoutOf opts / intervalOf opts))).

(** The claim that the error of a timeout carries, besides the label, the
    time that has passed and the value last read: both can be read off
    the error. *)
Definition timeout_error_carries_run : Prop :=
  exists elapsedOf lastOf : JsError -> Z,
    forall (w : Sim.World) (fuel : nat) (label : string) (expected : Z)
           (opts : option PollOpts) (s' : State Sim.World),
      pollUntil Sim.host fuel label
        (readContractM Sim.host BscChain "0xToken" (BalanceOf "0xOwner"))
        (atLeast expected) opts (initial w)
        = (Throw (Error (timeoutMessage label)), s') ->
      last (contractReads (trace s')) (Ok 0)
        = Ok (lastOf (Error (timeoutMessage label)))
      /\ Sim.now (world s') - Sim.now w = elapsedOf (Error (timeoutMessage label)).

(** The confirmation of the first hop of [flowHypeCoreToBsc] on the
    scripted host, for a balance of 100 before the hop and an amount of
    50: the state is the one [main] polls from. *)
Definition shortPoll : option PollOpts :=
  Some {| timeoutMs := Some 10; intervalMs := Some 10 |}.

Definition creditPoll (fuel : nat) (w : Sim.World)
  : Outcome Z * State Sim.World :=
  pollUntil Sim.host fuel "HyperEVM token balance credited from HyperCore"
    (waitingRead Sim.host Sim.lib HyperEvmChain "0xOft" "0xOwner"
       5000 "HyperEVM credit from HyperCore" (Sim.now w) (100 + 50) 0 "CRCLd")
    (atLeast (100 + 50))
    (Some {| timeoutMs := Some (5 * 60000); intervalMs := Some 2000 |})
    {| world := w; frame := {| lastPrintedAt := 0; lastSeen := 100 |}; trace := [] |}.

(** The claim that nothing but a status that is not OK makes the observer
    of the core ledger raise an error. *)
Definition only_bad_status_raises : Prop :=
  forall (w : Sim.World) (user : string) (tokenIndex : Z)
         (e : JsError) (s' : State Sim.World),
    fetchHyperCoreSpotTotal Sim.host Sim.lib user tokenIndex (initial w) = (Throw e, s') ->
    exists res w', fetchInfo Sim.host user w = (FetchResponds res, w') /\ ok res = false.

(** A host whose request to the info endpoint fails. *)
Definition offline : Sim.World :=
  {| Sim.now := 0; Sim.latency := 30000; Sim.answers := []; Sim.idle := Ok 0;
     Sim.exits := []; Sim.infos := [FetchFails (Error "fetch failed")] |}.

(** An entry of [balances] as the info endpoint documents it, or
    [null]: the token is a number or is absent, the total is a string,
    [null] or absent.  No conversion of such an entry calls the library. *)
Definition plainEntry (b : Json) : Prop :=
  match property "token" b with
  | None | Some (JNumber _) | Some (JReal _) => True
  | Some _ => False
  end
  /\ match property "total" b with
     | None | Some JNull | Some (JString _) => True
     | Some _ => False
     end.

(** *** Disciplines of traces

    A discipline says which events a computation may add to the trace
    while it goes on ([goes]) and which when it throws [e] ([throws e]).
    A computation obeys it when every run of it does so. *)
Class Discipline (goes : list Event -> Prop) (throws : JsError -> list Event -> Prop)
  : Prop := {
  goes_nil : goes [];
  goes_app : forall t1 t2, goes t1 -> goes t2 -> goes (t1 ++ t2)%list;
  throws_app : forall e t1 t2, goes t1 -> throws e t2 -> throws e (t1 ++ t2)%list;
  throws_throw : forall e, throws e [EvThrow e];
  goes_log : forall line, goes [EvLog line];
  goes_read : forall c contract fn r, goes [EvReadContract c contract fn r];
  goes_fetch : forall user r, goes [EvFetch user r]
}.

Definition obeys {W A : Type}
    (goes : list Event -> Prop) (throws : JsError -> list Event -> Prop)
    (m : M W A) : Prop :=
  forall s, exists tr,
    trace (snd (m s)) = (trace s ++ tr)%list
    /\ match fst (m s) with
       | Throw e => throws e tr
       | _ => goes tr
       end.

(** What a discipline has to allow for a flow to obey it: the step
    executors of the plan, which may fail, and, unless the run is dry, the
    poller. *)
Definition allowsPlan (goes : list Event -> Prop) (throws : JsError -> list Event -> Prop)
    (plan : list (string * list string)) : Prop :=
  forall stepName script args,
    In (script, args) plan ->
    (forall r, childVerdict stepName r = None -> goes [EvSpawn script args r])
    /\ (forall r e, childVerdict stepName r = Some e ->
                    throws e [EvSpawn script args r; EvThrow e]).

Definition allowsPoll (goes : list Event -> Prop) (args : list string) : Prop :=
  hasFlag "--dry-run" args = false ->
  (forall ms, goes [EvSleep ms]) /\ (forall label, goes [EvPollUntil label]).

(** The discipline of a run that stops at the first failure: nothing that
    ends a hop in failure happens while the run goes on, and a run that
    throws [e] ends with the exception, right after the failure of the
    step executor when that is its cause. *)
Definition Benign (tr : list Event) : Prop :=
  Forall (fun ev => hopFailure ev = false) tr.

Definition Aborted (e : JsError) (tr : list Event) : Prop :=
  exists good,
    Benign good
    /\ (tr = (good ++ [EvThrow e])%list
        \/ exists script args r,
             childSucceeded r = false
             /\ tr = (good ++ [EvSpawn script args r; EvThrow e])%list).

(** The step executors that [flowBscToHypeCore] and [flowHypeCoreToBsc]
    invoke for a command line: script and arguments, hop by hop. *)
Definition text (x : option string) : string :=
  match x with
  | Some s => s
  | None => ""
  end.

Definition planBscToHypeCore (args : list string) : list (string * list string) :=
  let token := text (orElse (getArg "--token" args) (getPositionalArg 0 args)) in
  let to := text (getArg "--to" args) in
  let amount := getArg "--amount" args in
  let wrapAmount := text (orElse (getArg "--wrap-amount" args) amount) in
  let sendAmount := text (orElse (getArg "--send-amount" args) amount) in
  let coreAmount := text (orElse (getArg "--core-amount" args) amount) in
  [ ("src/bscWrap.ts", [token; "--amount"; wrapAmount] ++ dryRunArgs args);
    ("src/bscToHypeEvm.ts", [token; "--to"; to; "--amount"; sendAmount] ++ dryRunArgs args);
    ("src/hypeEvmToHypeCore.ts", [token; "--amount"; coreAmount] ++ dryRunArgs args) ]%list.

Definition planHypeCoreToBsc (args : list string) : list (string * list string) :=
  let token := text (orElse (getArg "--token" args) (getPositionalArg 0 args)) in
  let to := text (getArg "--to" args) in
  let amount := getArg "--amount" args in
  let spotSendAmount := text (orElse (getArg "--spot-send-amount" args) amount) in
  let bridgeAmount := text (orElse (getArg "--bridge-amount" args) amount) in
  let unwrapAmount := text (orElse (getArg "--unwrap-amount" args) amount) in
  [ ("src/hypeCoreToHypeEvm.ts", [token; "--amount"; spotSendAmount] ++ dryRunArgs args);
    ("src/hypeEvmToBsc.ts", [token; "--to"; to; "--amount"; bridgeAmount] ++ dryRunArgs args);
    ("src/bscUnwrap.ts", [token; "--to"; to; "--amount"; unwrapAmount] ++ dryRunArgs args) ]%list.

(** The events whose step executors, if any, are all of a given plan. *)
Definition planned (plan : list (string * list string)) (ev : Event) : Prop :=
  match ev with
  | EvSpawn script args _ => In (script, args) plan
  | _ => True
  end.

(** Two command lines that give a flow the same inputs: the same token,
    the same recipient, the same amounts. *)
Definition flowOptions : list string :=
  [ "--token"; "--to"; "--amount";
    "--wrap-amount"; "--send-amount"; "--core-amount";
    "--spot-send-amount"; "--bridge-amount"; "--unwrap-amount" ].

Definition sameInputs (args1 args2 : list string) : Prop :=
  getPositionalArg 0 args1 = getPositionalArg 0 args2
  /\ forall name, In name flowOptions -> getArg name args1 = getArg name args2.

(** The checks that [main] makes before it compares the recipient with
    the signer all pass: token, recipient, the three amounts of the flow
    (each with [--amount] as its default), the two environment variables,
    and the token is a known one. *)
Definition checksPass (lib : Library) (registry : list (string * TokenConfig))
    (process : Process) (amountOptions : list string) : Prop :=
  let args := argv process in
  let token := orElse (getArg "--token" args) (getPositionalArg 0 args) in
  truthy token = true
  /\ (exists to, getArg "--to" args = Some to /\ isAddress lib to = true /\ to <> "")
  /\ Forall (fun option =>
               truthy (orElse (getArg option args) (getArg "--amount" args)) = true)
            amountOptions
  /\ truthy (SRC_RPC_URL process) = true
  /\ truthy (PRIVATE_KEY process) = true
  /\ (exists meta, requireToken registry token = Ok meta).

(** Command lines and a scripted host for runs of the flows: the second
    step executor exits with code 1. *)
Definition demoProcess (to : string) (flags : list string) : Process :=
  {| argv := ["node"; "flow.ts"; "CRCLd"; "--to"; to; "--amount"; "5"] ++ flags;
     SRC_RPC_URL := Some "http://localhost:8545";
     PRIVATE_KEY := Some "0xABC" |}.

Definition demoWorld : Sim.World :=
  {| Sim.now := 1000; Sim.latency := 3;
     Sim.answers := [Ok 0; Ok 5; Ok 0; Ok 0];
     Sim.idle := Ok 0;
     Sim.exits := [ChildExit (Some 0) None; ChildExit (Some 1) None];
     Sim.infos := [] |}.

Definition demoFailure : Event :=
  EvSpawn "src/bscToHypeEvm.ts" ["CRCLd"; "--to"; "0xabc"; "--amount"; "5"]
    (ChildExit (Some 1) None).

Definition demoBefore : list Event :=
  [ EvReadContract BscChain "0x8edE6AffCBe962e642f83d84b8Af66313A700dDf"
      (BalanceOf "0xABC") (Ok 0);
    EvSpawn "src/bscWrap.ts" ["CRCLd"; "--amount"; "5"] (ChildExit (Some 0) None);
    EvPollUntil "wrapper balance increase after wrap";
    EvReadContract BscChain "0x8edE6AffCBe962e642f83d84b8Af66313A700dDf"
      (BalanceOf "0xABC") (Ok 5);
    EvReadContract HyperEvmChain "0xe74aA6C4050A15790525eB11cc4562c664dC67C9"
      Decimals (Ok 0);
    EvReadContract HyperEvmChain "0xe74aA6C4050A15790525eB11cc4562c664dC67C9"
      (BalanceOf "0xabc") (Ok 0) ].

(** A host on which nothing fails: every read of a contract answers,
    every step executor ends with exit code 0, and the info endpoint
    answers OK with a list of entries as it documents them, whose totals
    [parseUnits] reads. *)
Definition Reliable {W : Type} (host : Host W) (lib : Library) : Prop :=
  (forall c contract fn w, exists v, fst (readContract host c contract fn w) = Ok v)
  /\ (forall script args w, fst (spawn host script args w) = ChildExit (Some 0) None)
  /\ (forall user w, exists res data balances,
        fst (fetchInfo host user w) = FetchResponds res
        /\ ok res = true
        /\ json res = Ok data
        /\ balancesOf data = JArray balances
        /\ Forall plainEntry balances
        /\ forall b t d, In b balances -> property "total" b = Some (JString t) ->
                         exists v, parseUnits lib t d = Ok v).

(** A command line and an environment that a flow accepts: the checks
    pass, the token is one of the registry, the recipient is the signer,
    and the amounts are numbers that [parseUnits] reads. *)
Definition Accepted (lib : Library) (registry : list (string * TokenConfig))
    (process : Process) (amountOptions : list string) (cfg : TokenConfig) : Prop :=
  let args := argv process in
  checksPass lib registry process amountOptions
  /\ requireToken registry (orElse (getArg "--token" args) (getPositionalArg 0 args))
     = Ok (Own cfg)
  /\ (exists account,
        privateKeyToAccount lib (text (PRIVATE_KEY process)) = Ok account
        /\ JsString.toLowerCase (text (getArg "--to" args))
           = JsString.toLowerCase (address account))
  /\ Forall (fun option =>
               forall d, exists v,
                 parseUnits lib (text (orElse (getArg option args) (getArg "--amount" args))) d
                 = Ok v)
            amountOptions.

(** A computation that returns, whatever the state it starts in, with a
    result that satisfies [Q]. *)
Definition Succeeds {W A : Type} (m : M W A) (Q : A -> Prop) : Prop :=
  forall s, exists a s', m s = (Ret a, s') /\ Q a.


(** A host that answers every read with 0, ends every step executor with
    exit code 0 and lists no balance. *)
Definition steadyHost : Host unit :=
  {| clock := fun _ => 0;
     setTimeout := fun _ w => w;
     spawn := fun _ _ w => (ChildExit (Some 0) None, w);
     readContract := fun _ _ _ w => (Ok 0, w);
     fetchInfo := fun _ w => (Sim.emptyInfo, w) |}.

(** The words that are not empty, do not start with a dash and do not
    follow a word that does; [afterDash] tells whether the word before the
    first starts with a dash. *)
Fixpoint plainWords (afterDash : bool) (words : list string) : list string :=
  match words with
  | [] => []
  | a :: r =>
      let dash := JsString.startsWith "-" a in
      if (negb (String.eqb a "") && negb dash && negb afterDash)%bool
      then a :: plainWords dash r
      else plainWords dash r
  end.

(** A string that does not start with a blank. *)
Definition startsClean (s : string) : Prop :=
  match s with
  | EmptyString => True
  | String c _ => JsString.isSpace c = false
  end.

(** A host whose info endpoint lists two entries for token 409: the first
    has no total. *)
Definition twoEntries : Sim.World :=
  {| Sim.now := 0; Sim.latency := 0; Sim.answers := []; Sim.idle := Ok 0;
     Sim.exits := [];
     Sim.infos :=
       [FetchResponds
          {| ok := true; status := 200; statusText := "OK";
             json := Ok (JObject
                           [("balances",
                             JArray
                               [ JObject [("token", JNumber 1); ("total", JString "7")];
                                 JNull;
                                 JObject [("coin", JString "CRCLd"); ("token", JNumber 409)];
                                 JObject [("token", JNumber 409);
                                          ("total", JString "12.5")] ])]) |}] |}.

(** A read that sets no timer. *)
Definition NoSleep {W T : Type} (read : M W T) : Prop :=
  forall s, sleeps (trace (snd (read s))) = sleeps (trace s).

(** The clock of the host does not go back while it answers a read or a
    request. *)
Definition Monotone {W : Type} (host : Host W) : Prop :=
  (forall c contract fn w,
     clock host w <= clock host (snd (readContract host c contract fn w)))
  /\ (forall user w, clock host w <= clock host (snd (fetchInfo host user w))).

(** A computation performs a plan when the step executors it invokes are
    those of the plan, in the order of the plan: all of them when it
    returns, the first of them when it does not. *)
Definition performs {W A : Type} (m : M W A) (plan : list (string * list string)) : Prop :=
  forall s, exists tr,
    trace (snd (m s)) = (trace s ++ tr)%list
    /\ match fst (m s) with
       | Ret _ => spawned tr = plan
       | _ => exists rest, plan = (spawned tr ++ rest)%list
       end.

(** ** The flow without confirmations ([src/unnamed/part_012], [main])

    An earlier flow from BSC to HyperCore: the same command line, three
    step executors one after the other, and nothing in between. *)

Module FlowLegacy.
Section Main.

Context {W : Type}.
Variable host : Host W.
Variable process : Process.

Definition main : M W unit :=
  let args := argv process in
  token <- orThrow (orElse (getArg "--token" args) (getPositionalArg 0 args))
             "Missing token. Usage: npm run flow -- <TOKEN> --to <ADDR> --amount <AMOUNT>" ;;
  to <- orThrow (getArg "--to" args)
          "Missing --to (recipient on destination chain for sendToHyperEvm)" ;;
  let amount := getArg "--amount" args in
  let wrapAmount := orElse (getArg "--wrap-amount" args) amount in
  let sendAmount := orElse (getArg "--send-amount" args) amount in
  let coreAmount := orElse (getArg "--core-amount" args) amount in
  wrapAmount <- orThrow wrapAmount "Missing --amount (or --wrap-amount)" ;;
  sendAmount <- orThrow sendAmount "Missing --amount (or --send-amount)" ;;
  coreAmount <- orThrow coreAmount "Missing --amount (or --core-amount)" ;;
  let dryRun := dryRunArgs args in
  runStep host "wrap" "src/wrap.ts" ([token; "--amount"; wrapAmount] ++ dryRun) ;;
  runStep host "sendToHyperEvm" "src/sendToHyperEvm.ts"
    ([token; "--to"; to; "--amount"; sendAmount] ++ dryRun) ;;
  runStep host "sendToHyperCore" "src/sendToHyperCore.ts"
    ([token; "--amount"; coreAmount] ++ dryRun).

End Main.
End FlowLegacy.

(** The step executors that the flow without confirmations invokes. *)
Definition planLegacy (args : list string) : list (string * list string) :=
  let token := text (orElse (getArg "--token" args) (getPositionalArg 0 args)) in
  let to := text (getArg "--to" args) in
  let amount := getArg "--amount" args in
  let wrapAmount := text (orElse (getArg "--wrap-amount" args) amount) in
  let sendAmount := text (orElse (getArg "--send-amount" args) amount) in
  let coreAmount := text (orElse (getArg "--core-amount" args) amount) in
  [ ("src/wrap.ts", [token; "--amount"; wrapAmount] ++ dryRunArgs args);
    ("src/sendToHyperEvm.ts", [token; "--to"; to; "--amount"; sendAmount] ++ dryRunArgs args);
    ("src/sendToHyperCore.ts", [token; "--amount"; coreAmount] ++ dryRunArgs args) ]%list.

(** The events of a run that does nothing but invoke step executors. *)
Definition stepOrThrow (ev : Event) : bool :=
  match ev with
  | EvSpawn _ _ _ | EvThrow _ => true
  | _ => false
  end.

(** A computation whose events all satisfy [P]. *)
Definition confined {W A : Type} (P : Event -> bool) (m : M W A) : Prop :=
  forall s, exists tr,
    trace (snd (m s)) = (trace s ++ tr)%list /\ forallb P tr = true.

(** ** [src/router/utils.ts]: what the router scripts resolve from the
    environment *)

Module RouterUtils.
Section Utils.

Variable lib : Library.

(** [process.env]: a variable is unset or holds a string. *)
Variable processEnv : string -> option string.

Definition env (name : string) : option string :=
  match processEnv name with
  | Some v => if negb (String.eqb v "") then Some v else None
  | None => None
  end.

Definition requireAddress (input : option string) (label : string) : Result string :=
  match input with
  | Some i =>
      if negb (truthy input) then Raise (Error ("Missing " ++ label))
      else if negb (isAddress lib i) then Raise (Error ("Invalid " ++ label))
      else Ok i
  | None => Raise (Error ("Missing " ++ label))
  end.

Definition resolveBscRpcUrl : string :=
  match orElse (env "SRC_RPC_URL") (env "BSC_RPC_URL") with
  | Some url => url
  | None => "https://bsc-dataseed.binance.org"
  end.

Definition resolveHyperEvmRpcUrl : string :=
  match orElse (env "HYPEREVM_RPC_URL") (env "HYPEEVM_RPC_URL") with
  | Some url => url
  | None => "https://rpc.hyperliquid.xyz/evm"
  end.

Definition resolvePrivateKey : Result string :=
  let pk := env "PRIVATE_KEY" in
  match pk with
  | Some k => if negb (truthy pk) then Raise (Error "Missing PRIVATE_KEY") else Ok k
  | None => Raise (Error "Missing PRIVATE_KEY")
  end.

Definition routerMessage : string :=
  "Missing/invalid DStockRouter address. Use --router, set DSTOCK_ROUTER_ADDRESS/ROUTER_ADDRESS, or configure token.bsc.router.".

(** [router] is [token.bsc.router], the one property of [token] that is
    read. *)
Definition resolveRouterAddress (router : option string) (override : option string)
  : Result string :=
  let fromEnv := orElse (env "DSTOCK_ROUTER_ADDRESS") (env "ROUTER_ADDRESS") in
  let candidate := orElse (orElse override fromEnv) router in
  match candidate with
  | Some c =>
      if (negb (truthy candidate) || negb (isAddress lib c))%bool
      then Raise (Error routerMessage)
      else Ok c
  | None => Raise (Error routerMessage)
  end.

Definition unwrapComposerMessage : string :=
  "Missing/invalid DStockUnwrapComposer address. Use --unwrap-composer, set DSTOCK_UNWRAP_COMPOSER_ADDRESS, or configure token.bsc.unwrapComposer.".

(** [unwrapComposer] is [token.bsc.unwrapComposer]. *)
Definition resolveUnwrapComposerAddress (unwrapComposer : option string)
    (override : option string) : Result string :=
  let fromEnv :=
    orElse (env "DSTOCK_UNWRAP_COMPOSER_ADDRESS") (env "UNWRAP_COMPOSER_ADDRESS") in
  let candidate := orElse (orElse override fromEnv) unwrapComposer in
  match candidate with
  | Some c =>
      if (negb (truthy candidate) || negb (isAddress lib c))%bool
      then Raise (Error unwrapComposerMessage)
      else Ok c
  | None => Raise (Error unwrapComposerMessage)
  end.

End Utils.
End RouterUtils.

(** The environment [e] with the variable [name] unset. *)
Definition unset (name : string) (e : string -> option string) : string -> option string :=
  fun n => if String.eqb n name then None else e n.

(** ** The step executors

    A step executor reads the chain through [publicClient], signs
    through [walletClient] and may ask on the terminal.  A run threads
    the state of that outside world and the list of what it has done; it
    ends by returning, by an error, or by [process.exit]. *)

Module Exec.

Inductive Ending (A : Type) : Type :=
| Done (a : A)
| Failed (e : JsError)
| Exited (code : Z).
Arguments Done {A} _.
Arguments Failed {A} _.
Arguments Exited {A} _.

Section Monad.

Context {W Act : Type}.

Definition X (A : Type) : Type := W * list Act -> Ending A * (W * list Act).

Definition done {A : Type} (a : A) : X A := fun st => (Done a, st).

Definition fail {A : Type} (e : JsError) : X A := fun st => (Failed e, st).

Definition andThen {A B : Type} (m : X A) (f : A -> X B) : X B :=
  fun st =>
    match m st with
    | (Done a, st') => f a st'
    | (Failed e, st') => (Failed e, st')
    | (Exited code, st') => (Exited code, st')
    end.

(** [try { ... } catch { ... }] *)
Definition tryCatch {A : Type} (m : X A) (handler : X A) : X A :=
  fun st =>
    match m st with
    | (Failed _, st') => handler st'
    | other => other
    end.

Definition act (a : Act) : X unit :=
  fun st => (Done tt, (fst st, (snd st ++ [a])%list)).

(** [process.exit(code)], recorded as [a]. *)
Definition exit {A : Type} (a : Act) (code : Z) : X A :=
  fun st => (Exited code, (fst st, (snd st ++ [a])%list)).

(** A call on a client: the answer, and what the run records of it. *)
Definition perform {A : Type} (op : W -> Result A * W) (what : Result A -> Act) : X A :=
  fun st =>
    let (r, w') := op (fst st) in
    match r with
    | Ok a => (Done a, (w', (snd st ++ [what r])%list))
    | Raise e => (Failed e, (w', (snd st ++ [what r])%list))
    end.

Definition lift {A : Type} (r : Result A) : X A :=
  match r with
  | Ok a => done a
  | Raise e => fail e
  end.

(** [if (!x) throw new Error(message)], after which [x] is a string. *)
Definition orFail (x : option string) (message : string) : X string :=
  match x with
  | Some s => if truthy x then done s else fail (Error message)
  | None => fail (Error message)
  end.

End Monad.

Arguments X : clear implicits.

(** [env(name)], on the value of [process.env[name]]. *)
Definition env (v : option string) : option string :=
  match v with
  | Some s => if negb (String.eqb s "") then Some s else None
  | None => None
  end.

(** The argument of [quoteSend] and of [send], and the fee. *)
Record SendParam : Type := {
  dstEid : Z;
  to : string;
  amountLD : Z;
  minAmountLD : Z;
  extraOptions : string;
  composeMsg : string;
  oftCmd : string
}.

Record MessagingFee : Type := {
  nativeFee : Z;
  lzTokenFee : Z
}.

End Exec.

Declare Scope exec_scope.
Delimit Scope exec_scope with exec.
Notation "x <- m ;; k" := (Exec.andThen m (fun x => k))
  (at level 100, m at next level, right associativity) : exec_scope.
Notation "m ;; k" := (Exec.andThen m (fun _ => k))
  (at level 100, right associativity) : exec_scope.

(** ** [src/bscToHypeEvm.ts]: the step executor of the hop from BSC to
    HyperEVM *)

Module BscToHypeEvm.

Import Exec.

(** The clients and the terminal: the calls of [publicClient.readContract]
    by function ([token], [decimals], [approvalRequired], [allowance],
    [quoteSend]), those of [walletClient.writeContract] ([approve],
    [send]), the block number of the receipt that
    [waitForTransactionReceipt] resolves with, and [rl.question]. *)
Record Client (W : Type) : Type := {
  getChainId : W -> Result Z * W;
  readToken : string -> W -> Result string * W;
  readDecimals : string -> W -> Result Z * W;
  readApprovalRequired : string -> W -> Result bool * W;
  readAllowance : string -> string -> string -> W -> Result Z * W;
  readQuoteSend : string -> SendParam -> W -> Result MessagingFee * W;
  writeApprove : string -> string -> Z -> W -> Result string * W;
  writeSend : string -> SendParam -> MessagingFee -> string -> W -> Result string * W;
  waitForTransactionReceipt : string -> W -> Result Z * W;
  question : W -> Result string * W
}.
Arguments getChainId {W} _ _.
Arguments readToken {W} _ _ _.
Arguments readDecimals {W} _ _ _.
Arguments readApprovalRequired {W} _ _ _.
Arguments readAllowance {W} _ _ _ _ _.
Arguments readQuoteSend {W} _ _ _ _.
Arguments writeApprove {W} _ _ _ _ _.
Arguments writeSend {W} _ _ _ _ _ _.
Arguments waitForTransactionReceipt {W} _ _ _.
Arguments question {W} _ _.

(** What a run does, in order. *)
Inductive Action : Type :=
| ActGetChainId (r : Result Z)
| ActToken (oft : string) (r : Result string)
| ActDecimals (token : string) (r : Result Z)
| ActApprovalRequired (oft : string) (r : Result bool)
| ActAllowance (token owner spender : string) (r : Result Z)
| ActQuoteSend (oft : string) (p : SendParam) (r : Result MessagingFee)
| ActApprove (token spender : string) (amount : Z) (r : Result string)
| ActSend (oft : string) (p : SendParam) (fee : MessagingFee) (refund : string)
    (r : Result string)
| ActWait (hash : string) (r : Result Z)
| ActQuestion (r : Result string)
| ActSummary
| ActLog (line : string)
| ActExit (code : Z).

Section Main.

Local Open Scope exec_scope.

Context {W : Type}.
Variable client : Client W.
Variable lib : Library.
Variable padHex : string -> string.
Variable registry : list (string * TokenConfig).
Variable process : Process.

Definition toBytes32Address (addr : string) : string := padHex addr.

Definition confirmOrExit : X W Action unit :=
  let args := argv process in
  if (negb (hasFlag "--confirm" args) || hasFlag "--yes" args)%bool then done tt
  else
    act ActSummary ;;
    answer <- perform (question client) ActQuestion ;;
    let ans := JsString.trim answer in
    if negb (String.eqb ans "YES")
    then (act (ActLog "Cancelled.") ;; exit (ActExit 1) 1)
    else done tt.

Definition DEFAULT_DST_EID : Z := 30367.

Definition main : X W Action unit :=
  let args := argv process in
  rpcUrl <- orFail (env (SRC_RPC_URL process)) "Missing SRC_RPC_URL" ;;
  privateKey <- orFail (env (PRIVATE_KEY process)) "Missing PRIVATE_KEY" ;;
  let dstEid := DEFAULT_DST_EID in
  to <- orFail (match getArg "--to" args with
                | Some t => if isAddress lib t then Some t else None
                | None => None
                end)
          "Missing/invalid --to (or TO)" ;;
  amountHuman <- orFail (getArg "--amount" args)
                   "Missing --amount (human readable, e.g. 0.5)" ;;
  let minAmountHuman := amountHuman in
  account <- lift (privateKeyToAccount lib privateKey) ;;
  chainId <- perform (getChainId client) ActGetChainId ;;
  (if negb (chainId =? 56)
   then fail (Error ("sendToHyperEvm expects BSC RPC (chainId=56), got chainId="
                       ++ JsString.ofInt chainId))
   else done tt) ;;
  let tokenInput :=
    orElse (orElse (getArg "--token" args) (getArg "--oft" args))
           (getPositionalArg 0 args) in
  token <- lift (requireToken registry tokenInput) ;;
  cfg <- match token with
         | Own c => done c
         | Inherited =>
             fail (Error "Cannot read properties of undefined (reading 'adapter')")
         end ;;
  let oftAddress := adapter (bsc cfg) in
  underlying <- perform (readToken client oftAddress) (ActToken oftAddress) ;;
  decimals <- perform (readDecimals client underlying) (ActDecimals underlying) ;;
  amountLD <- lift (parseUnits lib amountHuman decimals) ;;
  minAmountLD <- lift (parseUnits lib minAmountHuman decimals) ;;
  approvalRequired <-
    tryCatch (perform (readApprovalRequired client oftAddress)
                (ActApprovalRequired oftAddress))
             (done false) ;;
  (if approvalRequired : bool
   then
     allowance <- perform (readAllowance client underlying (address account) oftAddress)
                    (ActAllowance underlying (address account) oftAddress) ;;
     if allowance <? amountLD
     then
       approveHash <- perform (writeApprove client underlying oftAddress amountLD)
                        (ActApprove underlying oftAddress amountLD) ;;
       act (ActLog ("approve tx = " ++ approveHash)) ;;
       perform (waitForTransactionReceipt client approveHash) (ActWait approveHash) ;;
       act (ActLog "approve confirmed")
     else done tt
   else done tt) ;;
  let sendParam :=
    {| dstEid := dstEid; to := toBytes32Address to;
       amountLD := amountLD; minAmountLD := minAmountLD;
       extraOptions := "0x"; composeMsg := "0x"; oftCmd := "0x" |} in
  msgFee <- perform (readQuoteSend client oftAddress sendParam)
              (ActQuoteSend oftAddress sendParam) ;;
  if hasFlag "--dry-run" args
  then (act ActSummary ;; act (ActLog "dry-run: not sending."))
  else
    confirmOrExit ;;
    hash <- perform (writeSend client oftAddress sendParam msgFee (address account))
              (ActSend oftAddress sendParam msgFee (address account)) ;;
    act (ActLog ("send tx = " ++ hash)) ;;
    blockNumber <- perform (waitForTransactionReceipt client hash) (ActWait hash) ;;
    act (ActLog ("confirmed in block " ++ JsString.ofInt blockNumber ++ "n")).

End Main.

(** What a dry run may do: read, print, and [approve]. *)
Definition dryAction (a : Action) : bool :=
  match a with
  | ActSend _ _ _ _ _ | ActQuestion _ | ActExit _ => false
  | _ => true
  end.

(** A client that answers the same at every call: the adapter asks for
    an approval, and the allowance is 0. *)
Definition fixedClient : Client unit :=
  {| getChainId := fun w => (Ok 56, w);
     readToken := fun _ w => (Ok "0xUnderlying", w);
     readDecimals := fun _ w => (Ok 18, w);
     readApprovalRequired := fun _ w => (Ok true, w);
     readAllowance := fun _ _ _ w => (Ok 0, w);
     readQuoteSend := fun _ _ w => (Ok {| nativeFee := 7; lzTokenFee := 0 |}, w);
     writeApprove := fun _ _ _ w => (Ok "0xApproveHash", w);
     writeSend := fun _ _ _ _ w => (Ok "0xSendHash", w);
     waitForTransactionReceipt := fun _ w => (Ok 1, w);
     question := fun w => (Ok "YES", w) |}.

End BscToHypeEvm.

(** A computation of an executor all of whose actions satisfy [P], and
    that does not end the process. *)
Definition only {W Act A : Type} (P : Act -> bool) (m : Exec.X W Act A) : Prop :=
  forall st, exists tr,
    snd (snd (m st)) = (snd st ++ tr)%list
    /\ forallb P tr = true
    /\ forall code, fst (m st) <> Exec.Exited code.

(** ** [src/hypeEvmToBsc.ts]: the step executor of the hop from HyperEVM
    to BSC *)

Module HypeEvmToBsc.

Import Exec.

(** The clients and the terminal: the calls of [publicClient.readContract]
    by function ([decimals], [balanceOf], [quoteSend]),
    [publicClient.getBalance], the [send] of [walletClient.writeContract],
    the block number of the receipt that [waitForTransactionReceipt]
    resolves with, and [rl.question]. *)
Record Client (W : Type) : Type := {
  getChainId : W -> Result Z * W;
  readDecimals : string -> W -> Result Z * W;
  readBalanceOf : string -> string -> W -> Result Z * W;
  getBalance : string -> W -> Result Z * W;
  readQuoteSend : string -> SendParam -> W -> Result MessagingFee * W;
  writeSend : string -> SendParam -> MessagingFee -> string -> W -> Result string * W;
  waitForTransactionReceipt : string -> W -> Result Z * W;
  question : W -> Result string * W
}.
Arguments getChainId {W} _ _.
Arguments readDecimals {W} _ _ _.
Arguments readBalanceOf {W} _ _ _ _.
Arguments getBalance {W} _ _ _.
Arguments readQuoteSend {W} _ _ _ _.
Arguments writeSend {W} _ _ _ _ _ _.
Arguments waitForTransactionReceipt {W} _ _ _.
Arguments question {W} _ _.

(** What a run does, in order. *)
Inductive Action : Type :=
| ActGetChainId (r : Result Z)
| ActDecimals (token : string) (r : Result Z)
| ActBalanceOf (token owner : string) (r : Result Z)
| ActGetBalance (owner : string) (r : Result Z)
| ActQuoteSend (oft : string) (p : SendParam) (r : Result MessagingFee)
| ActSend (oft : string) (p : SendParam) (fee : MessagingFee) (refund : string)
    (r : Result string)
| ActWait (hash : string) (r : Result Z)
| ActQuestion (r : Result string)
| ActSummary
| ActLog (line : string)
| ActExit (code : Z).

Section Main.

Local Open Scope exec_scope.

Context {W : Type}.
Variable client : Client W.
Variable lib : Library.
Variable padHex : string -> string.
Variable registry : list (string * TokenConfig).
Variable process : Process.

Definition toBytes32Address (addr : string) : string := padHex addr.

Definition BSC_DST_EID : Z := 30102.

Definition confirmOrExit : X W Action unit :=
  let args := argv process in
  if (negb (hasFlag "--confirm" args) || hasFlag "--yes" args)%bool then done tt
  else
    act ActSummary ;;
    answer <- perform (question client) ActQuestion ;;
    let ans := JsString.trim answer in
    if negb (String.eqb ans "YES")
    then (act (ActLog "Cancelled.") ;; exit (ActExit 1) 1)
    else done tt.

Definition main : X W Action unit :=
  let args := argv process in
  privateKey <- orFail (env (PRIVATE_KEY process)) "Missing PRIVATE_KEY" ;;
  to <- orFail (match getArg "--to" args with
                | Some t => if isAddress lib t then Some t else None
                | None => None
                end)
          "Missing/invalid --to (BSC destination address)" ;;
  amountHuman <- orFail (getArg "--amount" args)
                   "Missing --amount (human readable, e.g. 0.5)" ;;
  let minAmountHuman := amountHuman in
  account <- lift (privateKeyToAccount lib privateKey) ;;
  chainId <- perform (getChainId client) ActGetChainId ;;
  (if negb (chainId =? 999)
   then fail (Error ("Expected HyperEVM (chainId=999), got chainId="
                       ++ JsString.ofInt chainId))
   else done tt) ;;
  let tokenInput :=
    orElse (orElse (getArg "--token" args) (getArg "--oft" args))
           (getPositionalArg 0 args) in
  token <- lift (requireToken registry tokenInput) ;;
  cfg <- match token with
         | Own c => done c
         | Inherited =>
             fail (Error "Cannot read properties of undefined (reading 'oft')")
         end ;;
  let oftAddress := hyperEvm_oft cfg in
  decimals <- perform (readDecimals client oftAddress) (ActDecimals oftAddress) ;;
  amountLD <- lift (parseUnits lib amountHuman decimals) ;;
  minAmountLD <- lift (parseUnits lib minAmountHuman decimals) ;;
  balance <- perform (readBalanceOf client oftAddress (address account))
               (ActBalanceOf oftAddress (address account)) ;;
  (if balance <? amountLD
   then fail (Error ("Insufficient balance on HyperEVM: have " ++ JsString.ofInt balance
                       ++ " wei, want " ++ JsString.ofInt amountLD ++ " wei"))
   else done tt) ;;
  nativeBalance <- perform (getBalance client (address account))
                     (ActGetBalance (address account)) ;;
  minGasWei <- lift (parseUnits lib "0.01" 18) ;;
  (if nativeBalance <? minGasWei
   then fail (Error ("Insufficient native HYPE for gas: have "
                       ++ JsString.ofInt nativeBalance ++ " wei (< 0.01 HYPE)"))
   else done tt) ;;
  let sendParam :=
    {| dstEid := BSC_DST_EID; to := toBytes32Address to;
       amountLD := amountLD; minAmountLD := minAmountLD;
       extraOptions := "0x"; composeMsg := "0x"; oftCmd := "0x" |} in
  msgFee <- perform (readQuoteSend client oftAddress sendParam)
              (ActQuoteSend oftAddress sendParam) ;;
  if hasFlag "--dry-run" args
  then (act ActSummary ;; act (ActLog "dry-run: not sending."))
  else
    confirmOrExit ;;
    hash <- perform (writeSend client oftAddress sendParam msgFee (address account))
              (ActSend oftAddress sendParam msgFee (address account)) ;;
    act (ActLog ("send tx = " ++ hash)) ;;
    blockNumber <- perform (waitForTransactionReceipt client hash) (ActWait hash) ;;
    act (ActLog ("confirmed in block " ++ JsString.ofInt blockNumber ++ "n")) ;;
    act (ActLog (JsString.nl ++ "Successfully initiated cross-chain transfer of "
                   ++ amountHuman ++ " " ++ name cfg ++ " from HyperEVM to BSC")) ;;
    act (ActLog ("Destination: " ++ to)) ;;
    act (ActLog (JsString.nl ++ "Note: LayerZero cross-chain messages typically take a few minutes to finalize on BSC.")).

End Main.

(** The actions that leave the chain and the terminal alone. *)
Definition readOnly (a : Action) : bool :=
  match a with
  | ActSend _ _ _ _ _ | ActQuestion _ | ActExit _ => false
  | _ => true
  end.

(** A client that answers the same at every call, and a library that
    knows the amount of gas asked for. *)
Definition fixedClient (balance : Z) : Client unit :=
  {| getChainId := fun w => (Ok 999, w);
     readDecimals := fun _ w => (Ok 18, w);
     readBalanceOf := fun _ _ w => (Ok balance, w);
     getBalance := fun _ w => (Ok 20000000000000000, w);
     readQuoteSend := fun _ _ w => (Ok {| nativeFee := 7; lzTokenFee := 0 |}, w);
     writeSend := fun _ _ _ _ w => (Ok "0xSendHash", w);
     waitForTransactionReceipt := fun _ w => (Ok 1, w);
     question := fun w => (Ok " YES ", w) |}.

Definition fixedLib : Library :=
  {| number := Z;
     zero := 0;
     parseFloat := parseFloat Sim.lib;
     numberToString := JsString.ofInt;
     jsonToNumber := jsonToNumber Sim.lib;
     jsonToString := jsonToString Sim.lib;
     isAddress := fun _ => true;
     privateKeyToAccount := fun k => Ok {| address := k |};
     parseUnits := fun s d =>
       if String.eqb s "0.01" then Ok 10000000000000000 else Sim.parseInteger s;
     formatUnits := fun v _ => JsString.ofInt v |}.

End HypeEvmToBsc.

(** The stages of a run: the step executors it invokes and the
    confirmation polls it starts. *)
Inductive Stage : Type :=
| Hop (script : string) (args : list string)
| Confirm.

Definition stages (tr : list Event) : list Stage :=
  flat_map (fun ev => match ev with
                      | EvSpawn script args _ => [Hop script args]
                      | EvPollUntil _ => [Confirm]
                      | _ => []
                      end) tr.

(** The hops of a plan, each followed by a confirmation when [wet]. *)
Fixpoint confirmEach (wet : bool) (plan : list (string * list string)) : list Stage :=
  match plan with
  | [] => []
  | hop :: rest =>
      Hop (fst hop) (snd hop)
        :: (if wet then Confirm :: confirmEach wet rest else confirmEach wet rest)
  end.

(** A computation goes through the stages of a plan, in order: all of
    them when it returns, the first of them when it does not. *)
Definition paces {W A : Type} (m : M W A) (plan : list Stage) : Prop :=
  forall s, exists tr,
    trace (snd (m s)) = (trace s ++ tr)%list
    /\ match fst (m s) with
       | Ret _ => stages tr = plan
       | _ => exists rest, plan = (stages tr ++ rest)%list
       end.

(** The events that are no stage. *)
Definition between (ev : Event) : Prop := stages [ev] = [].

(** ** The step executor of the hop from HyperEVM to HyperCore (the first
    script of [src/unnamed/part_003]) *)

Module HypeEvmToHypeCore.

Import Exec.

(** The clients and the terminal: [publicClient.getChainId], the calls
    of [publicClient.readContract] by function ([decimals], [balanceOf]),
    the [transfer] of [walletClient.writeContract], the block number of
    the receipt that [waitForTransactionReceipt] resolves with, and
    [rl.question]. *)
Record Client (W : Type) : Type := {
  getChainId : W -> Result Z * W;
  readDecimals : string -> W -> Result Z * W;
  readBalanceOf : string -> string -> W -> Result Z * W;
  writeTransfer : string -> string -> Z -> W -> Result string * W;
  waitForTransactionReceipt : string -> W -> Result Z * W;
  question : W -> Result string * W
}.
Arguments getChainId {W} _ _.
Arguments readDecimals {W} _ _ _.
Arguments readBalanceOf {W} _ _ _ _.
Arguments writeTransfer {W} _ _ _ _ _.
Arguments waitForTransactionReceipt {W} _ _ _.
Arguments question {W} _ _.

(** What a run does, in order. *)
Inductive Action : Type :=
| ActGetChainId (r : Result Z)
| ActDecimals (token : string) (r : Result Z)
| ActBalanceOf (token owner : string) (r : Result Z)
| ActTransfer (token recipient : string) (amount : Z) (r : Result string)
| ActWait (hash : string) (r : Result Z)
| ActQuestion (r : Result string)
| ActSummary
| ActLog (line : string)
| ActExit (code : Z).

Section Main.

Local Open Scope exec_scope.

Context {W : Type}.
Variable client : Client W.
Variable lib : Library.
Variable registry : list (string * TokenConfig).

(** [tokenMeta.hyperCore.depositAddress], a property that a token may
    have besides those of [TokenConfig]. *)
Variable depositAddress : TokenConfig -> option string.
Variable process : Process.

(** This script asks unless [--yes] is given. *)
Definition confirmOrExit : X W Action unit :=
  let args := argv process in
  if hasFlag "--yes" args then done tt
  else
    act ActSummary ;;
    answer <- perform (question client) ActQuestion ;;
    let ans := JsString.trim answer in
    if negb (String.eqb ans "YES")
    then (act (ActLog "Cancelled.") ;; exit (ActExit 1) 1)
    else done tt.

Definition main : X W Action unit :=
  let args := argv process in
  privateKey <- orFail (env (PRIVATE_KEY process)) "Missing PRIVATE_KEY" ;;
  let tokenInput :=
    orElse (orElse (orElse (getArg "--token" args) (getArg "--asset" args))
                   (getArg "--symbol" args))
           (find (fun a => (negb (String.eqb a "") && negb (JsString.startsWith "-" a))%bool)
                 (skipn 2 args)) in
  tokenInput <- orFail tokenInput "Missing token name (e.g. CRCLd)." ;;
  amountHuman <- orFail (getArg "--amount" args)
                   "Missing --amount (human readable, e.g. 1.25)" ;;
  account <- lift (privateKeyToAccount lib privateKey) ;;
  chainId <- perform (getChainId client) ActGetChainId ;;
  (if negb (chainId =? 999)
   then fail (Error ("Unexpected chainId=" ++ JsString.ofInt chainId
                       ++ ". Expected HyperEVM chainId=999."))
   else done tt) ;;
  (if isAddress lib tokenInput
   then fail (Error "Please pass a known token name (e.g. CRCLd) so we can derive the HyperCore bridge address from tokenIndex.")
   else done tt) ;;
  tokenMeta <- lift (requireToken registry (Some tokenInput)) ;;
  cfg <- match tokenMeta with
         | Own c => done c
         | Inherited =>
             fail (Error "Cannot read properties of undefined (reading 'oft')")
         end ;;
  let tokenAddress := hyperEvm_oft cfg in
  let depositAddress :=
    match depositAddress cfg with
    | Some d => d
    | None => toAssetBridgeAddress (hyperCore_tokenIndex cfg)
    end in
  decimals <- perform (readDecimals client tokenAddress) (ActDecimals tokenAddress) ;;
  amountWei <- lift (parseUnits lib amountHuman decimals) ;;
  balance <- perform (readBalanceOf client tokenAddress (address account))
               (ActBalanceOf tokenAddress (address account)) ;;
  if hasFlag "--dry-run" args
  then (act ActSummary ;; act (ActLog "dry-run: not sending."))
  else
    confirmOrExit ;;
    (if balance <? amountWei
     then fail (Error "INSUFFICIENT_TOKEN_BALANCE_FOR_TRANSFER")
     else done tt) ;;
    hash <- perform (writeTransfer client tokenAddress depositAddress amountWei)
              (ActTransfer tokenAddress depositAddress amountWei) ;;
    act (ActLog ("tx = " ++ hash)) ;;
    blockNumber <- perform (waitForTransactionReceipt client hash) (ActWait hash) ;;
    act (ActLog ("confirmed in block " ++ JsString.ofInt blockNumber ++ "n")).

End Main.

(** The actions that leave the chain and the terminal alone. *)
Definition readOnly (a : Action) : bool :=
  match a with
  | ActTransfer _ _ _ _ | ActQuestion _ | ActExit _ => false
  | _ => true
  end.

(** A client that answers the same at every call. *)
Definition fixedClient (answer : string) : Client unit :=
  {| getChainId := fun w => (Ok 999, w);
     readDecimals := fun _ w => (Ok 18, w);
     readBalanceOf := fun _ _ w => (Ok 5, w);
     writeTransfer := fun _ _ _ w => (Ok "0xTransferHash", w);
     waitForTransactionReceipt := fun _ w => (Ok 1, w);
     question := fun w => (Ok answer, w) |}.

(** A library for which the strings that start with [0x] are the
    addresses. *)
Definition fixedLib : Library :=
  {| number := Z;
     zero := 0;
     parseFloat := parseFloat Sim.lib;
     numberToString := JsString.ofInt;
     jsonToNumber := jsonToNumber Sim.lib;
     jsonToString := jsonToString Sim.lib;
     isAddress := JsString.startsWith "0x";
     privateKeyToAccount := fun k => Ok {| address := k |};
     parseUnits := fun s _ => Sim.parseInteger s;
     formatUnits := fun v _ => JsString.ofInt v |}.

(** The command line of the executor when [flowBscToHypeCore] invokes
    it: the interpreter, the script, and the arguments of [runStep]. *)
Definition invoked (node script token amount : string) (dry : bool) (key : option string)
  : Process :=
  {| argv := (node :: script :: [token; "--amount"; amount]
                ++ (if dry then ["--dry-run"] else []))%list;
     SRC_RPC_URL := None;
     PRIVATE_KEY := key |}.

End HypeEvmToHypeCore.

(** * Properties *)

(** ** Strings *)

Lemma length_append (a b : string) :
  String.length (a ++ b) = (String.length a + String.length b)%nat.
Proof.
  induction a as [|c a IH]; simpl; [reflexivity|].
  now rewrite IH.
Qed.

Lemma length_replicate (n : nat) (c : ascii) :
  String.length (JsString.replicate n c) = n.
Proof.
  induction n as [|n IH]; simpl; [reflexivity|].
  now rewrite IH.
Qed.

Lemma append_inv_head (a b c : string) : a ++ b = a ++ c -> b = c.
Proof.
  induction a as [|x a IH]; simpl; intros H; [exact H|].
  injection H as H. now apply IH.
Qed.

Lemma hexValue_zero_digit (s : string) :
  hexValue (String "0"%char s) = hexValue s.
Proof.
  unfold hexValue. simpl.
  destruct (HexadecimalString.NilEmpty.uint_of_string s); reflexivity.
Qed.

Lemma hexValue_padding (k : nat) (s : string) :
  hexValue (JsString.replicate k "0"%char ++ s) = hexValue s.
Proof.
  induction k as [|k IH]; simpl; [reflexivity|].
  now rewrite hexValue_zero_digit.
Qed.

Lemma hexValue_string_of_uint (d : Hexadecimal.uint) :
  hexValue (HexadecimalString.NilZero.string_of_uint d) = Some (N.of_hex_uint d).
Proof.
  unfold hexValue.
  destruct d; unfold HexadecimalString.NilZero.string_of_uint;
    try (rewrite HexadecimalString.NilEmpty.usu; reflexivity).
  reflexivity.
Qed.

Lemma hexValue_toString16 (n : Z) :
  0 <= n -> hexValue (JsString.toString16 n) = Some (Z.to_N n).
Proof.
  intros Hn. unfold JsString.toString16.
  destruct (Z.ltb_spec n 0) as [Hneg|_]; [lia|].
  rewrite hexValue_string_of_uint.
  now rewrite HexadecimalN.Unsigned.of_to.
Qed.

Lemma hex_digits_of_uint (d : Hexadecimal.uint) :
  allChars isLowerHexDigit (HexadecimalString.NilEmpty.string_of_uint d) = true.
Proof.
  induction d; simpl; try assumption; reflexivity.
Qed.

Lemma hex_digits_toString16 (n : Z) :
  0 <= n -> allChars isLowerHexDigit (JsString.toString16 n) = true.
Proof.
  intros Hn. unfold JsString.toString16.
  destruct (Z.ltb_spec n 0) as [Hneg|_]; [lia|].
  destruct (N.to_hex_uint (Z.to_N n)) eqn:E;
    unfold HexadecimalString.NilZero.string_of_uint;
    try apply hex_digits_of_uint.
  reflexivity.
Qed.

(** ** [toAssetBridgeAddress] *)

Lemma Number_safe (n : Z) : Z.abs n <= MAX_SAFE_INTEGER -> Number n = n.
Proof.
  intros H. unfold Number, MAX_SAFE_INTEGER in *.
  destruct (Z.leb_spec (Z.log2 (Z.abs n) + 1) 53) as [_|Hbits]; [reflexivity|].
  exfalso.
  destruct (Z.eq_dec (Z.abs n) 0) as [E|E]; [rewrite E in Hbits; simpl in Hbits; lia|].
  assert (Z.log2 (Z.abs n) < 53); [|lia].
  apply Z.log2_lt_pow2; lia.
Qed.

Lemma of_hex_uint_acc_lower (d : Hexadecimal.uint) (acc : positive) :
  Z.pos acc * 16 ^ Z.of_nat (Hexadecimal.nb_digits d) <= Z.pos (Pos.of_hex_uint_acc d acc).
Proof.
  revert acc. induction d; intros acc; simpl Hexadecimal.nb_digits;
    try (simpl Pos.of_hex_uint_acc; etransitivity; [|apply IHd];
         rewrite Nat2Z.inj_succ, Z.pow_succ_r by lia;
         assert (0 < 16 ^ Z.of_nat (Hexadecimal.nb_digits d)) by (apply Z.pow_pos_nonneg; lia);
         nia).
  simpl. lia.
Qed.

Lemma length_string_of_uint (d : Hexadecimal.uint) :
  String.length (HexadecimalString.NilEmpty.string_of_uint d) = Hexadecimal.nb_digits d.
Proof. induction d; simpl; congruence. Qed.

Lemma of_hex_uint_lower (d : Hexadecimal.uint) :
  Hexadecimal.unorm d = d -> d <> Hexadecimal.zero ->
  16 ^ (Z.of_nat (Hexadecimal.nb_digits d) - 1) <= Z.of_N (N.of_hex_uint d).
Proof.
  intros Hnorm Hnz.
  assert (Hlead : forall l acc,
            16 ^ Z.of_nat (Hexadecimal.nb_digits l) <= Z.pos (Pos.of_hex_uint_acc l acc)).
  { intros l acc. etransitivity; [|apply of_hex_uint_acc_lower].
    assert (0 < 16 ^ Z.of_nat (Hexadecimal.nb_digits l)) by (apply Z.pow_pos_nonneg; lia).
    nia. }
  destruct d;
    try (simpl Hexadecimal.nb_digits; rewrite Nat2Z.inj_succ;
         replace (Z.succ (Z.of_nat (Hexadecimal.nb_digits d)) - 1)
           with (Z.of_nat (Hexadecimal.nb_digits d)) by lia;
         apply Hlead).
  - discriminate Hnorm.
  - exfalso. unfold Hexadecimal.unorm in Hnorm. simpl Hexadecimal.nzhead in Hnorm.
    pose proof (HexadecimalFacts.nb_digits_nzhead d) as Hle.
    destruct (Hexadecimal.nzhead d) eqn:E; try (rewrite Hnorm in Hle; simpl in Hle; lia).
    now apply Hnz.
Qed.

Lemma length_toString16 (n k : Z) :
  0 <= n < 16 ^ k -> 1 <= k -> (Z.of_nat (String.length (JsString.toString16 n)) <= k).
Proof.
  intros Hn Hk. unfold JsString.toString16.
  destruct (Z.ltb_spec n 0) as [Hneg|_]; [lia|].
  set (d := N.to_hex_uint (Z.to_N n)).
  assert (Hof : N.of_hex_uint d = Z.to_N n) by apply HexadecimalN.Unsigned.of_to.
  assert (Hnorm : Hexadecimal.unorm d = d).
  { rewrite <- (HexadecimalN.Unsigned.to_of d), Hof. reflexivity. }
  destruct (Hexadecimal.uint_eq_dec d Hexadecimal.zero) as [Hz|Hnz].
  - rewrite Hz. simpl. lia.
  - pose proof (of_hex_uint_lower d Hnorm Hnz) as Hlow.
    rewrite Hof, Z2N.id in Hlow by lia.
    assert (Hlen : String.length (HexadecimalString.NilZero.string_of_uint d)
                   = Hexadecimal.nb_digits d).
    { destruct d; try apply length_string_of_uint. discriminate Hnorm. }
    rewrite Hlen.
    destruct (Z_le_gt_dec (Z.of_nat (Hexadecimal.nb_digits d)) k) as [Hle|Hgt]; [exact Hle|].
    exfalso.
    assert (16 ^ k <= 16 ^ (Z.of_nat (Hexadecimal.nb_digits d) - 1))
      by (apply Z.pow_le_mono_r; lia).
    lia.
Qed.

Lemma safe_index_digits (n : Z) :
  0 <= n <= MAX_SAFE_INTEGER -> (String.length (JsString.toString16 n) <= 14)%nat.
Proof.
  intros Hn. pose proof (length_toString16 n 14) as H.
  unfold MAX_SAFE_INTEGER in Hn.
  assert (2 ^ 53 - 1 < 16 ^ 14) by reflexivity.
  lia.
Qed.

(** Two indices that are one number have one address, so the rule does
    not hold of every index of at most 39 digits: [2^53 + 1] is the number
    [2^53]. *)
Lemma bridge_address_on_39_digits_fails : ~ bridge_address_on_39_digits.
Proof.
  intros H.
  destruct (H (2 ^ 53 + 1)) as [Hdigits _]; [lia|vm_compute; lia|].
  vm_compute in Hdigits. discriminate Hdigits.
Qed.

(** C10. For a token index that is a non-negative safe integer (at most
    [2^53 - 1], which has at most 14 hexadecimal digits),
    [toAssetBridgeAddress] is the 42-character string made of ["0x2"] and
    of the lowercase hexadecimal digits of the index, padded with zeros on
    the left to 39 digits; two indices of that domain with the same
    address are equal. *)
Theorem toAssetBridgeAddress_correct (tokenIndex : Z) :
  0 <= tokenIndex <= MAX_SAFE_INTEGER ->
  let digits := JsString.toString16 tokenIndex in
  toAssetBridgeAddress tokenIndex
    = "0x2" ++ JsString.replicate (39 - String.length digits) "0"%char ++ digits
  /\ (String.length digits <= 39)%nat
  /\ String.length (toAssetBridgeAddress tokenIndex) = 42%nat
  /\ allChars isLowerHexDigit digits = true
  /\ hexValue digits = Some (Z.to_N tokenIndex)
  /\ (forall other : Z,
        0 <= other <= MAX_SAFE_INTEGER ->
        toAssetBridgeAddress other = toAssetBridgeAddress tokenIndex ->
        other = tokenIndex).
Proof.
  intros Hsafe digits.
  assert (Hshape : forall n, 0 <= n <= MAX_SAFE_INTEGER -> toAssetBridgeAddress n
            = "0x2" ++ JsString.replicate (39 - String.length (JsString.toString16 n)) "0"%char
                ++ JsString.toString16 n).
  { intros n Hn. unfold toAssetBridgeAddress. rewrite Number_safe by lia. reflexivity. }
  pose proof (safe_index_digits tokenIndex Hsafe) as Hlen. fold digits in Hlen.
  split; [|split; [|split; [|split; [|split]]]].
  - now apply Hshape.
  - lia.
  - rewrite Hshape, !length_append, length_replicate by assumption. fold digits.
    simpl String.length. lia.
  - apply hex_digits_toString16. lia.
  - apply hexValue_toString16. lia.
  - intros other Hother Heq.
    rewrite !Hshape in Heq by assumption. apply append_inv_head in Heq.
    apply (f_equal hexValue) in Heq.
    rewrite !hexValue_padding, !hexValue_toString16 in Heq by lia.
    injection Heq as Heq. apply Z2N.inj in Heq; lia.
Qed.

Lemma toAssetBridgeAddress_correct_witness :
  toAssetBridgeAddress 409 = "0x2000000000000000000000000000000000000199"
  /\ String.length (toAssetBridgeAddress 409) = 42%nat.
Proof.
  destruct (toAssetBridgeAddress_correct 409) as (H1 & _ & H2 & _).
  - unfold MAX_SAFE_INTEGER. lia.
  - split; [exact H1 | exact H2].
Defined.

(** ** The confirmation predicates *)

Lemma anyIncrease_spec (before bal : Z) :
  anyIncrease before bal = true <-> before < bal.
Proof. unfold anyIncrease. rewrite Z.gtb_lt. tauto. Qed.

Lemma atLeast_spec (expectedAtLeast bal : Z) :
  atLeast expectedAtLeast bal = true <-> expectedAtLeast <= bal.
Proof. unfold atLeast. rewrite Z.geb_le. tauto. Qed.

Lemma minExpected_floor (coreAmountWei : Z) :
  0 <= coreAmountWei -> minExpected coreAmountWei = coreAmountWei * 999 / 1000.
Proof.
  intros H. unfold minExpected. apply Z.quot_div_nonneg; lia.
Qed.

(** C4. For a non-negative expected amount the predicate of the hop into
    the core ledger accepts [b] exactly when
    [b >= before + floor(expectedDelta * 999 / 1000)]; with [before = 0]
    and [expectedDelta = 1000] it accepts 999 and rejects 998. *)
Theorem withinTolerance_correct (before expectedDelta b : Z) :
  0 <= expectedDelta ->
  (withinTolerance before expectedDelta b = true
     <-> before + expectedDelta * 999 / 1000 <= b)
  /\ withinTolerance 0 1000 999 = true
  /\ withinTolerance 0 1000 998 = false.
Proof.
  intros H. split; [|split; reflexivity].
  unfold withinTolerance. rewrite Z.geb_le, minExpected_floor by assumption.
  tauto.
Qed.

Lemma withinTolerance_correct_witness :
  withinTolerance 100 1000 1099 = true <-> 100 + 1000 * 999 / 1000 <= 1099.
Proof.
  apply (withinTolerance_correct 100 1000 1099). lia.
Defined.

(** ** [pollUntil] *)

Section Poller.

Context {W T : Type}.
Variable host : Host W.
Variable label : string.
Variable read : M W T.
Variable ok : T -> bool.
Variables timeout interval started : Z.

Local Abbreviation loop fuel := (pollLoop host fuel label read ok timeout interval started).
Local Abbreviation Polls := (Polls host label read ok timeout interval started).

(** What one turn of the loop does, by the outcome of its read. *)
Lemma pollLoop_satisfied fuel s v s1 :
  read s = (Ret v, s1) -> ok v = true ->
  loop (S fuel) s = (Ret v, s1).
Proof.
  intros Hr Hok. simpl. unfold bind. now rewrite Hr, Hok.
Qed.

Lemma pollLoop_read_throws fuel s e s1 :
  read s = (Throw e, s1) ->
  loop (S fuel) s = (Throw e, s1).
Proof.
  intros Hr. simpl. unfold bind. now rewrite Hr.
Qed.

Lemma pollLoop_timeout fuel s v s1 :
  read s = (Ret v, s1) -> ok v = false ->
  timeout < clock host (world s1) - started ->
  loop (S fuel) s
    = (Throw (Error (timeoutMessage label)),
       record (EvThrow (Error (timeoutMessage label))) s1).
Proof.
  intros Hr Hok Ht. simpl. unfold bind, dateNow. rewrite Hr, Hok.
  destruct (Z.gtb_spec (clock host (world s1) - started) timeout); [reflexivity|lia].
Qed.

Lemma pollLoop_again fuel s v s1 :
  read s = (Ret v, s1) -> ok v = false ->
  clock host (world s1) - started <= timeout ->
  loop (S fuel) s = loop fuel (snd (sleep host interval s1)).
Proof.
  intros Hr Hok Ht. simpl. unfold bind, dateNow. rewrite Hr, Hok.
  destruct (Z.gtb_spec (clock host (world s1) - started) timeout); [lia|reflexivity].
Qed.

Lemma pollLoop_read_pending fuel s s1 :
  read s = (Pending, s1) -> loop (S fuel) s = (Pending, s1).
Proof.
  intros Hr. simpl. unfold bind. now rewrite Hr.
Qed.

Lemma pollLoop_cases s :
  (exists v s1, read s = (Ret v, s1) /\ ok v = true) \/
  (exists e s1, read s = (Throw e, s1)) \/
  (exists s1, read s = (Pending, s1)) \/
  (exists v s1, read s = (Ret v, s1) /\ ok v = false
                /\ timeout < clock host (world s1) - started) \/
  (exists v s1, read s = (Ret v, s1) /\ ok v = false
                /\ clock host (world s1) - started <= timeout).
Proof.
  destruct (read s) as [[v|e|] s1] eqn:Hr.
  - destruct (ok v) eqn:Hok; [left; eauto|].
    destruct (Z.lt_ge_cases timeout (clock host (world s1) - started)).
    + right; right; right; left. eauto.
    + right; right; right; right. eauto.
  - right; left. eauto.
  - right; right; left. eauto.
Qed.

(** A run that has ended is a run the text describes. *)
Lemma pollLoop_sound fuel : forall s o s',
  loop fuel s = (o, s') -> o <> Pending -> Polls s o s'.
Proof.
  induction fuel as [|fuel IH]; intros s o s' Hrun Hnp.
  - simpl in Hrun. injection Hrun as <- <-. congruence.
  - destruct (pollLoop_cases s)
      as [(v & s1 & Hr & Hok)|[(e & s1 & Hr)|[(s1 & Hr)|
          [(v & s1 & Hr & Hok & Ht)|(v & s1 & Hr & Hok & Ht)]]]].
    + rewrite (pollLoop_satisfied _ _ _ _ Hr Hok) in Hrun.
      injection Hrun as <- <-. now apply Polls_satisfied.
    + rewrite (pollLoop_read_throws _ _ _ _ Hr) in Hrun.
      injection Hrun as <- <-. now apply Polls_read_throws.
    + rewrite (pollLoop_read_pending _ _ _ Hr) in Hrun.
      injection Hrun as <- <-. congruence.
    + rewrite (pollLoop_timeout _ _ _ _ Hr Hok Ht) in Hrun.
      injection Hrun as <- <-. now apply Polls_timeout with (v := v).
    + rewrite (pollLoop_again _ _ _ _ Hr Hok Ht) in Hrun.
      apply Polls_again with (v := v) (s1 := s1); auto.
Qed.

(** More fuel does not change a run that has ended. *)
Lemma pollLoop_more_fuel fuel k : forall s o s',
  loop fuel s = (o, s') -> o <> Pending -> loop (fuel + k) s = (o, s').
Proof.
  induction fuel as [|fuel IH]; intros s o s' Hrun Hnp.
  - simpl in Hrun. injection Hrun as <- <-. congruence.
  - change (S fuel + k)%nat with (S (fuel + k)).
    destruct (pollLoop_cases s)
      as [(v & s1 & Hr & Hok)|[(e & s1 & Hr)|[(s1 & Hr)|
          [(v & s1 & Hr & Hok & Ht)|(v & s1 & Hr & Hok & Ht)]]]].
    + rewrite (pollLoop_satisfied fuel _ _ _ Hr Hok) in Hrun.
      now rewrite (pollLoop_satisfied (fuel + k) _ _ _ Hr Hok).
    + rewrite (pollLoop_read_throws fuel _ _ _ Hr) in Hrun.
      now rewrite (pollLoop_read_throws (fuel + k) _ _ _ Hr).
    + rewrite (pollLoop_read_pending fuel _ _ Hr) in Hrun.
      now rewrite (pollLoop_read_pending (fuel + k) _ _ Hr).
    + rewrite (pollLoop_timeout fuel _ _ _ Hr Hok Ht) in Hrun.
      now rewrite (pollLoop_timeout (fuel + k) _ _ _ Hr Hok Ht).
    + rewrite (pollLoop_again fuel _ _ _ Hr Hok Ht) in Hrun.
      rewrite (pollLoop_again (fuel + k) _ _ _ Hr Hok Ht). now apply IH.
Qed.

(** A satisfying value is all the loop ever returns. *)
Lemma Polls_returns_satisfying s o s' :
  Polls s o s' -> forall v, o = Ret v -> ok v = true.
Proof.
  induction 1; intros w Hw; try congruence; auto.
Qed.

(** *** Termination, on a host whose timers take their time *)

Hypothesis timely : Timely host.
Hypothesis steady : Steady host read.
Hypothesis ends : Ends read.
Hypothesis interval_pos : 0 < interval.

Lemma pollLoop_ends fuel : forall s,
  timeout - (clock host (world s) - started) < Z.of_nat fuel * interval ->
  fst (loop (S fuel) s) <> Pending.
Proof.
  induction fuel as [|fuel IH]; intros s Hbudget.
  - destruct (pollLoop_cases s)
      as [(v & s1 & Hr & Hok)|[(e & s1 & Hr)|[(s1 & Hr)|
          [(v & s1 & Hr & Hok & Ht)|(v & s1 & Hr & Hok & Ht)]]]].
    + rewrite (pollLoop_satisfied _ _ _ _ Hr Hok). discriminate.
    + rewrite (pollLoop_read_throws _ _ _ _ Hr). discriminate.
    + specialize (ends s). rewrite Hr in ends. now contradiction ends.
    + rewrite (pollLoop_timeout _ _ _ _ Hr Hok Ht). discriminate.
    + specialize (steady s). rewrite Hr in steady. simpl in steady. lia.
  - destruct (pollLoop_cases s)
      as [(v & s1 & Hr & Hok)|[(e & s1 & Hr)|[(s1 & Hr)|
          [(v & s1 & Hr & Hok & Ht)|(v & s1 & Hr & Hok & Ht)]]]].
    + rewrite (pollLoop_satisfied _ _ _ _ Hr Hok). discriminate.
    + rewrite (pollLoop_read_throws _ _ _ _ Hr). discriminate.
    + specialize (ends s). rewrite Hr in ends. now contradiction ends.
    + rewrite (pollLoop_timeout _ _ _ _ Hr Hok Ht). discriminate.
    + rewrite (pollLoop_again _ _ _ _ Hr Hok Ht). apply IH.
      specialize (steady s). rewrite Hr in steady. simpl in steady.
      simpl. specialize (timely interval (world s1)). lia.
Qed.

End Poller.

Section PollUntil.

Context {W T : Type}.
Variable host : Host W.
Variable label : string.
Variable read : M W T.
Variable ok : T -> bool.
Variable opts : option PollOpts.

Lemma pollUntil_unfold fuel s :
  pollUntil host fuel label read ok opts s
    = pollLoop host fuel label read ok (timeoutOf opts) (intervalOf opts)
        (clock host (world s)) (record (EvPollUntil label) s).
Proof. reflexivity. Qed.

Lemma pollUntil_more_fuel fuel k s o s' :
  pollUntil host fuel label read ok opts s = (o, s') -> o <> Pending ->
  pollUntil host (fuel + k) label read ok opts s = (o, s').
Proof.
  rewrite !pollUntil_unfold. apply pollLoop_more_fuel.
Qed.

Lemma pollFuel_enough :
  0 < intervalOf opts ->
  timeoutOf opts < Z.of_nat (S (Z.to_nat (timeoutOf opts / intervalOf opts))) * intervalOf opts.
Proof.
  intros Hi.
  destruct (Z.lt_ge_cases (timeoutOf opts) 0) as [Hneg|Hpos].
  - assert (0 < Z.of_nat (S (Z.to_nat (timeoutOf opts / intervalOf opts)))) by lia. nia.
  - rewrite Nat2Z.inj_succ, Z2Nat.id by (apply Z.div_pos; lia).
    pose proof (Z.mod_pos_bound (timeoutOf opts) (intervalOf opts) Hi).
    pose proof (Z.div_mod (timeoutOf opts) (intervalOf opts)). nia.
Qed.

Lemma Polls_throw_cause started s o s' :
  Polls host label read ok (timeoutOf opts) (intervalOf opts) started s o s' ->
  forall e, o = Throw e ->
    (e = Error (timeoutMessage label)
       /\ timeoutOf opts < clock host (world s') - started)
    \/ (exists s0, read s0 = (Throw e, s')).
Proof.
  induction 1; intros e' He'; try discriminate; auto.
  - injection He' as <-. right. eauto.
  - injection He' as <-. left. split; [reflexivity|assumption].
Qed.

End PollUntil.

(** C3 (amended). On a host whose timers take their time, with a read
    that ends and an interval that is positive, [pollUntil] ends: it reads;
    it returns the value when the predicate holds; otherwise, when more
    than the timeout has passed, it throws [Error("Timeout waiting for: "
    + label)], whose message holds the label and nothing else; otherwise
    it sleeps the interval and starts over.  It never returns a value
    that does not satisfy the predicate, and an exception that is not the
    timeout is one the read has thrown. *)
Theorem pollUntil_verdict {W T : Type} (host : Host W) (label : string)
    (read : M W T) (ok : T -> bool) (opts : option PollOpts) :
  Timely host -> Steady host read -> Ends read -> 0 < intervalOf opts ->
  forall (k : nat) (s : State W),
    let r := pollUntil host (pollFuel opts + k) label read ok opts s in
    Polls host label read ok (timeoutOf opts) (intervalOf opts)
      (clock host (world s)) (record (EvPollUntil label) s) (fst r) (snd r)
    /\ fst r <> Pending
    /\ (forall v, fst r = Ret v -> ok v = true)
    /\ (forall e, fst r = Throw e ->
          (e = Error (timeoutMessage label)
             /\ timeoutOf opts < clock host (world (snd r)) - clock host (world s))
          \/ (exists s0, read s0 = (Throw e, snd r))).
Proof.
  intros Htimely Hsteady Hends Hpos k s r.
  assert (Hnp : fst r <> Pending).
  { subst r. destruct (pollUntil host (pollFuel opts) label read ok opts s) as [o s'] eqn:Hrun.
    assert (Ho : o <> Pending).
    { replace o with (fst (pollUntil host (pollFuel opts) label read ok opts s))
        by now rewrite Hrun.
      rewrite pollUntil_unfold. unfold pollFuel.
      apply pollLoop_ends; try assumption.
      simpl clock. pose proof (pollFuel_enough opts Hpos).
      change (world (record (EvPollUntil label) s)) with (world s). lia. }
    rewrite (pollUntil_more_fuel host label read ok opts _ k _ _ _ Hrun Ho). exact Ho. }
  assert (HP : Polls host label read ok (timeoutOf opts) (intervalOf opts)
                 (clock host (world s)) (record (EvPollUntil label) s) (fst r) (snd r)).
  { apply pollLoop_sound with (fuel := (pollFuel opts + k)%nat); [|exact Hnp].
    subst r. rewrite pollUntil_unfold. now destruct (pollLoop _ _ _ _ _ _ _ _ _). }
  split; [exact HP|]. split; [exact Hnp|]. split.
  - intros v Hv. eapply Polls_returns_satisfying; eauto.
  - intros e He. eapply Polls_throw_cause; eauto.
Qed.

(** *** The scripted host is a host of that kind *)

Lemma Sim_timely : Timely Sim.host.
Proof. intros ms w. simpl. lia. Qed.

Lemma readContractM_ends {W : Type} (host : Host W) c contract fn :
  Ends (readContractM host c contract fn).
Proof.
  intros s. unfold readContractM.
  destruct (readContract host c contract fn (world s)) as [[v|e] w']; simpl; discriminate.
Qed.

Lemma Sim_read_steady c contract fn :
  Steady Sim.host (readContractM Sim.host c contract fn).
Proof.
  intros s. unfold readContractM. simpl readContract.
  destruct (hd (Sim.idle (world s)) (Sim.answers (world s))); simpl; lia.
Qed.

Lemma pollUntil_verdict_witness :
  fst (pollUntil Sim.host (pollFuel shortPoll + 0) "credit"
         (readContractM Sim.host BscChain "0xToken" (BalanceOf "0xOwner"))
         (atLeast 150) shortPoll (initial (Sim.quiet [] 140)))
    <> Pending.
Proof.
  apply (pollUntil_verdict Sim.host "credit"
           (readContractM Sim.host BscChain "0xToken" (BalanceOf "0xOwner"))
           (atLeast 150) shortPoll).
  - apply Sim_timely.
  - apply Sim_read_steady.
  - apply readContractM_ends.
  - vm_compute. reflexivity.
Defined.

(** C3, as stated, fails: two runs that time out after reading different
    values raise the same error, so the error tells neither the value
    last read nor (the same way) the time that has passed. *)
Lemma timeout_error_carries_run_fails : ~ timeout_error_carries_run.
Proof.
  intros (elapsedOf & lastOf & H).
  assert (R : forall plateau : Z, plateau = 140 \/ plateau = 141 ->
            exists s',
              pollUntil Sim.host 5 "credit"
                (readContractM Sim.host BscChain "0xToken" (BalanceOf "0xOwner"))
                (atLeast 150) shortPoll (initial (Sim.quiet [] plateau))
              = (Throw (Error (timeoutMessage "credit")), s')
              /\ last (contractReads (trace s')) (Ok 0) = Ok plateau).
  { pose (final := fun plateau : Z =>
              snd (pollUntil Sim.host 5 "credit"
                     (readContractM Sim.host BscChain "0xToken" (BalanceOf "0xOwner"))
                     (atLeast 150) shortPoll (initial (Sim.quiet [] plateau)))).
    intros plateau [-> | ->];
      [exists (final 140) | exists (final 141)]; split; vm_compute; reflexivity. }
  destruct (R 140 (or_introl eq_refl)) as (s1 & E1 & L1).
  destruct (R 141 (or_intror eq_refl)) as (s2 & E2 & L2).
  destruct (H _ _ _ _ _ _ E1) as [H1 _].
  destruct (H _ _ _ _ _ _ E2) as [H2 _].
  rewrite L1 in H1. rewrite L2 in H2. congruence.
Qed.

Lemma pollUntil_keeps_result {W T : Type} (host : Host W) (label : string)
    (read : M W T) (accept : T -> bool) (opts : option PollOpts)
    (fuel k : nat) (s : State W) :
  fst (pollUntil host fuel label read accept opts s) <> Pending ->
  pollUntil host (fuel + k) label read accept opts s
  = pollUntil host fuel label read accept opts s.
Proof.
  destruct (pollUntil host fuel label read accept opts s) as [o s'] eqn:Hrun.
  intros Hnp. now apply pollUntil_more_fuel.
Qed.

(** C8. [pollUntil] reads at once, and a first value that satisfies the
    predicate is returned as soon as it is read: the state is the one the
    read has left, with no sleep.  So it is for the first hop of
    [flowBscToHypeCore]: a balance above the snapshot taken before the hop
    confirms the hop on the first read. *)
Theorem pollUntil_first_read {W T : Type} (host : Host W) (label : string)
    (read : M W T) (ok : T -> bool) (opts : option PollOpts)
    (fuel : nat) (s : State W) :
  (forall v s1,
     read (record (EvPollUntil label) s) = (Ret v, s1) -> ok v = true ->
     pollUntil host (S fuel) label read ok opts s = (Ret v, s1))
  /\ (forall c contract owner before bal w',
        readContract host c contract (BalanceOf owner) (world s) = (Ok bal, w') ->
        before < bal ->
        pollUntil host (S fuel) label
          (readContractM host c contract (BalanceOf owner)) (anyIncrease before) opts s
        = (Ret bal,
           {| world := w'; frame := frame s;
              trace := trace s ++ [EvPollUntil label;
                                   EvReadContract c contract (BalanceOf owner) (Ok bal)] |})).
Proof.
  assert (Hgen : forall (rd : M W T) v s1,
     rd (record (EvPollUntil label) s) = (Ret v, s1) -> ok v = true ->
     pollUntil host (S fuel) label rd ok opts s = (Ret v, s1)).
  { intros rd v s1 Hr Hok. rewrite pollUntil_unfold.
    now apply pollLoop_satisfied. }
  split; [apply Hgen|].
  intros c contract owner before bal w' Hr Hlt.
  rewrite pollUntil_unfold.
  apply pollLoop_satisfied.
  - unfold readContractM. simpl world. rewrite Hr. simpl.
    unfold ret, record. simpl. now rewrite <- app_assoc.
  - now apply anyIncrease_spec.
Qed.

Lemma pollUntil_first_read_witness :
  pollUntil Sim.host 1 "wrapper balance increase after wrap"
    (readContractM Sim.host BscChain "0xWrapper" (BalanceOf "0xOwner"))
    (anyIncrease 0) None (initial (Sim.quiet [7] 7))
  = (Ret 7,
     {| world := {| Sim.now := 1000; Sim.latency := 0; Sim.answers := [];
                    Sim.idle := Ok 7; Sim.exits := []; Sim.infos := [] |};
        frame := {| lastPrintedAt := 0; lastSeen := 0 |};
        trace := [EvPollUntil "wrapper balance increase after wrap";
                  EvReadContract BscChain "0xWrapper" (BalanceOf "0xOwner") (Ok 7)] |}).
Proof.
  apply (proj2 (pollUntil_first_read (T := Z) Sim.host "wrapper balance increase after wrap"
                  (ret 0) (fun _ => true) None 0 (initial (Sim.quiet [7] 7)))
           BscChain "0xWrapper" "0xOwner" 0 7).
  - reflexivity.
  - lia.
Defined.

(** C9. An exception of the read is the outcome of [pollUntil], at the
    turn at which it is thrown and whatever the clock says: the state is
    the one the failed read has left (no sleep, no other read).  The
    read of the core ledger throws on a status that is not OK, and the
    read of a contract throws when the RPC call fails. *)
Theorem pollUntil_read_error {W T : Type} (host : Host W) (label : string)
    (read : M W T) (accept : T -> bool) (opts : option PollOpts)
    (fuel : nat) (s : State W) :
  (forall e s1 timeout interval started,
     read s = (Throw e, s1) ->
     pollLoop host (S fuel) label read accept timeout interval started s = (Throw e, s1))
  /\ (forall e s1,
        read (record (EvPollUntil label) s) = (Throw e, s1) ->
        pollUntil host (S fuel) label read accept opts s = (Throw e, s1))
  /\ (forall lib user tokenIndex tokenDecimals res w',
        fetchInfo host user (world s) = (FetchResponds res, w') ->
        ok res = false ->
        exists e s1,
          e = Error ("HyperCore API error: " ++ JsString.ofInt (status res)
                       ++ " " ++ statusText res)
          /\ FlowBscToHypeCore.readCoreSpot host lib user tokenIndex tokenDecimals s
             = (Throw e, s1)
          /\ trace s1 = (trace s ++ [EvFetch user (FetchResponds res); EvThrow e])%list)
  /\ (forall c contract fn e w',
        readContract host c contract fn (world s) = (Raise e, w') ->
        readContractM host c contract fn s
        = (Throw e,
           {| world := w'; frame := frame s;
              trace := trace s ++ [EvReadContract c contract fn (Raise e); EvThrow e] |})).
Proof.
  split; [|split; [|split]].
  - intros e s1 timeout interval started Hr. now apply pollLoop_read_throws.
  - intros e s1 Hr. rewrite pollUntil_unfold. now apply pollLoop_read_throws.
  - intros lib user tokenIndex tokenDecimals res w' Hf Hok.
    eexists. eexists. split; [reflexivity|].
    unfold FlowBscToHypeCore.readCoreSpot, fetchHyperCoreSpotTotal, bind, fetchM.
    rewrite Hf. simpl. rewrite Hok. simpl. split; [reflexivity|].
    simpl. now rewrite <- app_assoc.
  - intros c contract fn e w' Hr. unfold readContractM. rewrite Hr. simpl.
    unfold throw, record. simpl. now rewrite <- app_assoc.
Qed.

Lemma pollUntil_read_error_witness :
  pollUntil Sim.host 3 "credit"
    (readContractM Sim.host BscChain "0xToken" (BalanceOf "0xOwner"))
    (atLeast 150) None
    (initial {| Sim.now := 0; Sim.latency := 5;
                Sim.answers := [Raise (Error "HTTP request failed")];
                Sim.idle := Ok 200; Sim.exits := []; Sim.infos := [] |})
  = (Throw (Error "HTTP request failed"),
     {| world := {| Sim.now := 5; Sim.latency := 5; Sim.answers := [];
                    Sim.idle := Ok 200; Sim.exits := []; Sim.infos := [] |};
        frame := {| lastPrintedAt := 0; lastSeen := 0 |};
        trace := [EvPollUntil "credit";
                  EvReadContract BscChain "0xToken" (BalanceOf "0xOwner")
                    (Raise (Error "HTTP request failed"));
                  EvThrow (Error "HTTP request failed")] |}).
Proof.
  apply (proj1 (proj2 (pollUntil_read_error Sim.host "credit"
                         (readContractM Sim.host BscChain "0xToken" (BalanceOf "0xOwner"))
                         (atLeast 150) None 2 _))).
  reflexivity.
Defined.

(** C5. The at-least predicate accepts [b] exactly when
    [b >= before + expectedDelta].  With 100 before and 50 expected, the
    samples 100, 100, 130, 151 are accepted at the fourth sample and not
    before: the poll returns 151 after four reads and three sleeps.  A
    balance that stays at 140 is never accepted and the poll times out. *)
Theorem atLeast_samples :
  (forall before expectedDelta b : Z,
     atLeast (before + expectedDelta) b = true <-> before + expectedDelta <= b)
  /\ map (atLeast (100 + 50)) [100; 100; 130; 151] = [false; false; false; true]
  /\ (forall k : nat,
        let r := creditPoll (4 + k) (Sim.quiet [100; 100; 130; 151] 151) in
        fst r = Ret 151
        /\ contractReads (trace (snd r)) = [Ok 100; Ok 100; Ok 130; Ok 151]
        /\ sleeps (trace (snd r)) = [2000; 2000; 2000])
  /\ (forall (fuel : nat) (v : Z), fst (creditPoll fuel (Sim.quiet [] 140)) <> Ret v)
  /\ (forall k : nat,
        fst (creditPoll (152 + k) (Sim.quiet [] 140))
        = Throw (Error "Timeout waiting for: HyperEVM token balance credited from HyperCore")).
Proof.
  assert (Hplateau : forall k : nat,
            fst (creditPoll (152 + k) (Sim.quiet [] 140))
            = Throw (Error "Timeout waiting for: HyperEVM token balance credited from HyperCore")).
  { intros k. unfold creditPoll.
    rewrite pollUntil_keeps_result by (vm_compute; discriminate).
    vm_compute. reflexivity. }
  split; [intros; apply atLeast_spec|].
  split; [reflexivity|].
  split; [|split; [|exact Hplateau]].
  - intros k. unfold creditPoll. cbv zeta.
    rewrite pollUntil_keeps_result by (vm_compute; discriminate).
    vm_compute. repeat split; reflexivity.
  - intros fuel v Hv.
    specialize (Hplateau fuel). rewrite Nat.add_comm in Hplateau.
    unfold creditPoll in Hv, Hplateau.
    rewrite pollUntil_keeps_result in Hplateau by (rewrite Hv; discriminate).
    congruence.
Qed.

(** ** The observer of the core ledger *)

(** C7, as stated, fails: a request that fails raises an error, and no
    status has been received. *)
Lemma only_bad_status_raises_fails : ~ only_bad_status_raises.
Proof.
  intros H.
  destruct (H offline "0xOwner" 409 (Error "fetch failed")
              (snd (fetchHyperCoreSpotTotal Sim.host Sim.lib "0xOwner" 409 (initial offline))))
    as (res & w' & Hf & _).
  - vm_compute. reflexivity.
  - vm_compute in Hf. discriminate.
Qed.

Lemma findEntry_none (lib : Library) (tokenIndex : Z) (items : list Json) :
  Forall (fun b => isEntryOf lib tokenIndex b = Ok false) items ->
  findEntry lib tokenIndex items = Ok None.
Proof.
  induction 1 as [|b items Hb _ IH]; simpl; [reflexivity|].
  now rewrite Hb.
Qed.

Lemma findEntry_first (lib : Library) (tokenIndex : Z) (pre post : list Json) (b : Json) :
  findEntry lib tokenIndex pre = Ok None ->
  isEntryOf lib tokenIndex b = Ok true ->
  findEntry lib tokenIndex (pre ++ b :: post) = Ok (Some b).
Proof.
  intros Hpre Hb. induction pre as [|x pre IH]; simpl in *.
  - now rewrite Hb.
  - destruct (isEntryOf lib tokenIndex x) as [[|]|e]; try discriminate. now apply IH.
Qed.

Lemma findEntry_found (lib : Library) (tokenIndex : Z) (items : list Json) (b : Json) :
  findEntry lib tokenIndex items = Ok (Some b) ->
  exists pre post,
    items = (pre ++ b :: post)%list
    /\ Forall (fun x => isEntryOf lib tokenIndex x = Ok false) pre
    /\ isEntryOf lib tokenIndex b = Ok true.
Proof.
  induction items as [|x items IH]; simpl; [discriminate|].
  destruct (isEntryOf lib tokenIndex x) as [[|]|e] eqn:Hx; try discriminate.
  - intros [= <-]. exists [], items. repeat split; auto.
  - intros H. destruct (IH H) as (pre & post & -> & Hpre & Hb).
    exists (x :: pre), post. repeat split; auto.
Qed.

Lemma isEntryOf_plain (lib : Library) (tokenIndex : Z) (b : Json) :
  plainEntry b ->
  isEntryOf lib tokenIndex b
  = Ok (match property "token" b with
        | Some (JNumber n) => n =? Number tokenIndex
        | _ => false
        end).
Proof.
  intros [Htoken _]. unfold isEntryOf.
  destruct (property "token" b) as [[]|]; simpl; try contradiction; reflexivity.
Qed.

Lemma findEntry_plain (lib : Library) (tokenIndex : Z) (items : list Json) :
  Forall plainEntry items ->
  findEntry lib tokenIndex items = Ok None
  \/ exists b, findEntry lib tokenIndex items = Ok (Some b) /\ plainEntry b.
Proof.
  induction 1 as [|b items Hb _ IH]; simpl; [now left|].
  rewrite (isEntryOf_plain lib tokenIndex b Hb).
  destruct (match property "token" b with Some (JNumber n) => n =? Number tokenIndex
            | _ => false end); [right; eauto|exact IH].
Qed.

Lemma totalOf_plain (lib : Library) (b : Json) :
  plainEntry b ->
  totalOf lib (Some b)
  = Ok (match property "total" b with
        | Some (JString s) => Some s
        | _ => None
        end).
Proof.
  intros [_ Htotal]. unfold totalOf.
  destruct (property "total" b) as [[]|]; simpl; try contradiction; reflexivity.
Qed.

(** What the observer does with a body that has been read. *)
Lemma fetchHyperCoreSpotTotal_body {W : Type} (host : Host W) (lib : Library)
    (user : string) (tokenIndex : Z) (s : State W) (res : HttpResponse) (w' : W)
    (data : Json) :
  fetchInfo host user (world s) = (FetchResponds res, w') ->
  ok res = true ->
  json res = Ok data ->
  let s1 := {| world := w'; frame := frame s;
               trace := (trace s ++ [EvFetch user (FetchResponds res)])%list |} in
  fetchHyperCoreSpotTotal host lib user tokenIndex s
  = match balancesOf data with
    | JArray balances =>
        match findEntry lib tokenIndex balances with
        | Ok bal => call (totalOf lib bal) s1
        | Raise e => throw e s1
        end
    | _ => throw (Error "balances.find is not a function") s1
    end.
Proof.
  intros Hf Hok Hj s1.
  unfold fetchHyperCoreSpotTotal, bind, fetchM. rewrite Hf. simpl.
  rewrite Hok. simpl. rewrite Hj. simpl.
  destruct (balancesOf data); try reflexivity.
  destruct (findEntry lib tokenIndex items); reflexivity.
Qed.

(** C7 (amended). The observer returns [null], not an error, when no
    entry of the list of balances is one for the token index, and its
    callers take [null] for a balance of zero.  It raises an error in
    five cases and no other: the request fails; the status is not OK; the
    body of the answer cannot be read; [balances] is there, is not [null]
    and is not an array ([balances.find is not a function]); the
    conversion of an entry's token to a number or of the total found to a
    string throws.  The last does not happen when the entries are as the
    endpoint documents them: then a body that can be read gives a result.
    The observer never hangs. *)
Theorem fetchHyperCoreSpotTotal_outcome {W : Type} (host : Host W) (lib : Library)
    (user : string) (tokenIndex tokenDecimals : Z) (s : State W) :
  let r := fetchHyperCoreSpotTotal host lib user tokenIndex s in
  (forall res w' data balances,
     fetchInfo host user (world s) = (FetchResponds res, w') ->
     ok res = true ->
     json res = Ok data ->
     balancesOf data = JArray balances ->
     Forall (fun b => isEntryOf lib tokenIndex b = Ok false) balances ->
     fst r = Ret None
     /\ fst (FlowBscToHypeCore.readCoreSpot host lib user tokenIndex tokenDecimals s)
        = Ret 0)
  /\ (forall s0 : State W, spotTotalToUnits lib None tokenDecimals s0 = (Ret 0, s0))
  /\ spotTotalToNumber lib None = zero lib
  /\ (forall e,
        fst r = Throw e <->
        (exists w', fetchInfo host user (world s) = (FetchFails e, w'))
        \/ (exists res w',
              fetchInfo host user (world s) = (FetchResponds res, w')
              /\ ok res = false
              /\ e = Error ("HyperCore API error: " ++ JsString.ofInt (status res)
                              ++ " " ++ statusText res))
        \/ (exists res w',
              fetchInfo host user (world s) = (FetchResponds res, w')
              /\ ok res = true
              /\ json res = Raise e)
        \/ (exists res w' data,
              fetchInfo host user (world s) = (FetchResponds res, w')
              /\ ok res = true
              /\ json res = Ok data
              /\ (forall balances, balancesOf data <> JArray balances)
              /\ e = Error "balances.find is not a function")
        \/ (exists res w' data balances,
              fetchInfo host user (world s) = (FetchResponds res, w')
              /\ ok res = true
              /\ json res = Ok data
              /\ balancesOf data = JArray balances
              /\ (findEntry lib tokenIndex balances = Raise e
                  \/ exists bal, findEntry lib tokenIndex balances = Ok bal
                                 /\ totalOf lib bal = Raise e)))
  /\ (forall res w' data balances,
        fetchInfo host user (world s) = (FetchResponds res, w') ->
        ok res = true ->
        json res = Ok data ->
        balancesOf data = JArray balances ->
        Forall plainEntry balances ->
        exists total, fst r = Ret total)
  /\ fst r <> Pending.
Proof.
  intros r. subst r.
  destruct (fetchInfo host user (world s)) as [[e0|res] w'] eqn:Hf.
  - (* the request fails *)
    assert (Hr : fst (fetchHyperCoreSpotTotal host lib user tokenIndex s) = Throw e0).
    { unfold fetchHyperCoreSpotTotal, bind, fetchM. now rewrite Hf. }
    rewrite Hr.
    split; [intros; discriminate|].
    split; [reflexivity|]. split; [reflexivity|].
    split; [|split; [intros; discriminate|discriminate]].
    intros e. split.
    + intros [= <-]. left. eauto.
    + intros [(w1 & [= <- _])|[(res & w1 & [=] & _)|[(res & w1 & [=] & _)
               |[(res & w1 & d & [=] & _)|(res & w1 & d & b & [=] & _)]]]]. reflexivity.
  - destruct (ok res) eqn:Hok.
    + destruct (json res) as [data|e0] eqn:Hj.
      * (* a body *)
        pose proof (fetchHyperCoreSpotTotal_body host lib user tokenIndex s res w' data
                      Hf Hok Hj) as Hbody.
        cbv zeta in Hbody.
        assert (Hcore : forall x,
                  fst (fetchHyperCoreSpotTotal host lib user tokenIndex s) = Ret x ->
                  fst (FlowBscToHypeCore.readCoreSpot host lib user tokenIndex
                         tokenDecimals s)
                  = fst (spotTotalToUnits lib x tokenDecimals
                           (snd (fetchHyperCoreSpotTotal host lib user tokenIndex s)))).
        { intros x Hx. unfold FlowBscToHypeCore.readCoreSpot, bind.
          destruct (fetchHyperCoreSpotTotal host lib user tokenIndex s) as [o s2].
          simpl in Hx. now subst o. }
        split.
        { intros res' w1 data' balances [= <- <-] _ Hj' Hbal Hnone.
          assert (data' = data) as -> by congruence.
          assert (Hr : fst (fetchHyperCoreSpotTotal host lib user tokenIndex s) = Ret None).
          { rewrite Hbody, Hbal, (findEntry_none _ _ _ Hnone). reflexivity. }
          split; [exact Hr|]. now rewrite (Hcore _ Hr). }
        split; [reflexivity|]. split; [reflexivity|].
        split; [|split].
        { intros e. rewrite Hbody. split.
          - intros Hthrow. right. right. right.
            revert Hthrow.
            destruct (balancesOf data) as [|b0|n0|t0|s0|balances|props] eqn:Hbal;
              simpl; intros Hthrow;
              try (left; exists res, w', data;
                   split; [reflexivity|]; split; [exact Hok|]; split; [exact Hj|];
                   split; [intros balances; rewrite Hbal; discriminate
                          |now injection Hthrow as <-]).
            right. exists res, w', data, balances.
            split; [reflexivity|]. split; [exact Hok|]. split; [exact Hj|].
            split; [exact Hbal|].
            destruct (findEntry lib tokenIndex balances) as [bal|e1] eqn:Hfind.
            + right. exists bal. split; [reflexivity|].
              destruct (totalOf lib bal) as [t|e2]; [discriminate|].
              now injection Hthrow as <-.
            + left. now injection Hthrow as <-.
          - intros [(w1 & [=])|[(res' & w1 & [= <- _] & Hk & _)
                   |[(res' & w1 & [= <- _] & _ & Hr)
                   |[(res' & w1 & d & [= <- _] & _ & Hd & Hnot & ->)
                   |(res' & w1 & d & balances & [= <- _] & _ & Hd & Hbal & Hcase)]]]];
              try congruence.
            + assert (d = data) as -> by congruence.
              destruct (balancesOf data); try reflexivity.
              now elim (Hnot items).
            + assert (d = data) as -> by congruence.
              rewrite Hbal.
              destruct Hcase as [-> | (bal & -> & Ht)]; [reflexivity|].
              simpl. now rewrite Ht. }
        { intros res' w1 data' balances [= <- <-] _ Hj' Hbal Hplain.
          assert (data' = data) as -> by congruence.
          rewrite Hbody, Hbal.
          destruct (findEntry_plain lib tokenIndex balances Hplain)
            as [-> | (b & -> & Hb)].
          - now exists None.
          - rewrite (totalOf_plain lib b Hb). eexists. reflexivity. }
        { rewrite Hbody.
          destruct (balancesOf data); try discriminate.
          destruct (findEntry lib tokenIndex items) as [bal|e1]; [|discriminate].
          simpl. destruct (totalOf lib bal); discriminate. }
      * (* the body cannot be read *)
        assert (Hr : fst (fetchHyperCoreSpotTotal host lib user tokenIndex s) = Throw e0).
        { unfold fetchHyperCoreSpotTotal, bind, fetchM. rewrite Hf. simpl.
          rewrite Hok. simpl. now rewrite Hj. }
        rewrite Hr.
        split; [intros res' w1 data' b [= <- <-] _; congruence|].
        split; [reflexivity|]. split; [reflexivity|].
        split; [|split; [intros res' w1 data' b [= <- <-] _; congruence|discriminate]].
        intros e. split.
        { intros [= <-]. right. right. left. eauto. }
        intros [(w1 & [=])|[(res' & w1 & [= <- _] & Hk & _)
               |[(res' & w1 & [= <- _] & _ & Hr')
               |[(res' & w1 & d & [= <- _] & _ & Hd & _)
               |(res' & w1 & d & b & [= <- _] & _ & Hd & _)]]]]; congruence.
    + (* the status is not OK *)
      assert (Hr : fst (fetchHyperCoreSpotTotal host lib user tokenIndex s)
                   = Throw (Error ("HyperCore API error: " ++ JsString.ofInt (status res)
                                     ++ " " ++ statusText res))).
      { unfold fetchHyperCoreSpotTotal, bind, fetchM. rewrite Hf. simpl.
        now rewrite Hok. }
      rewrite Hr.
      split; [intros res' w1 data' b [= <- <-]; congruence|].
      split; [reflexivity|]. split; [reflexivity|].
      split; [|split; [intros res' w1 data' b [= <- <-]; congruence|discriminate]].
      intros e. split.
      * intros [= <-]. right. left. eauto.
      * intros [(w1 & [=])|[(res' & w1 & [= <- _] & _ & ->)
               |[(res' & w1 & [= <- _] & Hk & _)
               |[(res' & w1 & d & [= <- _] & Hk & _)
               |(res' & w1 & d & b & [= <- _] & Hk & _)]]]]; congruence.
Qed.

Lemma fetchHyperCoreSpotTotal_outcome_witness :
  fst (fetchHyperCoreSpotTotal Sim.host Sim.lib "0xOwner" 7 (initial twoEntries)) = Ret None
  /\ fst (FlowBscToHypeCore.readCoreSpot Sim.host Sim.lib "0xOwner" 7 8
            (initial twoEntries)) = Ret 0.
Proof.
  apply (proj1 (fetchHyperCoreSpotTotal_outcome Sim.host Sim.lib "0xOwner" 7 8
                  (initial twoEntries))
           {| ok := true; status := 200; statusText := "OK";
              json := Ok (JObject
                            [("balances",
                              JArray
                                [ JObject [("token", JNumber 1); ("total", JString "7")];
                                  JNull;
                                  JObject [("coin", JString "CRCLd"); ("token", JNumber 409)];
                                  JObject [("token", JNumber 409);
                                           ("total", JString "12.5")] ])]) |}
           {| Sim.now := 0; Sim.latency := 0; Sim.answers := []; Sim.idle := Ok 0;
              Sim.exits := []; Sim.infos := [] |}
           (JObject
              [("balances",
                JArray
                  [ JObject [("token", JNumber 1); ("total", JString "7")];
                    JNull;
                    JObject [("coin", JString "CRCLd"); ("token", JNumber 409)];
                    JObject [("token", JNumber 409); ("total", JString "12.5")] ])])
           [ JObject [("token", JNumber 1); ("total", JString "7")];
             JNull;
             JObject [("coin", JString "CRCLd"); ("token", JNumber 409)];
             JObject [("token", JNumber 409); ("total", JString "12.5")] ]);
    try reflexivity.
  repeat constructor.
Defined.

(** ** Traces of the flows *)

Section Obeys.

Local Open Scope list_scope.

Context {W : Type}.
Variable goes : list Event -> Prop.
Variable throws : JsError -> list Event -> Prop.
Context {D : Discipline goes throws}.

Local Abbreviation obeys := (@obeys W _ goes throws).

Lemma obeys_ret {A : Type} (a : A) : obeys (ret a).
Proof.
  intros s. exists []. simpl. rewrite List.app_nil_r. split; [reflexivity|apply goes_nil].
Qed.

Lemma obeys_pending {A : Type} : obeys (@pending W A).
Proof.
  intros s. exists []. simpl. rewrite List.app_nil_r. split; [reflexivity|apply goes_nil].
Qed.

Lemma obeys_throw {A : Type} (e : JsError) : obeys (@throw W A e).
Proof.
  intros s. exists [EvThrow e]. simpl. split; [reflexivity|apply throws_throw].
Qed.

Lemma obeys_bind {A B : Type} (m : M W A) (f : A -> M W B) :
  obeys m ->
  (forall a s s', m s = (Ret a, s') -> obeys (f a)) ->
  obeys (bind m f).
Proof.
  intros Hm Hf s. unfold bind.
  destruct (Hm s) as (t1 & Ht1 & Hg1).
  destruct (m s) as [[a|e|] s1] eqn:Hrun; simpl in *.
  - destruct (Hf a s s1 Hrun s1) as (t2 & Ht2 & Hg2).
    exists (t1 ++ t2). rewrite Ht2, Ht1, List.app_assoc. split; [reflexivity|].
    destruct (fst (f a s1)); [apply goes_app|apply throws_app|apply goes_app]; assumption.
  - exists t1. auto.
  - exists t1. auto.
Qed.

Lemma obeys_call {A : Type} (r : Result A) : obeys (call r).
Proof.
  destruct r; [apply obeys_ret|apply obeys_throw].
Qed.

Lemma obeys_orThrow (x : option string) (message : string) : obeys (orThrow x message).
Proof.
  unfold orThrow. destruct x; [destruct (truthy _)|];
    first [apply obeys_ret|apply obeys_throw].
Qed.

Lemma orThrow_value (x : option string) (message : string) (s s' : State W) (a : string) :
  orThrow x message s = (Ret a, s') -> x = Some a.
Proof.
  unfold orThrow, ret, throw. destruct x; [destruct (truthy _)|]; congruence.
Qed.

Lemma obeys_ownConfig (m : TokenMeta) (property : string) : obeys (ownConfig m property).
Proof.
  destruct m; [apply obeys_ret|apply obeys_throw].
Qed.

Lemma obeys_consoleLog (line : string) : obeys (consoleLog line).
Proof.
  intros s. exists [EvLog line]. simpl. split; [reflexivity|apply goes_log].
Qed.

Lemma obeys_dateNow (host : Host W) : obeys (dateNow host).
Proof.
  intros s. exists []. simpl. rewrite List.app_nil_r. split; [reflexivity|apply goes_nil].
Qed.

Lemma obeys_getFrame : obeys getFrame.
Proof.
  intros s. exists []. simpl. rewrite List.app_nil_r. split; [reflexivity|apply goes_nil].
Qed.

Lemma obeys_setFrame (f : Frame) : obeys (setFrame f).
Proof.
  intros s. exists []. simpl. rewrite List.app_nil_r. split; [reflexivity|apply goes_nil].
Qed.

Lemma obeys_readContractM (host : Host W) c contract fn :
  obeys (readContractM host c contract fn).
Proof.
  intros s. unfold readContractM.
  destruct (readContract host c contract fn (world s)) as [[v|e] w'].
  - exists [EvReadContract c contract fn (Ok v)]. simpl.
    split; [reflexivity|apply goes_read].
  - exists ([EvReadContract c contract fn (Raise e)] ++ [EvThrow e]). simpl.
    rewrite <- List.app_assoc. split; [reflexivity|].
    apply (throws_app e [EvReadContract c contract fn (Raise e)] [EvThrow e]);
      [apply goes_read|apply throws_throw].
Qed.

Lemma obeys_fetchM (host : Host W) (user : string) : obeys (fetchM host user).
Proof.
  intros s. unfold fetchM.
  destruct (fetchInfo host user (world s)) as [[e|res] w'].
  - exists ([EvFetch user (FetchFails e)] ++ [EvThrow e]). simpl.
    rewrite <- List.app_assoc. split; [reflexivity|].
    apply (throws_app e [EvFetch user (FetchFails e)] [EvThrow e]);
      [apply goes_fetch|apply throws_throw].
  - exists [EvFetch user (FetchResponds res)]. simpl.
    split; [reflexivity|apply goes_fetch].
Qed.

Lemma obeys_if {A : Type} (b : bool) (m1 m2 : M W A) :
  (b = true -> obeys m1) -> (b = false -> obeys m2) ->
  obeys (if b then m1 else m2).
Proof.
  destruct b; auto.
Qed.

Lemma obeys_fetchHyperCoreSpotTotal (host : Host W) (lib : Library) (user : string)
    (tokenIndex : Z) :
  obeys (fetchHyperCoreSpotTotal host lib user tokenIndex).
Proof.
  unfold fetchHyperCoreSpotTotal.
  apply obeys_bind; [apply obeys_fetchM|intros res _ _ _].
  apply obeys_if; intros _; [apply obeys_throw|].
  apply obeys_bind; [apply obeys_call|intros data _ _ _].
  destruct (balancesOf data); try apply obeys_throw.
  apply obeys_bind; [apply obeys_call|intros bal _ _ _]. apply obeys_call.
Qed.

Lemma obeys_spotTotalToUnits (lib : Library) (x : option string) (d : Z) :
  obeys (spotTotalToUnits lib x d).
Proof.
  unfold spotTotalToUnits. destruct x; [destruct (truthy _)|];
    first [apply obeys_call|apply obeys_ret].
Qed.

Lemma obeys_readCoreSpot (host : Host W) (lib : Library) user tokenIndex d :
  obeys (FlowBscToHypeCore.readCoreSpot host lib user tokenIndex d).
Proof.
  unfold FlowBscToHypeCore.readCoreSpot.
  apply obeys_bind; [apply obeys_fetchHyperCoreSpotTotal|intros x _ _ _].
  apply obeys_spotTotalToUnits.
Qed.

Lemma obeys_waitingRead (host : Host W) (lib : Library) c contract owner
    window what started expectedAtLeast d tokenName :
  obeys (waitingRead host lib c contract owner window what
           started expectedAtLeast d tokenName).
Proof.
  unfold waitingRead.
  apply obeys_bind; [apply obeys_readContractM|intros bal _ _ _].
  apply obeys_bind; [apply obeys_dateNow|intros now _ _ _].
  apply obeys_bind; [apply obeys_getFrame|intros fr _ _ _].
  apply obeys_bind; [|intros _ _ _ _; apply obeys_ret].
  apply obeys_if; intros _; [|apply obeys_ret].
  apply obeys_bind; [apply obeys_setFrame|intros _ _ _ _]. apply obeys_consoleLog.
Qed.

(** A step executor obeys a discipline that lets it run and fail. *)
Lemma obeys_runStep (host : Host W) (stepName script : string) (args : list string) :
  (forall r, childVerdict stepName r = None -> goes [EvSpawn script args r]) ->
  (forall r e, childVerdict stepName r = Some e ->
               throws e [EvSpawn script args r; EvThrow e]) ->
  obeys (runStep host stepName script args).
Proof.
  intros Hgo Hfail s. unfold runStep.
  destruct (spawn host script args (world s)) as [r w'].
  destruct (childVerdict stepName r) as [e|] eqn:Hv.
  - exists [EvSpawn script args r; EvThrow e]. simpl.
    rewrite <- List.app_assoc. split; [reflexivity|]. now apply Hfail.
  - exists [EvSpawn script args r]. simpl. split; [reflexivity|]. now apply Hgo.
Qed.

(** The poller obeys a discipline that lets it start and sleep, when its
    read obeys it. *)
Lemma obeys_pollLoop {T : Type} (host : Host W) (fuel : nat) (label : string)
    (read : M W T) (accept : T -> bool) (timeout interval started : Z) :
  obeys read -> goes [EvSleep interval] ->
  obeys (pollLoop host fuel label read accept timeout interval started).
Proof.
  intros Hread Hsleep.
  induction fuel as [|fuel IH]; simpl; [apply obeys_pending|].
  apply obeys_bind; [exact Hread|intros v _ _ _].
  apply obeys_if; intros _; [apply obeys_ret|].
  apply obeys_bind; [apply obeys_dateNow|intros now _ _ _].
  apply obeys_if; intros _; [apply obeys_throw|].
  apply obeys_bind; [|intros _ _ _ _; exact IH].
  intros s. exists [EvSleep interval]. simpl. split; [reflexivity|exact Hsleep].
Qed.

Lemma obeys_pollUntil {T : Type} (host : Host W) (fuel : nat) (label : string)
    (read : M W T) (accept : T -> bool) (opts : option PollOpts) :
  obeys read -> goes [EvSleep (intervalOf opts)] -> goes [EvPollUntil label] ->
  obeys (pollUntil host fuel label read accept opts).
Proof.
  intros Hread Hsleep Hstart. unfold pollUntil.
  apply obeys_bind.
  - intros s. exists [EvPollUntil label]. simpl. split; [reflexivity|exact Hstart].
  - intros _ _ _ _. apply obeys_bind; [apply obeys_dateNow|intros started _ _ _].
    now apply obeys_pollLoop.
Qed.

End Obeys.

(** One step of a proof that a flow obeys a discipline: the rule of the
    construct at the head of the computation. *)
Ltac rule L :=
  apply L;
  lazymatch goal with
  | |- Discipline _ _ => exact _
  | _ => idtac
  end.

Ltac flow_step :=
  lazymatch goal with
  | |- obeys _ _ (bind (orThrow _ _) _) =>
      rule obeys_bind;
      [rule obeys_orThrow
      |let H := fresh "Hval" in intros ? ? ? H; apply orThrow_value in H]
  | |- obeys _ _ (bind _ _) => rule obeys_bind; [|intros ? _ _ _]
  | |- obeys _ _ (if _ then _ else _) => rule obeys_if; intros ?
  | |- obeys _ _ (ret _) => rule obeys_ret
  | |- obeys _ _ (throw _) => rule obeys_throw
  | |- obeys _ _ (call _) => rule obeys_call
  | |- obeys _ _ (orThrow _ _) => rule obeys_orThrow
  | |- obeys _ _ (ownConfig _ _) => rule obeys_ownConfig
  | |- obeys _ _ (consoleLog _) => rule obeys_consoleLog
  | |- obeys _ _ (dateNow _) => rule obeys_dateNow
  | |- obeys _ _ (setFrame _) => rule obeys_setFrame
  | |- obeys _ _ (readContractM _ _ _ _) => rule obeys_readContractM
  | |- obeys _ _ (fetchHyperCoreSpotTotal _ _ _ _) => rule obeys_fetchHyperCoreSpotTotal
  | |- obeys _ _ (spotTotalToUnits _ _ _) => rule obeys_spotTotalToUnits
  | |- obeys _ _ (FlowBscToHypeCore.readCoreSpot _ _ _ _ _) => rule obeys_readCoreSpot
  | |- obeys _ _ (waitingRead _ _ _ _ _ _ _ _ _ _ _) => rule obeys_waitingRead
  | |- obeys _ _ (pollUntil _ _ _ _ _ _) => rule obeys_pollUntil
  | |- obeys _ _ (runStep _ _ _ _) => rule obeys_runStep
  end.

(** A step executor is allowed when it is in a plan that is. *)
Ltac spawn_in_plan Hplan :=
  lazymatch goal with
  | |- forall r, childVerdict ?n r = None -> _ [EvSpawn ?sc ?ar r] =>
      intros r Hr;
      apply (proj1 (Hplan n sc ar ltac:(simpl; auto)) r Hr)
  | |- forall r e, childVerdict ?n r = Some e -> _ e [EvSpawn ?sc ?ar r; EvThrow e] =>
      intros r e Hr;
      apply (proj2 (Hplan n sc ar ltac:(simpl; auto)) r e Hr)
  end.

Lemma checked_address (lib : Library) (x : option string) (to : string) :
  match x with
  | Some t => if isAddress lib t then Some t else None
  | None => None
  end = Some to ->
  x = Some to.
Proof.
  destruct x as [t|]; [destruct (isAddress lib t)|]; congruence.
Qed.

Section FlowsObey.

Context {W : Type}.
Variable goes : list Event -> Prop.
Variable throws : JsError -> list Event -> Prop.
Context {D : Discipline goes throws}.
Variable host : Host W.
Variable lib : Library.
Variable registry : list (string * TokenConfig).
Variable process : Process.
Variable fuel : nat.

Hypothesis poll_allowed : allowsPoll goes (argv process).

Lemma flowBscToHypeCore_obeys :
  allowsPlan goes throws (planBscToHypeCore (argv process)) ->
  obeys goes throws (FlowBscToHypeCore.main host lib registry process fuel).
Proof.
  intros Hplan. unfold FlowBscToHypeCore.main. cbv zeta.
  repeat flow_step.
  all: try (apply negb_true_iff in H; destruct (poll_allowed H) as [Hsleep Hstart];
            first [apply Hsleep|apply Hstart]).
  all: try apply checked_address in Hval0.
  all: unfold allowsPlan, planBscToHypeCore in Hplan; cbv zeta in Hplan;
       rewrite ?Hval, ?Hval0, ?Hval1, ?Hval2, ?Hval3 in Hplan; simpl text in Hplan.
  all: spawn_in_plan Hplan.
Qed.

Lemma flowHypeCoreToBsc_obeys :
  allowsPlan goes throws (planHypeCoreToBsc (argv process)) ->
  obeys goes throws (FlowHypeCoreToBsc.main host lib registry process fuel).
Proof.
  intros Hplan. unfold FlowHypeCoreToBsc.main. cbv zeta.
  repeat flow_step.
  all: try (apply negb_true_iff in H; destruct (poll_allowed H) as [Hsleep Hstart];
            first [apply Hsleep|apply Hstart]).
  all: try apply checked_address in Hval0.
  all: unfold allowsPlan, planHypeCoreToBsc in Hplan; cbv zeta in Hplan;
       rewrite ?Hval, ?Hval0, ?Hval1, ?Hval2, ?Hval3 in Hplan; simpl text in Hplan.
  all: spawn_in_plan Hplan.
Qed.

End FlowsObey.

(** ** A failed hop ends the run *)

Lemma childVerdict_succeeded (stepName : string) (r : ChildResult) :
  childVerdict stepName r = None <-> childSucceeded r = true.
Proof.
  unfold childSucceeded, childVerdict, exitVerdict.
  destruct r as [e|code signal]; [split; discriminate|].
  destruct (truthy signal); [split; discriminate|].
  destruct code as [[|p|p]|]; split; (reflexivity || discriminate).
Qed.

Lemma childVerdict_failed (stepName : string) (r : ChildResult) (e : JsError) :
  childVerdict stepName r = Some e -> childSucceeded r = false.
Proof.
  intros H. destruct (childSucceeded r) eqn:Hs; [|reflexivity].
  apply (childVerdict_succeeded stepName) in Hs. congruence.
Qed.

Lemma childSucceeded_exit (code : option Z) (signal : option string) :
  childSucceeded (ChildExit code signal) = true
  <-> code = Some 0 /\ truthy signal = false.
Proof.
  unfold childSucceeded, childVerdict, exitVerdict.
  destruct (truthy signal); [split; [discriminate|intros [_ H]; discriminate]|].
  destruct code as [[|p|p]|]; split; try discriminate; try (intros [H _]; discriminate);
    auto.
Qed.

#[local] Instance abort_discipline : Discipline Benign Aborted.
Proof.
  split.
  - constructor.
  - intros t1 t2 H1 H2. apply Forall_app. now split.
  - intros e t1 t2 H1 (good & Hgood & Hshape).
    exists (t1 ++ good)%list. split; [apply Forall_app; now split|].
    destruct Hshape as [->|(script & args & r & Hr & ->)].
    + left. now rewrite List.app_assoc.
    + right. exists script, args, r. split; [assumption|]. now rewrite List.app_assoc.
  - intros e. exists []. split; [constructor|]. now left.
  - intros line. repeat constructor.
  - intros c contract fn r. repeat constructor.
  - intros user r. repeat constructor.
Qed.

Lemma abort_allows_plan (plan : list (string * list string)) :
  allowsPlan Benign Aborted plan.
Proof.
  intros stepName script args _. split.
  - intros r Hr. constructor; [|constructor]. simpl.
    apply childVerdict_succeeded in Hr. now rewrite Hr.
  - intros r e Hr. exists []. split; [constructor|]. right.
    exists script, args, r. split; [|reflexivity].
    now apply childVerdict_failed in Hr.
Qed.

Lemma abort_allows_poll (args : list string) : allowsPoll Benign args.
Proof.
  intros _. split; intros; repeat constructor.
Qed.

(** Where a failure stands in a trace whose first part has none. *)
Lemma failure_position (good tail pre post : list Event) (ev : Event) :
  Benign good -> hopFailure ev = true ->
  (good ++ tail = pre ++ ev :: post)%list ->
  exists k, (tail = k ++ ev :: post)%list.
Proof.
  intros Hgood Hev Heq.
  apply app_eq_app in Heq. destruct Heq as (l & [[Hg Hp]|[Hp Ht]]).
  - destruct l as [|x l].
    + exists []. simpl in Hp. now symmetry.
    + simpl in Hp. injection Hp as <- _. subst good.
      apply Forall_app in Hgood. destruct Hgood as [_ Hl].
      inversion Hl; subst. congruence.
  - exists l. exact Ht.
Qed.

Lemma obeys_abort_final {W A : Type} (m : M W A) (s : State W) :
  obeys Benign Aborted m -> trace s = [] ->
  forall pre ev post,
    trace (snd (m s)) = (pre ++ ev :: post)%list ->
    hopFailure ev = true ->
    exists e,
      fst (m s) = Throw e
      /\ (ev :: post = [EvThrow e]
          \/ exists script args r,
               childSucceeded r = false
               /\ ev :: post = [EvSpawn script args r; EvThrow e]).
Proof.
  intros Hm Hs pre ev post Htr Hev.
  destruct (Hm s) as (tr & Hadd & Hkind). rewrite Hs in Hadd. simpl in Hadd.
  rewrite Hadd in Htr. clear Hadd.
  assert (Hclean : Benign tr -> False).
  { intros Hb. rewrite Htr in Hb. apply Forall_app in Hb. destruct Hb as [_ Hb].
    inversion Hb; subst. congruence. }
  destruct (fst (m s)) as [a|e|]; [now destruct Hclean| |now destruct Hclean].
  exists e. split; [reflexivity|].
  destruct Hkind as (good & Hgood & [Hshape|(script & args & r & Hr & Hshape)]);
    rewrite Hshape in Htr;
    destruct (failure_position _ _ _ _ _ Hgood Hev Htr) as (k & Hk).
  - destruct k as [|x k]; simpl in Hk.
    + injection Hk as <- <-. now left.
    + injection Hk as _ Hk. destruct k; discriminate.
  - destruct k as [|x [|y k]]; simpl in Hk.
    + injection Hk as <- <-. right. eauto.
    + injection Hk as _ <- <-. now left.
    + injection Hk as _ _ Hk. destruct k; discriminate.
Qed.

(** C1. In both flows a hop that ends in failure ends the run: whenever
    the trace holds a step executor that did not end well (a signal, an
    exit code other than 0, a spawn error) or an exception (the timeout of
    a confirmation poll is one), [main] rejects with that error, and what
    follows in the trace is at most the exception itself: no step executor
    is invoked afterwards. *)
Theorem failed_hop_ends_run {W : Type} (host : Host W) (lib : Library)
    (registry : list (string * TokenConfig)) (process : Process)
    (fuel : nat) (w : W) (pre post : list Event) (ev : Event) :
  let bscToCore := FlowBscToHypeCore.main host lib registry process fuel (initial w) in
  let coreToBsc := FlowHypeCoreToBsc.main host lib registry process fuel (initial w) in
  (hopFailure ev = true ->
   (trace (snd bscToCore) = (pre ++ ev :: post)%list ->
    spawned post = []
    /\ exists e, fst bscToCore = Throw e
                 /\ last (ev :: post) ev = EvThrow e)
   /\ (trace (snd coreToBsc) = (pre ++ ev :: post)%list ->
       spawned post = []
       /\ exists e, fst coreToBsc = Throw e
                    /\ last (ev :: post) ev = EvThrow e))
  /\ (forall script args code signal,
        hopFailure (EvSpawn script args (ChildExit code signal)) = true
        <-> (code <> Some 0 \/ truthy signal = true))
  /\ (forall script args e, hopFailure (EvSpawn script args (ChildError e)) = true)
  /\ (forall label, hopFailure (EvThrow (Error (timeoutMessage label))) = true).
Proof.
  intros bscToCore coreToBsc.
  split; [|split; [|split; reflexivity]].
  - intros Hev.
    assert (Hshape : forall e,
              ev :: post = [EvThrow e]
              \/ (exists script args r,
                    childSucceeded r = false
                    /\ ev :: post = [EvSpawn script args r; EvThrow e]) ->
              spawned post = [] /\ last (ev :: post) ev = EvThrow e).
    { intros e [H|(script & args & r & _ & H)]; injection H as -> ->; split; reflexivity. }
    split; intros Htr.
    + destruct (obeys_abort_final
                  (FlowBscToHypeCore.main host lib registry process fuel) (initial w)
                  (flowBscToHypeCore_obeys _ _ _ _ _ _ _
                     (abort_allows_poll _) (abort_allows_plan _))
                  eq_refl pre ev post Htr Hev) as (e & He & Hcase).
      destruct (Hshape e Hcase). eauto.
    + destruct (obeys_abort_final
                  (FlowHypeCoreToBsc.main host lib registry process fuel) (initial w)
                  (flowHypeCoreToBsc_obeys _ _ _ _ _ _ _
                     (abort_allows_poll _) (abort_allows_plan _))
                  eq_refl pre ev post Htr Hev) as (e & He & Hcase).
      destruct (Hshape e Hcase). eauto.
  - intros script args code signal. simpl.
    rewrite negb_true_iff, <- not_true_iff_false, childSucceeded_exit.
    destruct (truthy signal); destruct code as [[|p|p]|]; split;
      try (intros _; (left; discriminate) || (right; reflexivity));
      try (intros _ [H1 H2]; discriminate);
      try (intros H; exfalso; apply H; split; reflexivity);
      try (intros [H|H]; [now destruct H|discriminate]).
Qed.

(** ** Dry runs *)

(** A discipline that allows the same events whether the run goes on or
    throws. *)
Lemma forall_discipline (P : Event -> Prop) :
  (forall e, P (EvThrow e)) ->
  (forall line, P (EvLog line)) ->
  (forall c contract fn r, P (EvReadContract c contract fn r)) ->
  (forall user r, P (EvFetch user r)) ->
  Discipline (Forall P) (fun _ => Forall P).
Proof.
  intros Hthrow Hlog Hread Hfetch. split.
  - constructor.
  - intros t1 t2 H1 H2. apply Forall_app. now split.
  - intros e t1 t2 H1 H2. apply Forall_app. now split.
  - intros e. repeat constructor. apply Hthrow.
  - intros line. repeat constructor. apply Hlog.
  - intros c contract fn r. repeat constructor. apply Hread.
  - intros user r. repeat constructor. apply Hfetch.
Qed.

#[local] Instance dry_discipline :
  Discipline (Forall (fun ev => dryEvent ev = true))
             (fun _ => Forall (fun ev => dryEvent ev = true)).
Proof. apply forall_discipline; reflexivity. Qed.

#[local] Instance plan_discipline (plan : list (string * list string)) :
  Discipline (Forall (planned plan)) (fun _ => Forall (planned plan)).
Proof. apply forall_discipline; intros; exact I. Qed.

Lemma obeys_forall {W A : Type} (P : Event -> Prop) (m : M W A) (w : W) :
  obeys (Forall P) (fun _ => Forall P) m ->
  Forall P (trace (snd (m (initial w)))).
Proof.
  intros H. destruct (H (initial w)) as (tr & -> & Htr). simpl.
  now destruct (fst (m (initial w))).
Qed.

Lemma dry_allows_plan (args : list string) (plan : list (string * list string)) :
  (forall script a, In (script, a) plan -> exists b, a = (b ++ ["--dry-run"])%list) ->
  allowsPlan (Forall (fun ev => dryEvent ev = true))
             (fun _ => Forall (fun ev => dryEvent ev = true)) plan.
Proof.
  intros Hflag stepName script a Hin.
  destruct (Hflag script a Hin) as (b & ->).
  assert (Hdry : forall r, dryEvent (EvSpawn script (b ++ ["--dry-run"])%list r) = true).
  { intros r. simpl. rewrite rev_app_distr. reflexivity. }
  split; intros; repeat constructor; apply Hdry.
Qed.

Lemma dry_allows_poll (args : list string) :
  hasFlag "--dry-run" args = true ->
  allowsPoll (Forall (fun ev => dryEvent ev = true)) args.
Proof.
  intros Hdry Hwet. congruence.
Qed.

Lemma plan_allows_plan (plan : list (string * list string)) :
  allowsPlan (Forall (planned plan)) (fun _ => Forall (planned plan)) plan.
Proof.
  intros stepName script a Hin.
  split; intros; repeat constructor; exact Hin.
Qed.

Lemma plan_allows_poll (plan : list (string * list string)) (args : list string) :
  allowsPoll (Forall (planned plan)) args.
Proof.
  intros _. split; intros; repeat constructor.
Qed.

Lemma spawned_planned (plan : list (string * list string)) (tr : list Event)
    (script : string) (a : list string) :
  Forall (planned plan) tr -> In (script, a) (spawned tr) -> In (script, a) plan.
Proof.
  intros Hall. unfold spawned. rewrite in_flat_map.
  intros (ev & Hev & Hin). rewrite Forall_forall in Hall. specialize (Hall ev Hev).
  destruct ev; simpl in Hin; try contradiction.
  destruct Hin as [[= <- <-]|[]]. exact Hall.
Qed.

(** The plans of a dry run and of a run that is not, for the same
    inputs, differ by the flag and by nothing else. *)
Lemma dry_plans (dry wet : list string) :
  hasFlag "--dry-run" dry = true -> hasFlag "--dry-run" wet = false ->
  sameInputs dry wet ->
  planBscToHypeCore dry
    = map (fun p => (fst p, snd p ++ ["--dry-run"])%list) (planBscToHypeCore wet)
  /\ planHypeCoreToBsc dry
    = map (fun p => (fst p, snd p ++ ["--dry-run"])%list) (planHypeCoreToBsc wet).
Proof.
  intros Hdry Hwet [Hpos Hopt].
  unfold planBscToHypeCore, planHypeCoreToBsc, dryRunArgs.
  rewrite Hdry, Hwet, Hpos.
  rewrite !(Hopt "--token"), !(Hopt "--to"), !(Hopt "--amount"),
    !(Hopt "--wrap-amount"), !(Hopt "--send-amount"), !(Hopt "--core-amount"),
    !(Hopt "--spot-send-amount"), !(Hopt "--bridge-amount"), !(Hopt "--unwrap-amount")
    by (simpl; tauto).
  split; reflexivity.
Qed.

Lemma dry_plan_flagged (args : list string) :
  hasFlag "--dry-run" args = true ->
  forall script a,
    In (script, a) (planBscToHypeCore args) \/ In (script, a) (planHypeCoreToBsc args) ->
    exists b, a = (b ++ ["--dry-run"])%list.
Proof.
  intros Hdry script a.
  unfold planBscToHypeCore, planHypeCoreToBsc, dryRunArgs. rewrite Hdry. simpl.
  intros [[H|[H|[H|[]]]]|[H|[H|[H|[]]]]]; injection H as _ <-;
    match goal with |- exists b, ?x :: ?r = _ =>
      exists (removelast (x :: r)); reflexivity
    end.
Qed.

(** One hop, one script: the arguments of a script in a plan are those of
    the same script in the plan without the flag, with the flag. *)
Lemma in_flagged_script (plan : list (string * list string)) (script : string)
    (a' : list string) :
  In (script, a') (map (fun p => (fst p, snd p ++ ["--dry-run"])%list) plan) ->
  In script (map fst plan).
Proof.
  rewrite in_map_iff. intros ([s1 a1] & Heq & Hin). simpl in Heq.
  injection Heq as Hs _. rewrite <- Hs.
  apply in_map_iff. exists (s1, a1). split; [reflexivity|exact Hin].
Qed.

Lemma plan_same_script (plan : list (string * list string)) (script : string)
    (a a' : list string) :
  NoDup (map fst plan) ->
  In (script, a) plan ->
  In (script, a') (map (fun p => (fst p, snd p ++ ["--dry-run"])%list) plan) ->
  a' = (a ++ ["--dry-run"])%list.
Proof.
  induction plan as [|[s0 a0] plan IH]; simpl; intros Hnd Hin Hin'; [contradiction|].
  inversion Hnd as [|x l Hnotin Hnd']; subst.
  destruct Hin as [Heq|Hin]; destruct Hin' as [Heq'|Hin'].
  - injection Heq as _ Ha. injection Heq' as _ Ha'. now rewrite <- Ha', Ha.
  - exfalso. injection Heq as Hs _. apply Hnotin. rewrite Hs.
    now apply in_flagged_script with (a' := a').
  - exfalso. injection Heq' as Hs _. apply Hnotin. rewrite Hs.
    apply in_map_iff. exists (script, a). split; [reflexivity|exact Hin].
  - now apply IH.
Qed.

Lemma plans_nodup (args : list string) :
  NoDup (map fst (planBscToHypeCore args)) /\ NoDup (map fst (planHypeCoreToBsc args)).
Proof.
  split; simpl; repeat constructor; simpl; intuition discriminate.
Qed.

(** ** Validation *)

Lemma bind_orThrow {W B : Type} (x : option string) (message : string)
    (f : string -> M W B) (s : State W) :
  bind (orThrow x message) f s
  = if truthy x then f (text x) s
    else (Throw (Error message), record (EvThrow (Error message)) s).
Proof.
  unfold bind, orThrow. destruct x as [a|]; [|reflexivity].
  destruct (truthy (Some a)); reflexivity.
Qed.

Lemma bind_call {W A B : Type} (r : Result A) (f : A -> M W B) (s : State W) :
  bind (call r) f s
  = match r with
    | Ok a => f a s
    | Raise e => (Throw e, record (EvThrow e) s)
    end.
Proof.
  destruct r; reflexivity.
Qed.

Lemma bind_throw {W A B : Type} (e : JsError) (f : A -> M W B) (s : State W) :
  bind (throw e) f s = (Throw e, record (EvThrow e) s).
Proof. reflexivity. Qed.

Lemma truthy_text (x : option string) : truthy x = true -> x = Some (text x).
Proof.
  destruct x; [reflexivity|discriminate].
Qed.

Lemma truthy_checked (lib : Library) (to : string) :
  truthy (if isAddress lib to then Some to else None) = true ->
  (if isAddress lib to then Some to else None) = Some to
  /\ isAddress lib to = true /\ to <> "".
Proof.
  destruct (isAddress lib to); [|discriminate].
  simpl. intros H. repeat split. intros ->. discriminate.
Qed.

(** One check of the validation: it throws, and the run is over with the
    state as it was, or it passes. *)
Ltac check_step :=
  lazymatch goal with
  | |- exists e, bind (orThrow ?x ?m) _ ?s = _ /\ _ =>
      rewrite bind_orThrow;
      let H := fresh "Hcheck" in
      destruct (truthy x) eqn:H;
      [|eexists; split; [reflexivity|]]
  | |- exists e, bind (call ?r) _ ?s = _ /\ _ =>
      rewrite bind_call;
      let H := fresh "Hcall" in
      destruct r eqn:H;
      [|eexists; split; [reflexivity|]]
  end.

(** C2. In both flows, when the recipient given with [--to] and the
    address of the signing key differ (compared in lower case), [main]
    throws and leaves the state as it was but for the exception: no read,
    no request, no step executor.  When the other checks pass, the error
    is the one that says that [--to] must equal the address of the key. *)
Theorem mismatch_rejected {W : Type} (host : Host W) (lib : Library)
    (registry : list (string * TokenConfig)) (process : Process)
    (fuel : nat) (s : State W) (to privateKey : string) (account : Account) :
  getArg "--to" (argv process) = Some to ->
  PRIVATE_KEY process = Some privateKey ->
  privateKeyToAccount lib privateKey = Ok account ->
  JsString.toLowerCase to <> JsString.toLowerCase (address account) ->
  (exists e,
     FlowBscToHypeCore.main host lib registry process fuel s
     = (Throw e, record (EvThrow e) s)
     /\ (checksPass lib registry process ["--wrap-amount"; "--send-amount"; "--core-amount"] ->
         e = Error (FlowBscToHypeCore.mismatchMessage to (address account))))
  /\ (exists e,
        FlowHypeCoreToBsc.main host lib registry process fuel s
        = (Throw e, record (EvThrow e) s)
        /\ (checksPass lib registry process
              ["--spot-send-amount"; "--bridge-amount"; "--unwrap-amount"] ->
            e = Error (FlowHypeCoreToBsc.mismatchMessage to (address account)))).
Proof.
  intros Hto Hkey Haccount Hdiff.
  apply String.eqb_neq in Hdiff.
  split.
  - unfold FlowBscToHypeCore.main. cbv zeta. rewrite Hto, Hkey.
    check_step; [|intros (H & _); congruence].
    check_step; [|intros (_ & (to' & Hto' & Ha & Hne) & _);
                  assert (to' = to) by congruence; subst to';
                  rewrite Ha in Hcheck0; simpl in Hcheck0;
                  apply negb_false_iff, String.eqb_eq in Hcheck0; congruence].
    apply truthy_checked in Hcheck0. destruct Hcheck0 as (Hx & Ha & Hne). rewrite Hx.
    check_step; [|intros (_ & _ & Hall & _); inversion Hall; congruence].
    check_step; [|intros (_ & _ & Hall & _); inversion Hall as [|? ? _ Hall'];
                  inversion Hall'; congruence].
    check_step; [|intros (_ & _ & Hall & _); inversion Hall as [|? ? _ Hall'];
                  inversion Hall' as [|? ? _ Hall'']; inversion Hall''; congruence].
    check_step; [|intros (_ & _ & _ & H & _); congruence].
    check_step; [|intros (_ & _ & _ & _ & H & _); rewrite Hkey in H; congruence].
    simpl text. rewrite bind_call, Haccount.
    check_step; [|intros (_ & _ & _ & _ & _ & (meta & Hmeta));
                  rewrite (truthy_text _ Hcheck) in Hmeta; congruence].
    simpl text. rewrite Hdiff. simpl negb. cbv iota.
    rewrite bind_throw.
    eexists. split; [reflexivity|]. intros _. reflexivity.
  - unfold FlowHypeCoreToBsc.main. cbv zeta. rewrite Hto, Hkey.
    check_step; [|intros (H & _); congruence].
    check_step; [|intros (_ & (to' & Hto' & Ha & Hne) & _);
                  assert (to' = to) by congruence; subst to';
                  rewrite Ha in Hcheck0; simpl in Hcheck0;
                  apply negb_false_iff, String.eqb_eq in Hcheck0; congruence].
    apply truthy_checked in Hcheck0. destruct Hcheck0 as (Hx & Ha & Hne). rewrite Hx.
    check_step; [|intros (_ & _ & Hall & _); inversion Hall; congruence].
    check_step; [|intros (_ & _ & Hall & _); inversion Hall as [|? ? _ Hall'];
                  inversion Hall'; congruence].
    check_step; [|intros (_ & _ & Hall & _); inversion Hall as [|? ? _ Hall'];
                  inversion Hall' as [|? ? _ Hall'']; inversion Hall''; congruence].
    check_step; [|intros (_ & _ & _ & H & _); congruence].
    check_step; [|intros (_ & _ & _ & _ & H & _); rewrite Hkey in H; congruence].
    simpl text. rewrite bind_call, Haccount.
    check_step; [|intros (_ & _ & _ & _ & _ & (meta & Hmeta));
                  rewrite (truthy_text _ Hcheck) in Hmeta; congruence].
    simpl text. rewrite Hdiff. simpl negb. cbv iota.
    rewrite bind_throw.
    eexists. split; [reflexivity|]. intros _. reflexivity.
Qed.

(** ** Runs on the scripted host *)

Lemma mismatch_rejected_witness :
  exists e,
    FlowHypeCoreToBsc.main Sim.host Sim.lib TOKENS (demoProcess "0xabd" []) 10
      (initial demoWorld)
    = (Throw e, record (EvThrow e) (initial demoWorld)).
Proof.
  destruct (mismatch_rejected Sim.host Sim.lib TOKENS (demoProcess "0xabd" []) 10
              (initial demoWorld) "0xabd" "0xABC" {| address := "0xABC" |})
    as [_ (e & He & _)].
  - reflexivity.
  - reflexivity.
  - reflexivity.
  - vm_compute. discriminate.
  - exists e. exact He.
Defined.

Lemma failed_hop_ends_run_witness :
  spawned [EvThrow (Error "bscToHypeEvm failed with exit code 1")] = []
  /\ exists e,
       fst (FlowBscToHypeCore.main Sim.host Sim.lib TOKENS (demoProcess "0xabc" []) 10
              (initial demoWorld)) = Throw e
       /\ last [demoFailure; EvThrow (Error "bscToHypeEvm failed with exit code 1")]
            demoFailure = EvThrow e.
Proof.
  apply (proj1 (proj1 (failed_hop_ends_run Sim.host Sim.lib TOKENS
                         (demoProcess "0xabc" []) 10 demoWorld demoBefore
                         [EvThrow (Error "bscToHypeEvm failed with exit code 1")]
                         demoFailure)
                  eq_refl)).
  vm_compute. reflexivity.
Defined.

(** ** The definitions at work *)

Example toAssetBridgeAddress_crcld :
  toAssetBridgeAddress 409 = "0x2000000000000000000000000000000000000199".
Proof. reflexivity. Qed.

Example Number_values :
  Number 409 = 409 /\ Number MAX_SAFE_INTEGER = MAX_SAFE_INTEGER
  /\ Number (2 ^ 53 + 1) = 2 ^ 53 /\ Number (2 ^ 53 + 3) = 2 ^ 53 + 4
  /\ toAssetBridgeAddress (2 ^ 53 + 1) = toAssetBridgeAddress (2 ^ 53).
Proof. vm_compute. repeat split; reflexivity. Qed.

Example toString16_values :
  JsString.toString16 0 = "0" /\ JsString.toString16 255 = "ff"
  /\ JsString.toString16 48879 = "beef" /\ JsString.ofInt 137 = "137".
Proof. repeat split; reflexivity. Qed.

Example getArg_values :
  let args := ["node"; "flow.ts"; "--yes"; "CRCLd"; "--to"; "0xabc"; "--amount"] in
  getArg "--to" args = Some "0xabc"
  /\ getArg "--amount" args = None
  /\ getArg "--token" args = None
  /\ hasFlag "--dry-run" args = false
  /\ getPositionalArg 0 args = None
  /\ getPositionalArg 0 ["node"; "flow.ts"; "--dry-run"; "--to"; "0xabc"; "CRCLd"]
     = Some "CRCLd".
Proof. repeat split; reflexivity. Qed.

Example getPositionalArg_values :
  getPositionalArg 0 ["node"; "flow.ts"; "CRCLd"; "--to"; "0xabc"] = Some "CRCLd"
  /\ getPositionalArg 0 ["node"; "flow.ts"; "--to"; "0xabc"; "CRCLd"] = Some "CRCLd"
  /\ getPositionalArg 0 ["node"; "flow.ts"; "--to"; "0xabc"] = None
  /\ getPositionalArg 0 ["node"; "flow.ts"; "--dry-run"; "CRCLd"; "--to"; "0xabc"] = None
  /\ getPositionalArg 0 ["node"; "flow.ts"; "--dry-run"; "--yes"; "CRCLd"] = None
  /\ getPositionalArg 1 ["node"; "flow.ts"; "a"; ""; "b"; "-x"; "c"; "d"] = Some "b"
  /\ getPositionalArg 2 ["node"; "flow.ts"; "a"; ""; "b"; "-x"; "c"; "d"] = Some "d".
Proof. repeat split; reflexivity. Qed.

Example requireToken_values :
  requireToken TOKENS (Some "  CRCLD ") = requireToken TOKENS (Some "crcld")
  /\ requireToken TOKENS (Some "abc")
     = Raise (Error "Unknown token: abc. Known tokens: crcld")
  /\ requireToken TOKENS (Some "Constructor") = Ok Inherited
  /\ requireToken TOKENS None = Raise (Error "Missing token name (e.g. CRCLd).").
Proof. repeat split; reflexivity. Qed.

Example exitVerdict_values :
  exitVerdict "bscWrap" (Some 0) None = None
  /\ exitVerdict "bscWrap" (Some 2) None = Some (Error "bscWrap failed with exit code 2")
  /\ exitVerdict "bscWrap" None (Some "SIGTERM")
     = Some (Error "bscWrap terminated by signal: SIGTERM")
  /\ exitVerdict "bscWrap" None None = Some (Error "bscWrap failed with exit code null").
Proof. repeat split; reflexivity. Qed.

Example formatElapsedMs_values :
  formatElapsedMs 125000 = "2m5s" /\ formatElapsedMs 4999 = "4s".
Proof. split; reflexivity. Qed.

Example minExpected_truncates :
  minExpected 1000 = 999 /\ minExpected 1 = 0 /\ minExpected (-1) = 0.
Proof. repeat split; reflexivity. Qed.

(** A complete run of [flowHypeCoreToBsc]: the first hop is confirmed at
    the fourth sample, the second at the second, and the three step
    executors are those of the plan. *)
Example flowHypeCoreToBsc_completes :
  let w := {| Sim.now := 1000; Sim.latency := 3;
              Sim.answers := map Ok [0; 100; 100; 100; 130; 151; 7; 7; 12; 1; 6];
              Sim.idle := Ok 0; Sim.exits := []; Sim.infos := [] |} in
  let p := demoProcess "0xabc" ["--spot-send-amount"; "50"] in
  let r := FlowHypeCoreToBsc.main Sim.host Sim.lib TOKENS p 10 (initial w) in
  fst r = Ret tt
  /\ spawned (trace (snd r)) = planHypeCoreToBsc (argv p)
  /\ sleeps (trace (snd r)) = [2000; 2000; 2000; 5000].
Proof. vm_compute. repeat split; reflexivity. Qed.

(** A dry run of [flowBscToHypeCore] on a host where a poll would never
    be satisfied: it ends, whatever the fuel. *)
Example flowBscToHypeCore_dry_run :
  let p := demoProcess "0xabc" ["--dry-run"] in
  let r := FlowBscToHypeCore.main Sim.host Sim.lib TOKENS p 0 (initial (Sim.quiet [] 0)) in
  fst r = Ret tt
  /\ spawned (trace (snd r)) = planBscToHypeCore (argv p)
  /\ sleeps (trace (snd r)) = [].
Proof. vm_compute. repeat split; reflexivity. Qed.

(** What the observer of the core ledger makes of some bodies: a list
    that is not an array, no list, a body that is no object, an entry
    whose token is a string, and a total that is a number. *)
Example fetchHyperCoreSpotTotal_bodies :
  let answer := fun body =>
    {| Sim.now := 0; Sim.latency := 0; Sim.answers := []; Sim.idle := Ok 0;
       Sim.exits := [];
       Sim.infos := [FetchResponds {| ok := true; status := 200; statusText := "OK";
                                      json := Ok body |}] |} in
  let observe := fun body =>
    fst (fetchHyperCoreSpotTotal Sim.host Sim.lib "0xOwner" 409 (initial (answer body))) in
  observe (JObject [("balances", JObject [])])
    = Throw (Error "balances.find is not a function")
  /\ observe (JObject [("balances", JString "none")])
      = Throw (Error "balances.find is not a function")
  /\ observe (JObject [("balances", JNull)]) = Ret None
  /\ observe (JObject []) = Ret None
  /\ observe JNull = Ret None
  /\ observe (JArray [JNumber 409]) = Ret None
  /\ observe (JObject [("balances",
                        JArray [JObject [("token", JString "409");
                                         ("total", JString "1.5")]])])
      = Ret (Some "1.5")
  /\ observe (JObject [("balances",
                        JArray [JObject [("token", JNumber 409); ("total", JNumber 3)]])])
      = Ret (Some "3").
Proof. vm_compute. repeat split; reflexivity. Qed.

(** A run of [flowBscToHypeCore] whose first confirmation times out: the
    balance of the wrapper never moves, [main] rejects with the timeout
    of the poll, and the second and third step executors are not invoked. *)
Example flowBscToHypeCore_poll_timeout :
  let p := demoProcess "0xabc" [] in
  let r := FlowBscToHypeCore.main Sim.host Sim.lib TOKENS p 100 (initial (Sim.quiet [] 0)) in
  fst r = Throw (Error "Timeout waiting for: wrapper balance increase after wrap")
  /\ spawned (trace (snd r)) = [("src/bscWrap.ts", ["CRCLd"; "--amount"; "5"])]
  /\ List.length (sleeps (trace (snd r))) = 41%nat.
Proof. vm_compute. repeat split; reflexivity. Qed.

(** A complete run of [flowBscToHypeCore] for an amount of 1000 units: the
    account has no entry on the core ledger before the last hop (a balance
    of zero), 998 does not confirm the hop and 999 does. *)
Example flowBscToHypeCore_completes :
  let total := fun t =>
    FetchResponds {| ok := true; status := 200; statusText := "OK";
                     json := Ok (JObject
                                   [("balances",
                                     JArray
                                       [ JObject [("token", JNumber 1);
                                                  ("total", JString "7")];
                                         JObject [("token", JNumber 409);
                                                  ("total", JString t)] ])]) |} in
  let w := {| Sim.now := 1000; Sim.latency := 3;
              Sim.answers := map Ok [0; 1000; 0; 0; 1000];
              Sim.idle := Ok 0; Sim.exits := [];
              Sim.infos := [Sim.emptyInfo; total "998"; total "999"] |} in
  let p := {| argv := ["node"; "flow.ts"; "--token"; "crcld"; "--to"; "0xAbC";
                       "--amount"; "1000"];
              SRC_RPC_URL := Some "http://localhost:8545";
              PRIVATE_KEY := Some "0xABC" |} in
  let r := FlowBscToHypeCore.main Sim.host Sim.lib TOKENS p 10 (initial w) in
  fst r = Ret tt
  /\ spawned (trace (snd r)) = planBscToHypeCore (argv p)
  /\ sleeps (trace (snd r)) = [5000].
Proof. vm_compute. repeat split; reflexivity. Qed.

(** * More properties of the code *)

(** ** The command line *)

Lemma getArg_cons_eq (name v : string) (rest : list string) :
  getArg name (name :: v :: rest) = Some v.
Proof.
  unfold getArg. simpl. now rewrite String.eqb_refl.
Qed.

Lemma getArg_last (name : string) : getArg name [name] = None.
Proof.
  unfold getArg. simpl. now rewrite String.eqb_refl.
Qed.

Lemma getArg_cons_neq (name a : string) (rest : list string) :
  a <> name -> getArg name (a :: rest) = getArg name rest.
Proof.
  intros Hne. unfold getArg. simpl.
  apply String.eqb_neq in Hne. rewrite Hne.
  destruct (findIndex (fun a0 => String.eqb a0 name) rest) as [idx|]; reflexivity.
Qed.

(** [getArg] gives the word that follows the first occurrence of the
    option, whatever that word is (another option too), and nothing else:
    later occurrences are not looked at, and an option whose first
    occurrence is the last word has no value. *)
Theorem getArg_first_occurrence (name v : string) (args : list string) :
  getArg name args = Some v
  <-> exists pre rest, args = (pre ++ name :: v :: rest)%list /\ ~ In name pre.
Proof.
  split.
  - induction args as [|a r IH]; [discriminate|].
    destruct (String.eqb_spec a name) as [->|Hne].
    + destruct r as [|v' r'].
      * rewrite getArg_last. discriminate.
      * rewrite getArg_cons_eq. intros [= ->]. exists [], r'. split; [reflexivity|auto].
    + rewrite getArg_cons_neq by assumption. intros H.
      destruct (IH H) as (pre & rest & -> & Hpre).
      exists (a :: pre), rest. split; [reflexivity|].
      intros [Ha|Hin]; [congruence|contradiction].
  - intros (pre & rest & -> & Hpre).
    induction pre as [|a pre IH]; simpl.
    + apply getArg_cons_eq.
    + rewrite getArg_cons_neq.
      * apply IH. intros Hin. apply Hpre. now right.
      * intros ->. apply Hpre. now left.
Qed.

(** The positional words are words of the command line, in order, none of
    them empty and none of them starting with a dash. *)
Lemma positionals_sound_upto (n : nat) : forall rest p,
  (List.length rest <= n)%nat ->
  In p (positionals rest) ->
  In p rest /\ p <> "" /\ JsString.startsWith "-" p = false.
Proof.
  induction n as [|n IH]; intros rest p Hlen Hin.
  - destruct rest; [contradiction|simpl in Hlen; lia].
  - destruct rest as [|a r]; [contradiction|].
    simpl in Hlen. simpl in Hin.
    destruct (String.eqb_spec a "") as [Ha|Ha].
    + destruct (IH r p ltac:(lia) Hin) as (H1 & H2 & H3). repeat split; auto. now right.
    + destruct (JsString.startsWith "-" a) eqn:Hdash.
      * destruct r as [|next r']; [contradiction|].
        match type of Hin with In _ (if ?c then _ else _) => destruct c end.
        -- simpl in Hlen.
           destruct (IH r' p ltac:(lia) Hin) as (H1 & H2 & H3).
           repeat split; auto. right. now right.
        -- destruct (IH (next :: r') p ltac:(simpl in *; lia) Hin) as (H1 & H2 & H3).
           repeat split; auto. now right.
      * destruct Hin as [<-|Hin].
        -- repeat split; auto. now left.
        -- destruct (IH r p ltac:(lia) Hin) as (H1 & H2 & H3).
           repeat split; auto. now right.
Qed.

(** A positional argument is one of the words after the first two of
    [argv], is not empty and does not start with a dash. *)
Theorem getPositionalArg_sound (index : nat) (args : list string) (p : string) :
  getPositionalArg index args = Some p ->
  In p (skipn 2 args) /\ p <> "" /\ JsString.startsWith "-" p = false.
Proof.
  unfold getPositionalArg. intros H. apply nth_error_In in H.
  now apply (positionals_sound_upto (List.length (skipn 2 args))).
Qed.

Lemma getPositionalArg_sound_witness :
  In "CRCLd" (skipn 2 ["node"; "flow.ts"; "--to"; "0xabc"; "CRCLd"])
  /\ "CRCLd" <> "" /\ JsString.startsWith "-" "CRCLd" = false.
Proof.
  apply (getPositionalArg_sound 0 ["node"; "flow.ts"; "--to"; "0xabc"; "CRCLd"] "CRCLd").
  reflexivity.
Defined.

Lemma plainWords_after_dash (a : string) (r : list string) :
  (truthy (Some a) && negb (JsString.startsWith "-" a))%bool = false ->
  plainWords true (a :: r) = plainWords false (a :: r).
Proof.
  simpl. intros H. rewrite !Bool.andb_true_r, Bool.andb_false_r.
  now rewrite H.
Qed.

Lemma positionals_plainWords_upto (n : nat) : forall rest,
  (List.length rest <= n)%nat -> positionals rest = plainWords false rest.
Proof.
  induction n as [|n IH]; intros rest Hlen.
  - destruct rest; [reflexivity|simpl in Hlen; lia].
  - destruct rest as [|a r]; [reflexivity|].
    simpl in Hlen. simpl positionals. simpl plainWords.
    destruct (String.eqb_spec a "") as [Ha|Ha].
    + subst a. simpl. apply IH. lia.
    + destruct (JsString.startsWith "-" a) eqn:Hdash; simpl.
      * destruct r as [|next r']; [reflexivity|].
        change (truthy (Some next)) with (negb (next =? "")%string).
        destruct (negb (next =? "")%string && negb (JsString.startsWith "-" next))%bool
          eqn:Hnext.
        -- simpl in Hlen. rewrite IH by lia.
           simpl plainWords. rewrite Bool.andb_false_r.
           apply Bool.andb_true_iff in Hnext as [_ Hnext].
           apply Bool.negb_true_iff in Hnext. now rewrite Hnext.
        -- rewrite IH by (simpl in *; lia).
           symmetry. now apply plainWords_after_dash.
      * f_equal. apply IH. lia.
Qed.

Lemma positionals_plainWords (rest : list string) :
  positionals rest = plainWords false rest.
Proof. now apply (positionals_plainWords_upto (List.length rest)). Qed.

Lemma last_cons_default (pre : list string) : forall a d : string,
  last (a :: pre) d = last pre a.
Proof.
  induction pre as [|b pre IH]; intros a d; [reflexivity|].
  change (last (a :: b :: pre) d) with (last (b :: pre) d).
  now rewrite !IH.
Qed.

(** The word before [p]: the last of [pre], or the word [before] that
    precedes them all. *)
Lemma plainWords_positions (words : list string) : forall (before p : string),
  In p (plainWords (JsString.startsWith "-" before) words)
  <-> exists pre post,
        words = (pre ++ p :: post)%list
        /\ p <> "" /\ JsString.startsWith "-" p = false
        /\ JsString.startsWith "-" (last pre before) = false.
Proof.
  induction words as [|a r IH]; intros before p.
  - simpl. split; [contradiction|].
    intros (pre & post & H & _). destruct pre; discriminate H.
  - assert (Hrest : In p (plainWords (JsString.startsWith "-" a) r)
                    <-> exists pre post,
                          a :: r = ((a :: pre) ++ p :: post)%list
                          /\ p <> "" /\ JsString.startsWith "-" p = false
                          /\ JsString.startsWith "-" (last (a :: pre) before) = false).
    { rewrite IH. split; intros (pre & post & H & Hp & Hd & Hl); exists pre, post.
      - rewrite last_cons_default. repeat split; auto. simpl. now rewrite H.
      - rewrite last_cons_default in Hl. repeat split; auto. simpl in H. now injection H. }
    simpl plainWords.
    destruct (negb (a =? "")%string && negb (JsString.startsWith "-" a)
              && negb (JsString.startsWith "-" before))%bool eqn:Hkeep.
    + apply Bool.andb_true_iff in Hkeep as [Hkeep Hb].
      apply Bool.andb_true_iff in Hkeep as [Ha Hd].
      apply Bool.negb_true_iff in Ha, Hd, Hb. apply String.eqb_neq in Ha.
      split.
      * intros [<-|Hin].
        -- exists [], r. repeat split; auto.
        -- apply Hrest in Hin. destruct Hin as (pre & post & H).
           now exists (a :: pre), post.
      * intros (pre & post & H & Hp & Hdp & Hl).
        destruct pre as [|a' pre].
        -- simpl in H. injection H as -> _. now left.
        -- right. apply Hrest. simpl in H. injection H as <- H.
           exists pre, post. repeat split; auto. simpl. now rewrite H.
    + split.
      * intros Hin. apply Hrest in Hin. destruct Hin as (pre & post & H).
        now exists (a :: pre), post.
      * intros (pre & post & H & Hp & Hdp & Hl).
        destruct pre as [|a' pre].
        -- exfalso. simpl in H, Hl. injection H as -> _.
           apply String.eqb_neq in Hp. now rewrite Hp, Hdp, Hl in Hkeep.
        -- apply Hrest. simpl in H. injection H as <- H.
           exists pre, post. repeat split; auto. simpl. now rewrite H.
Qed.

(** The positional arguments are the words after the first two of
    [argv] that are not empty, do not start with a dash and do not come
    right after a word that starts with a dash, in their order: the value
    of an option is never a positional, wherever the option stands (nor
    is the word after a flag that takes no value, [--dry-run] or
    [--yes]), and every other plain word is one. *)
Theorem getPositionalArg_positions (args : list string) :
  (forall index,
     getPositionalArg index args = nth_error (plainWords false (skipn 2 args)) index)
  /\ forall p,
       (exists index, getPositionalArg index args = Some p)
       <-> exists pre post,
             skipn 2 args = (pre ++ p :: post)%list
             /\ p <> "" /\ JsString.startsWith "-" p = false
             /\ JsString.startsWith "-" (last pre "") = false.
Proof.
  split.
  - intros index. unfold getPositionalArg. now rewrite positionals_plainWords.
  - intros p. unfold getPositionalArg. rewrite positionals_plainWords.
    rewrite <- (plainWords_positions (skipn 2 args) "" p).
    change (JsString.startsWith "-" "") with false.
    split.
    + intros [index H]. now apply nth_error_In in H.
    + intros H. apply In_nth_error in H. exact H.
Qed.

(** ** The names of tokens *)

Lemma lowerChar_space (c : ascii) :
  JsString.isSpace (JsString.lowerChar c) = JsString.isSpace c.
Proof.
  destruct c as [[] [] [] [] [] [] [] []]; reflexivity.
Qed.

Lemma lowerChar_idempotent (c : ascii) :
  JsString.lowerChar (JsString.lowerChar c) = JsString.lowerChar c.
Proof.
  destruct c as [[] [] [] [] [] [] [] []]; reflexivity.
Qed.

Lemma toLowerCase_idempotent (s : string) :
  JsString.toLowerCase (JsString.toLowerCase s) = JsString.toLowerCase s.
Proof.
  induction s as [|c s IH]; simpl; [reflexivity|].
  now rewrite lowerChar_idempotent, IH.
Qed.

Lemma trimStart_toLowerCase (s : string) :
  JsString.trimStart (JsString.toLowerCase s)
  = JsString.toLowerCase (JsString.trimStart s).
Proof.
  induction s as [|c s IH]; simpl; [reflexivity|].
  rewrite lowerChar_space. destruct (JsString.isSpace c); [exact IH|reflexivity].
Qed.

Lemma trimEnd_toLowerCase (s : string) :
  JsString.trimEnd (JsString.toLowerCase s)
  = JsString.toLowerCase (JsString.trimEnd s).
Proof.
  induction s as [|c s IH]; simpl; [reflexivity|].
  rewrite IH, lowerChar_space.
  destruct (JsString.trimEnd s); simpl; [|reflexivity].
  destruct (JsString.isSpace c); reflexivity.
Qed.

Lemma trim_toLowerCase (s : string) :
  JsString.trim (JsString.toLowerCase s) = JsString.toLowerCase (JsString.trim s).
Proof.
  unfold JsString.trim. now rewrite trimStart_toLowerCase, trimEnd_toLowerCase.
Qed.

Lemma trimEnd_idempotent (s : string) :
  JsString.trimEnd (JsString.trimEnd s) = JsString.trimEnd s.
Proof.
  induction s as [|c s IH]; simpl; [reflexivity|].
  destruct (JsString.trimEnd s) as [|x y] eqn:Hs.
  - destruct (JsString.isSpace c) eqn:Hc; simpl; [reflexivity|]. now rewrite Hc.
  - change (JsString.trimEnd (String c (String x y))) with
      (match JsString.trimEnd (String x y) with
       | EmptyString => if JsString.isSpace c then EmptyString else String c EmptyString
       | r' => String c r'
       end).
    now rewrite IH.
Qed.

Lemma trimStart_clean (s : string) : startsClean (JsString.trimStart s).
Proof.
  induction s as [|c s IH]; simpl; [exact I|].
  destruct (JsString.isSpace c) eqn:Hc; [exact IH|exact Hc].
Qed.

Lemma trimStart_of_clean (s : string) : startsClean s -> JsString.trimStart s = s.
Proof.
  destruct s as [|c s]; simpl; [reflexivity|]. now intros ->.
Qed.

Lemma trimEnd_clean (s : string) : startsClean s -> startsClean (JsString.trimEnd s).
Proof.
  destruct s as [|c s]; simpl; [auto|]. intros Hc.
  destruct (JsString.trimEnd s); [rewrite Hc|]; exact Hc.
Qed.

Lemma trim_idempotent (s : string) : JsString.trim (JsString.trim s) = JsString.trim s.
Proof.
  unfold JsString.trim.
  rewrite (trimStart_of_clean (JsString.trimEnd (JsString.trimStart s))).
  - apply trimEnd_idempotent.
  - apply trimEnd_clean, trimStart_clean.
Qed.

Lemma trimStart_blanks (blanks s : string) :
  allChars JsString.isSpace blanks = true ->
  JsString.trimStart (blanks ++ s) = JsString.trimStart s.
Proof.
  induction blanks as [|c b IH]; simpl; [reflexivity|].
  intros H. apply andb_true_iff in H. destruct H as [Hc Hb]. rewrite Hc. now apply IH.
Qed.

Lemma trimEnd_of_blanks (blanks : string) :
  allChars JsString.isSpace blanks = true -> JsString.trimEnd blanks = "".
Proof.
  induction blanks as [|c b IH]; simpl; [reflexivity|].
  intros H. apply andb_true_iff in H. destruct H as [Hc Hb]. now rewrite IH, Hc.
Qed.

Lemma trimEnd_blanks (s blanks : string) :
  allChars JsString.isSpace blanks = true ->
  JsString.trimEnd (s ++ blanks) = JsString.trimEnd s.
Proof.
  intros Hb. induction s as [|c s IH]; simpl.
  - now apply trimEnd_of_blanks.
  - now rewrite IH.
Qed.

Lemma trimStart_append (s t : string) :
  JsString.trimStart (s ++ t)
  = match JsString.trimStart s with
    | EmptyString => JsString.trimStart t
    | r => r ++ t
    end.
Proof.
  induction s as [|c s IH]; simpl.
  - now destruct (JsString.trimStart t).
  - destruct (JsString.isSpace c); [exact IH|reflexivity].
Qed.

Lemma append_empty_r (s : string) : s ++ "" = s.
Proof.
  induction s as [|c s IH]; simpl; [reflexivity|]. now rewrite IH.
Qed.

Lemma trim_blanks (left s right : string) :
  allChars JsString.isSpace left = true ->
  allChars JsString.isSpace right = true ->
  JsString.trim (left ++ s ++ right) = JsString.trim s.
Proof.
  intros Hl Hr. unfold JsString.trim.
  rewrite trimStart_blanks by assumption. rewrite trimStart_append.
  destruct (JsString.trimStart s) as [|c r] eqn:Hs.
  - rewrite <- (append_empty_r right) at 1.
    rewrite trimStart_blanks by assumption. reflexivity.
  - now apply trimEnd_blanks.
Qed.

(** [normalizeTokenName] does not see the case of the letters nor the
    blanks around the name. *)
Lemma normalizeTokenName_blind (s s' left right : string) :
  allChars JsString.isSpace left = true ->
  allChars JsString.isSpace right = true ->
  JsString.toLowerCase s' = JsString.toLowerCase (left ++ s ++ right) ->
  normalizeTokenName s' = normalizeTokenName s.
Proof.
  intros Hl Hr Heq. unfold normalizeTokenName.
  rewrite <- !trim_toLowerCase, Heq, !trim_toLowerCase.
  now rewrite trim_blanks.
Qed.

(** [normalizeTokenName] is idempotent: a normalized name is the key it
    is looked up under. *)
Theorem normalizeTokenName_idempotent (s : string) :
  normalizeTokenName (normalizeTokenName s) = normalizeTokenName s.
Proof.
  unfold normalizeTokenName.
  now rewrite trim_toLowerCase, trim_idempotent, toLowerCase_idempotent.
Qed.

Lemma toLowerCase_empty (s : string) : JsString.toLowerCase s = "" -> s = "".
Proof.
  destruct s; [reflexivity|discriminate].
Qed.

(** [requireToken] finds a token under any spelling of its name that
    differs by the case of the letters and by blanks around it. *)
Theorem requireToken_spelling (registry : list (string * TokenConfig))
    (s s' left right : string) (t : TokenMeta) :
  s <> "" ->
  allChars JsString.isSpace left = true ->
  allChars JsString.isSpace right = true ->
  JsString.toLowerCase s' = JsString.toLowerCase (left ++ s ++ right) ->
  requireToken registry (Some s) = Ok t ->
  requireToken registry (Some s') = Ok t.
Proof.
  intros Hs Hl Hr Heq Hok.
  assert (Hs' : s' <> "").
  { intros ->. simpl in Heq. symmetry in Heq. apply toLowerCase_empty in Heq.
    destruct left; [|discriminate]. destruct s; [congruence|discriminate]. }
  unfold requireToken in *.
  apply String.eqb_neq in Hs, Hs'. rewrite Hs in Hok. rewrite Hs'.
  rewrite (normalizeTokenName_blind s s' left right Hl Hr Heq).
  destruct (lookupToken registry (normalizeTokenName s)); [exact Hok|discriminate].
Qed.

Lemma requireToken_spelling_witness :
  requireToken TOKENS (Some "  cRcLD ") = requireToken TOKENS (Some "CRCLd").
Proof.
  rewrite (requireToken_spelling TOKENS "CRCLd" "  cRcLD " "  " " "
             (Own {| name := "CRCLd";
                     bsc := {| wrapper := "0x8edE6AffCBe962e642f83d84b8Af66313A700dDf";
                               adapter := "0xF351FA44A73E6D1E9c4C2927A8D2b8c69a8B8897";
                               underlying :=
                                 Some "0x992879cd8ce0c312d98648875b5a8d6d042cbf34" |};
                     hyperEvm_oft := "0xe74aA6C4050A15790525eB11cc4562c664dC67C9";
                     hyperCore_tokenIndex := 409 |}));
    (discriminate || reflexivity).
Defined.

(** ** Elapsed time *)

(** For a time that is not negative, [formatElapsedMs] prints the whole
    seconds that have passed, as minutes and less than sixty seconds; the
    minutes are left out when there are none. *)
Theorem formatElapsedMs_floor (ms : Z) :
  0 <= ms ->
  exists m r,
    0 <= m /\ 0 <= r < 60
    /\ 1000 * (60 * m + r) <= ms < 1000 * (60 * m + r) + 1000
    /\ formatElapsedMs ms
       = (if m =? 0 then JsString.ofInt r ++ "s"
          else JsString.ofInt m ++ "m" ++ JsString.ofInt r ++ "s").
Proof.
  intros Hms. exists (ms / 1000 / 60), (Z.rem (ms / 1000) 60).
  assert (Hs : 0 <= ms / 1000) by (apply Z.div_pos; lia).
  assert (Hm : 0 <= ms / 1000 / 60) by (apply Z.div_pos; lia).
  rewrite Z.rem_mod_nonneg by lia.
  pose proof (Z.mod_pos_bound (ms / 1000) 60 ltac:(lia)) as Hr.
  pose proof (Z.div_mod (ms / 1000) 60 ltac:(lia)) as Hd.
  pose proof (Z.mod_pos_bound ms 1000 ltac:(lia)) as Hr'.
  pose proof (Z.div_mod ms 1000 ltac:(lia)) as Hd'.
  split; [exact Hm|]. split; [exact Hr|]. split; [lia|].
  unfold formatElapsedMs. cbv zeta. rewrite Z.rem_mod_nonneg by lia.
  destruct (ms / 1000 / 60 =? 0) eqn:Hz.
  - apply Z.eqb_eq in Hz. rewrite Hz. reflexivity.
  - apply Z.eqb_neq in Hz.
    replace (ms / 1000 / 60 >? 0) with true by (symmetry; apply Z.gtb_lt; lia).
    reflexivity.
Qed.

Lemma formatElapsedMs_floor_witness :
  exists m r,
    0 <= m /\ 0 <= r < 60
    /\ 1000 * (60 * m + r) <= 125999 < 1000 * (60 * m + r) + 1000
    /\ formatElapsedMs 125999
       = (if m =? 0 then JsString.ofInt r ++ "s"
          else JsString.ofInt m ++ "m" ++ JsString.ofInt r ++ "s").
Proof.
  apply (formatElapsedMs_floor 125999). lia.
Defined.

(** ** The spot balance *)

(** When the list of balances has several entries for the token index,
    [fetchHyperCoreSpotTotal] answers with the first: its total (as it
    is when it is a string, converted when it is not), or [null] when it
    has none, whatever the entries after it hold. *)
Theorem fetchHyperCoreSpotTotal_first_entry {W : Type} (host : Host W) (lib : Library)
    (user : string) (tokenIndex : Z) (s : State W)
    (res : HttpResponse) (w' : W) (data : Json)
    (pre post : list Json) (b : Json) :
  fetchInfo host user (world s) = (FetchResponds res, w') ->
  ok res = true ->
  json res = Ok data ->
  balancesOf data = JArray (pre ++ b :: post)%list ->
  findEntry lib tokenIndex pre = Ok None ->
  isEntryOf lib tokenIndex b = Ok true ->
  let s1 := {| world := w'; frame := frame s;
               trace := (trace s ++ [EvFetch user (FetchResponds res)])%list |} in
  fetchHyperCoreSpotTotal host lib user tokenIndex s = call (totalOf lib (Some b)) s1
  /\ (forall t, property "total" b = Some (JString t) ->
      fetchHyperCoreSpotTotal host lib user tokenIndex s = (Ret (Some t), s1))
  /\ (property "total" b = None \/ property "total" b = Some JNull ->
      fetchHyperCoreSpotTotal host lib user tokenIndex s = (Ret None, s1)).
Proof.
  intros Hf Hok Hj Hbal Hpre Hb s1.
  assert (Hrun : fetchHyperCoreSpotTotal host lib user tokenIndex s
                 = call (totalOf lib (Some b)) s1).
  { rewrite (fetchHyperCoreSpotTotal_body host lib user tokenIndex s res w' data Hf Hok Hj).
    rewrite Hbal, (findEntry_first _ _ _ _ _ Hpre Hb). reflexivity. }
  split; [exact Hrun|]. split.
  - intros t Ht. rewrite Hrun. unfold totalOf. now rewrite Ht.
  - intros [Ht|Ht]; rewrite Hrun; unfold totalOf; now rewrite Ht.
Qed.

Lemma fetchHyperCoreSpotTotal_first_entry_witness :
  fst (fetchHyperCoreSpotTotal Sim.host Sim.lib "0xOwner" 409 (initial twoEntries))
  = Ret None.
Proof.
  rewrite (proj1 (fetchHyperCoreSpotTotal_first_entry Sim.host Sim.lib "0xOwner" 409
             (initial twoEntries)
             {| ok := true; status := 200; statusText := "OK";
                json := Ok (JObject
                              [("balances",
                                JArray
                                  [ JObject [("token", JNumber 1); ("total", JString "7")];
                                    JNull;
                                    JObject [("coin", JString "CRCLd");
                                             ("token", JNumber 409)];
                                    JObject [("token", JNumber 409);
                                             ("total", JString "12.5")] ])]) |}
             {| Sim.now := 0; Sim.latency := 0; Sim.answers := []; Sim.idle := Ok 0;
                Sim.exits := []; Sim.infos := [] |}
             (JObject
                [("balances",
                  JArray
                    [ JObject [("token", JNumber 1); ("total", JString "7")];
                      JNull;
                      JObject [("coin", JString "CRCLd"); ("token", JNumber 409)];
                      JObject [("token", JNumber 409); ("total", JString "12.5")] ])])
             [ JObject [("token", JNumber 1); ("total", JString "7")]; JNull ]
             [ JObject [("token", JNumber 409); ("total", JString "12.5")] ]
             (JObject [("coin", JString "CRCLd"); ("token", JNumber 409)])
             eq_refl eq_refl eq_refl eq_refl eq_refl eq_refl));
    reflexivity.
Defined.

(** ** The timers of [pollUntil] *)

Lemma sleeps_app (t1 t2 : list Event) : sleeps (t1 ++ t2)%list = (sleeps t1 ++ sleeps t2)%list.
Proof. apply flat_map_app. Qed.

Section PollerSleeps.

Local Open Scope list_scope.

Context {W T : Type}.
Variable host : Host W.
Variable label : string.
Variable read : M W T.
Variable accept : T -> bool.
Variables timeout interval started : Z.

Hypothesis timely : Timely host.
Hypothesis steady : Steady host read.
Hypothesis silent : NoSleep read.

Lemma pollLoop_sleeps (fuel : nat) : forall s, exists n,
  sleeps (trace (snd (pollLoop host fuel label read accept timeout interval started s)))
  = sleeps (trace s) ++ repeat interval n
  /\ (n = 0%nat
      \/ (Z.of_nat n - 1) * interval <= timeout - (clock host (world s) - started)).
Proof.
  induction fuel as [|fuel IH]; intros s.
  - exists 0%nat. simpl. rewrite List.app_nil_r. auto.
  - destruct (pollLoop_cases host read accept timeout started s)
      as [(v & s1 & Hr & Hok)|[(e & s1 & Hr)|[(s1 & Hr)|
          [(v & s1 & Hr & Hok & Ht)|(v & s1 & Hr & Hok & Ht)]]]].
    + rewrite (pollLoop_satisfied host label read accept timeout interval started
                 _ _ _ _ Hr Hok).
      exists 0%nat. specialize (silent s). rewrite Hr in silent. simpl in *.
      rewrite List.app_nil_r. auto.
    + rewrite (pollLoop_read_throws host label read accept timeout interval started
                 _ _ _ _ Hr).
      exists 0%nat. specialize (silent s). rewrite Hr in silent. simpl in *.
      rewrite List.app_nil_r. auto.
    + rewrite (pollLoop_read_pending host label read accept timeout interval started
                 _ _ _ Hr).
      exists 0%nat. specialize (silent s). rewrite Hr in silent. simpl in *.
      rewrite List.app_nil_r. auto.
    + rewrite (pollLoop_timeout host label read accept timeout interval started
                 _ _ _ _ Hr Hok Ht).
      exists 0%nat. specialize (silent s). rewrite Hr in silent. simpl in *.
      rewrite sleeps_app, silent. simpl. auto.
    + rewrite (pollLoop_again host label read accept timeout interval started
                 _ _ _ _ Hr Hok Ht).
      destruct (IH (snd (sleep host interval s1))) as (n & Hn & Hbound).
      exists (S n). split.
      * rewrite Hn. simpl trace. rewrite sleeps_app.
        specialize (silent s). rewrite Hr in silent. simpl in silent. rewrite silent.
        simpl. now rewrite <- List.app_assoc.
      * right. specialize (steady s). rewrite Hr in steady. simpl in steady.
        specialize (timely interval (world s1)). simpl in Hbound.
        rewrite Nat2Z.inj_succ.
        destruct Hbound as [->|Hbound]; [simpl|]; lia.
Qed.

End PollerSleeps.

Lemma readContractM_no_sleep {W : Type} (host : Host W) c contract fn :
  NoSleep (readContractM host c contract fn).
Proof.
  intros s. unfold readContractM.
  destruct (readContract host c contract fn (world s)) as [[v|e] w']; simpl;
    rewrite ?sleeps_app; simpl; now rewrite ?List.app_nil_r.
Qed.

(** On a host whose timers take their time, with a read that sets no
    timer and during which the clock does not go back, every timer that
    [pollUntil] sets is one of [intervalMs], and the timers are no more
    than the timeout has room for, plus one. *)
Theorem pollUntil_sleeps {W T : Type} (host : Host W) (label : string)
    (read : M W T) (accept : T -> bool) (opts : option PollOpts)
    (fuel : nat) (s : State W) :
  Timely host -> Steady host read -> NoSleep read ->
  exists n,
    sleeps (trace (snd (pollUntil host fuel label read accept opts s)))
    = (sleeps (trace s) ++ repeat (intervalOf opts) n)%list
    /\ (n = 0%nat \/ (Z.of_nat n - 1) * intervalOf opts <= timeoutOf opts)
    /\ (0 < intervalOf opts -> 0 <= timeoutOf opts ->
        Z.of_nat n <= timeoutOf opts / intervalOf opts + 1).
Proof.
  intros Htimely Hsteady Hsilent.
  rewrite pollUntil_unfold.
  destruct (pollLoop_sleeps host label read accept (timeoutOf opts) (intervalOf opts)
              (clock host (world s)) Htimely Hsteady Hsilent fuel
              (record (EvPollUntil label) s)) as (n & Hn & Hbound).
  exists n. split; [|split].
  - rewrite Hn. simpl. rewrite sleeps_app. simpl. now rewrite List.app_nil_r.
  - simpl in Hbound. destruct Hbound as [->|Hbound]; [now left|right; lia].
  - intros Hi Ht. simpl in Hbound. destruct Hbound as [->|Hbound].
    + pose proof (Z.div_pos (timeoutOf opts) (intervalOf opts) Ht Hi). simpl. lia.
    + assert (Z.of_nat n - 1 <= timeoutOf opts / intervalOf opts); [|lia].
      apply Z.div_le_lower_bound; [exact Hi|lia].
Qed.

Lemma pollUntil_sleeps_witness :
  exists n,
    sleeps (trace (snd (pollUntil Sim.host 5 "credit"
                          (readContractM Sim.host BscChain "0xToken" (BalanceOf "0xOwner"))
                          (atLeast 150) shortPoll (initial (Sim.quiet [] 140)))))
    = (sleeps (trace (initial (Sim.quiet [] 140))) ++ repeat (intervalOf shortPoll) n)%list
    /\ (n = 0%nat \/ (Z.of_nat n - 1) * intervalOf shortPoll <= timeoutOf shortPoll)
    /\ (0 < intervalOf shortPoll -> 0 <= timeoutOf shortPoll ->
        Z.of_nat n <= timeoutOf shortPoll / intervalOf shortPoll + 1).
Proof.
  apply (pollUntil_sleeps Sim.host "credit"
           (readContractM Sim.host BscChain "0xToken" (BalanceOf "0xOwner"))
           (atLeast 150) shortPoll 5 (initial (Sim.quiet [] 140))).
  - intros ms w. simpl. lia.
  - intros s. unfold readContractM. simpl readContract.
    destruct (hd (Sim.idle (world s)) (Sim.answers (world s))); simpl; lia.
  - apply readContractM_no_sleep.
Defined.

(** ** The flows end *)

Section Termination.

Context {W : Type}.
Variable host : Host W.

Lemma Ends_ret {A : Type} (a : A) : Ends (@ret W A a).
Proof. intros s. discriminate. Qed.

Lemma Ends_throw {A : Type} (e : JsError) : Ends (@throw W A e).
Proof. intros s. discriminate. Qed.

Lemma Ends_bind {A B : Type} (m : M W A) (f : A -> M W B) :
  Ends m -> (forall a, Ends (f a)) -> Ends (bind m f).
Proof.
  intros Hm Hf s. unfold bind. specialize (Hm s).
  destruct (m s) as [[a|e|] s1]; simpl in *; [apply Hf|discriminate|congruence].
Qed.

Lemma Ends_if {A : Type} (b : bool) (m1 m2 : M W A) :
  Ends m1 -> Ends m2 -> Ends (if b then m1 else m2).
Proof. now destruct b. Qed.

Lemma Ends_call {A : Type} (r : Result A) : Ends (@call W A r).
Proof. destruct r; [apply Ends_ret|apply Ends_throw]. Qed.

Lemma Ends_orThrow (x : option string) (message : string) : Ends (@orThrow W x message).
Proof.
  unfold orThrow. destruct x; [destruct (truthy _)|];
    first [apply Ends_ret|apply Ends_throw].
Qed.

Lemma Ends_ownConfig (m : TokenMeta) (property : string) : Ends (@ownConfig W m property).
Proof. destruct m; [apply Ends_ret|apply Ends_throw]. Qed.

Lemma Ends_consoleLog (line : string) : Ends (@consoleLog W line).
Proof. intros s. discriminate. Qed.

Lemma Ends_dateNow : Ends (dateNow host).
Proof. intros s. discriminate. Qed.

Lemma Ends_getFrame : Ends (@getFrame W).
Proof. intros s. discriminate. Qed.

Lemma Ends_setFrame (f : Frame) : Ends (@setFrame W f).
Proof. intros s. discriminate. Qed.

Lemma Ends_fetchM (user : string) : Ends (fetchM host user).
Proof.
  intros s. unfold fetchM.
  destruct (fetchInfo host user (world s)) as [[e|res] w']; discriminate.
Qed.

Lemma Ends_runStep (stepName script : string) (args : list string) :
  Ends (runStep host stepName script args).
Proof.
  intros s. unfold runStep.
  destruct (spawn host script args (world s)) as [r w'].
  destruct (childVerdict stepName r); discriminate.
Qed.

Lemma Ends_fetchHyperCoreSpotTotal (lib : Library) (user : string) (tokenIndex : Z) :
  Ends (fetchHyperCoreSpotTotal host lib user tokenIndex).
Proof.
  unfold fetchHyperCoreSpotTotal.
  apply Ends_bind; [apply Ends_fetchM|intros res].
  apply Ends_if; [apply Ends_throw|].
  apply Ends_bind; [apply Ends_call|intros data].
  destruct (balancesOf data); try apply Ends_throw.
  apply Ends_bind; [apply Ends_call|intros bal]. apply Ends_call.
Qed.

Lemma Ends_spotTotalToUnits (lib : Library) (x : option string) (d : Z) :
  Ends (@spotTotalToUnits W lib x d).
Proof.
  unfold spotTotalToUnits. destruct x; [destruct (truthy _)|];
    first [apply Ends_call|apply Ends_ret].
Qed.

Lemma Ends_readCoreSpot (lib : Library) user tokenIndex d :
  Ends (FlowBscToHypeCore.readCoreSpot host lib user tokenIndex d).
Proof.
  unfold FlowBscToHypeCore.readCoreSpot.
  apply Ends_bind; [apply Ends_fetchHyperCoreSpotTotal|intros x].
  apply Ends_spotTotalToUnits.
Qed.

Lemma Ends_waitingRead (lib : Library) c contract owner
    window what started expectedAtLeast d tokenName :
  Ends (waitingRead host lib c contract owner window what
          started expectedAtLeast d tokenName).
Proof.
  unfold waitingRead.
  apply Ends_bind; [apply readContractM_ends|intros bal].
  apply Ends_bind; [apply Ends_dateNow|intros now].
  apply Ends_bind; [apply Ends_getFrame|intros fr].
  apply Ends_bind; [|intros _; apply Ends_ret].
  apply Ends_if; [|apply Ends_ret].
  apply Ends_bind; [apply Ends_setFrame|intros _]. apply Ends_consoleLog.
Qed.

(** The clock through a computation. *)
Lemma Steady_bind {A B : Type} (m : M W A) (f : A -> M W B) :
  Steady host m -> (forall a, Steady host (f a)) -> Steady host (bind m f).
Proof.
  intros Hm Hf s. unfold bind. specialize (Hm s).
  destruct (m s) as [[a|e|] s1]; simpl in *; [|exact Hm|exact Hm].
  specialize (Hf a s1). lia.
Qed.

Lemma Steady_still {A : Type} (m : M W A) :
  (forall s, world (snd (m s)) = world s) -> Steady host m.
Proof.
  intros H s. rewrite H. lia.
Qed.

Lemma Steady_if {A : Type} (b : bool) (m1 m2 : M W A) :
  Steady host m1 -> Steady host m2 -> Steady host (if b then m1 else m2).
Proof. now destruct b. Qed.

Lemma Steady_call {A : Type} (r : Result A) : Steady host (@call W A r).
Proof. apply Steady_still. intros s. now destruct r. Qed.

Hypothesis monotone : Monotone host.

Lemma Steady_readContractM c contract fn : Steady host (readContractM host c contract fn).
Proof.
  intros s. unfold readContractM.
  pose proof (proj1 monotone c contract fn (world s)) as H.
  destruct (readContract host c contract fn (world s)) as [[v|e] w']; exact H.
Qed.

Lemma Steady_fetchM (user : string) : Steady host (fetchM host user).
Proof.
  intros s. unfold fetchM.
  pose proof (proj2 monotone user (world s)) as H.
  destruct (fetchInfo host user (world s)) as [[e|res] w']; exact H.
Qed.

Lemma Steady_readCoreSpot (lib : Library) user tokenIndex d :
  Steady host (FlowBscToHypeCore.readCoreSpot host lib user tokenIndex d).
Proof.
  unfold FlowBscToHypeCore.readCoreSpot, fetchHyperCoreSpotTotal.
  apply Steady_bind.
  - apply Steady_bind; [apply Steady_fetchM|intros res].
    apply Steady_if; [now apply Steady_still|].
    apply Steady_bind; [apply Steady_call|intros data].
    destruct (balancesOf data); try (now apply Steady_still).
    apply Steady_bind; [apply Steady_call|intros bal]. apply Steady_call.
  - intros x. unfold spotTotalToUnits.
    destruct x; [destruct (truthy _)|];
      first [apply Steady_call|now apply Steady_still].
Qed.

Lemma Steady_waitingRead (lib : Library) c contract owner
    window what started expectedAtLeast d tokenName :
  Steady host (waitingRead host lib c contract owner window what
                 started expectedAtLeast d tokenName).
Proof.
  unfold waitingRead.
  apply Steady_bind; [apply Steady_readContractM|intros bal].
  apply Steady_bind; [now apply Steady_still|intros now].
  apply Steady_bind; [now apply Steady_still|intros fr].
  apply Steady_bind; [|intros _; now apply Steady_still].
  apply Steady_if; [|now apply Steady_still].
  apply Steady_bind; [now apply Steady_still|intros _]. now apply Steady_still.
Qed.

Hypothesis timely : Timely host.

(** With fuel for all the turns that the timeout has room for, the
    poller ends. *)
Lemma Ends_pollUntil {T : Type} (fuel : nat) (label : string)
    (read : M W T) (accept : T -> bool) (opts : option PollOpts) :
  Steady host read -> Ends read -> 0 < intervalOf opts ->
  (pollFuel opts <= fuel)%nat ->
  Ends (pollUntil host fuel label read accept opts).
Proof.
  intros Hsteady Hends Hpos Hfuel s.
  replace fuel with (pollFuel opts + (fuel - pollFuel opts))%nat by lia.
  destruct (pollUntil host (pollFuel opts) label read accept opts s) as [o s'] eqn:Hrun.
  assert (Ho : o <> Pending).
  { replace o with (fst (pollUntil host (pollFuel opts) label read accept opts s))
      by now rewrite Hrun.
    rewrite pollUntil_unfold. unfold pollFuel.
    apply pollLoop_ends; try assumption.
    pose proof (pollFuel_enough opts Hpos).
    change (world (record (EvPollUntil label) s)) with (world s). lia. }
  rewrite (pollUntil_more_fuel host label read accept opts _ _ _ _ _ Hrun Ho). exact Ho.
Qed.

End Termination.

Ltac ends_step :=
  lazymatch goal with
  | |- Ends (bind _ _) => apply Ends_bind; [|intros ?]
  | |- Ends (if _ then _ else _) => apply Ends_if
  | |- Ends (ret _) => apply Ends_ret
  | |- Ends (throw _) => apply Ends_throw
  | |- Ends (call _) => apply Ends_call
  | |- Ends (orThrow _ _) => apply Ends_orThrow
  | |- Ends (ownConfig _ _) => apply Ends_ownConfig
  | |- Ends (consoleLog _) => apply Ends_consoleLog
  | |- Ends (dateNow _) => apply Ends_dateNow
  | |- Ends (setFrame _) => apply Ends_setFrame
  | |- Ends (readContractM _ _ _ _) => apply readContractM_ends
  | |- Ends (fetchHyperCoreSpotTotal _ _ _ _) => apply Ends_fetchHyperCoreSpotTotal
  | |- Ends (spotTotalToUnits _ _ _) => apply Ends_spotTotalToUnits
  | |- Ends (runStep _ _ _ _) => apply Ends_runStep
  | |- Ends (pollUntil _ _ _ _ _ _) => apply Ends_pollUntil
  end.

Ltac enough_fuel :=
  unfold pollFuel;
  lazymatch goal with
  | |- (S (S (Z.to_nat ?q)) <= _)%nat =>
      let v := eval vm_compute in q in
      change q with v; lia
  end.

(** On a host whose timers take their time and whose clock does not go
    back, both flows end, by a result or by an error, whatever the chains
    answer: each confirmation poll gives up when its timeout has passed.
    The fuel is that of the longest poll (24 hours at one read a second
    for [flowBscToHypeCore], 30 minutes at one read in five seconds for
    [flowHypeCoreToBsc]). *)
Theorem flows_end {W : Type} (host : Host W) (lib : Library)
    (registry : list (string * TokenConfig)) (process : Process)
    (fuel : nat) (s : State W) :
  Timely host -> Monotone host ->
  (86402 <= Z.of_nat fuel ->
   fst (FlowBscToHypeCore.main host lib registry process fuel s) <> Pending)
  /\ (362 <= Z.of_nat fuel ->
      fst (FlowHypeCoreToBsc.main host lib registry process fuel s) <> Pending).
Proof.
  intros Htimely Hmono. split; intros Hfuel; revert s.
  - change (Ends (FlowBscToHypeCore.main host lib registry process fuel)).
    unfold FlowBscToHypeCore.main. cbv zeta.
    repeat ends_step; try assumption.
    all: first [apply Steady_readContractM; assumption
               |apply Steady_waitingRead; assumption
               |apply Steady_readCoreSpot; assumption
               |apply readContractM_ends
               |apply Ends_waitingRead
               |apply Ends_readCoreSpot
               |reflexivity
               |enough_fuel].
  - change (Ends (FlowHypeCoreToBsc.main host lib registry process fuel)).
    unfold FlowHypeCoreToBsc.main. cbv zeta.
    repeat ends_step; try assumption.
    all: first [apply Steady_readContractM; assumption
               |apply Steady_waitingRead; assumption
               |apply Steady_readCoreSpot; assumption
               |apply readContractM_ends
               |apply Ends_waitingRead
               |apply Ends_readCoreSpot
               |reflexivity
               |enough_fuel].
Qed.

Lemma Sim_monotone : Monotone Sim.host.
Proof.
  split; intros; simpl; lia.
Qed.

Lemma flows_end_witness :
  fst (FlowHypeCoreToBsc.main Sim.host Sim.lib TOKENS (demoProcess "0xABC" []) 400
         (initial demoWorld)) <> Pending.
Proof.
  apply (proj2 (flows_end Sim.host Sim.lib TOKENS (demoProcess "0xABC" []) 400
                  (initial demoWorld) Sim_timely Sim_monotone)).
  vm_compute. discriminate.
Defined.

(** ** The order of the hops *)

Lemma spawned_app (t1 t2 : list Event) :
  spawned (t1 ++ t2)%list = (spawned t1 ++ spawned t2)%list.
Proof. apply flat_map_app. Qed.

Lemma spawned_none (tr : list Event) : Forall (planned []) tr -> spawned tr = [].
Proof.
  induction 1 as [|ev tr Hev _ IH]; [reflexivity|].
  destruct ev; simpl in *; try exact IH. contradiction.
Qed.

Section Performs.

Local Open Scope list_scope.

Context {W : Type}.

Lemma performs_quiet {A : Type} (m : M W A) :
  obeys (Forall (planned [])) (fun _ => Forall (planned [])) m -> performs m [].
Proof.
  intros H s. destruct (H s) as (tr & Htr & Hall). exists tr. split; [exact Htr|].
  assert (Hnone : spawned tr = []) by (apply spawned_none; now destruct (fst (m s))).
  rewrite Hnone. destruct (fst (m s)); [reflexivity|now exists []|now exists []].
Qed.

Lemma performs_bind {A B : Type} (m : M W A) (f : A -> M W B)
    (l1 l2 : list (string * list string)) :
  performs m l1 ->
  (forall a s s', m s = (Ret a, s') -> performs (f a) l2) ->
  performs (bind m f) (l1 ++ l2).
Proof.
  intros Hm Hf s. unfold bind.
  destruct (Hm s) as (t1 & Ht1 & Hg1).
  destruct (m s) as [[a|e|] s1] eqn:Hrun; simpl in *.
  - destruct (Hf a s s1 Hrun s1) as (t2 & Ht2 & Hg2).
    exists (t1 ++ t2). rewrite Ht2, Ht1, List.app_assoc. split; [reflexivity|].
    rewrite spawned_app, Hg1.
    destruct (fst (f a s1)).
    + now rewrite Hg2.
    + destruct Hg2 as (rest & ->). exists rest. now rewrite List.app_assoc.
    + destruct Hg2 as (rest & ->). exists rest. now rewrite List.app_assoc.
  - exists t1. split; [exact Ht1|]. destruct Hg1 as (rest & ->).
    exists (rest ++ l2). now rewrite List.app_assoc.
  - exists t1. split; [exact Ht1|]. destruct Hg1 as (rest & ->).
    exists (rest ++ l2). now rewrite List.app_assoc.
Qed.

Lemma performs_bind_quiet {A B : Type} (m : M W A) (f : A -> M W B)
    (l : list (string * list string)) :
  obeys (Forall (planned [])) (fun _ => Forall (planned [])) m ->
  (forall a s s', m s = (Ret a, s') -> performs (f a) l) ->
  performs (bind m f) l.
Proof.
  intros Hm Hf. apply (performs_bind m f [] l); [now apply performs_quiet|exact Hf].
Qed.

Lemma performs_runStep (host : Host W) (stepName script : string) (args : list string) :
  performs (runStep host stepName script args) [(script, args)].
Proof.
  intros s. unfold runStep.
  destruct (spawn host script args (world s)) as [r w'].
  destruct (childVerdict stepName r) as [e|].
  - exists [EvSpawn script args r; EvThrow e]. simpl.
    rewrite <- List.app_assoc. split; [reflexivity|]. now exists [].
  - exists [EvSpawn script args r]. simpl. split; reflexivity.
Qed.

Lemma performs_bind_step {B : Type} (host : Host W) (stepName script : string)
    (args : list string) (f : unit -> M W B) (l : list (string * list string)) :
  performs (f tt) l ->
  performs (bind (runStep host stepName script args) f) ((script, args) :: l).
Proof.
  intros Hf. apply (performs_bind _ f [(script, args)] l); [apply performs_runStep|].
  intros [] _ _ _. exact Hf.
Qed.

End Performs.

(** A part of a flow that invokes no step executor. *)
Ltac quiet :=
  repeat flow_step;
  try (repeat constructor).

Ltac performs_step :=
  lazymatch goal with
  | |- performs (bind (runStep _ _ _ _) _) _ => apply performs_bind_step
  | |- performs (bind (orThrow _ _) _) _ =>
      apply performs_bind_quiet;
      [quiet
      |let H := fresh "Hgiven" in
       intros ? ? ? H; apply orThrow_value in H;
       try apply checked_address in H;
       try rewrite H; simpl text]
  | |- performs (bind _ _) _ => apply performs_bind_quiet; [quiet|intros ? _ _ _]
  | |- performs _ [] => apply performs_quiet; quiet
  end.

Lemma flowBscToHypeCore_performs {W : Type} (host : Host W) (lib : Library)
    (registry : list (string * TokenConfig)) (process : Process) (fuel : nat) :
  performs (FlowBscToHypeCore.main host lib registry process fuel)
    (planBscToHypeCore (argv process)).
Proof.
  unfold FlowBscToHypeCore.main, planBscToHypeCore. cbv zeta.
  repeat performs_step.
Qed.

Lemma flowHypeCoreToBsc_performs {W : Type} (host : Host W) (lib : Library)
    (registry : list (string * TokenConfig)) (process : Process) (fuel : nat) :
  performs (FlowHypeCoreToBsc.main host lib registry process fuel)
    (planHypeCoreToBsc (argv process)).
Proof.
  unfold FlowHypeCoreToBsc.main, planHypeCoreToBsc. cbv zeta.
  repeat performs_step.
Qed.

Lemma performs_initial {W A : Type} (m : M W A) (plan : list (string * list string))
    (w : W) :
  performs m plan ->
  exists rest,
    plan = (spawned (trace (snd (m (initial w)))) ++ rest)%list
    /\ (forall a, fst (m (initial w)) = Ret a -> rest = []).
Proof.
  intros H. destruct (H (initial w)) as (tr & Htr & Hrun).
  rewrite Htr. simpl.
  destruct (fst (m (initial w))) as [a|e|].
  - exists []. rewrite List.app_nil_r. auto.
  - destruct Hrun as (rest & ->). exists rest. split; [reflexivity|discriminate].
  - destruct Hrun as (rest & ->). exists rest. split; [reflexivity|discriminate].
Qed.

(** The step executors that a run of a flow has invoked are the first of
    the three of its plan, in the order of the plan, each once and with
    the arguments of the plan: no hop is skipped, repeated or taken out of
    turn.  A run that returns has invoked all three. *)
Theorem hops_in_order {W : Type} (host : Host W) (lib : Library)
    (registry : list (string * TokenConfig)) (process : Process)
    (fuel : nat) (w : W) :
  let r1 := FlowBscToHypeCore.main host lib registry process fuel (initial w) in
  let r2 := FlowHypeCoreToBsc.main host lib registry process fuel (initial w) in
  (exists rest,
     planBscToHypeCore (argv process) = (spawned (trace (snd r1)) ++ rest)%list
     /\ (fst r1 = Ret tt -> rest = []))
  /\ (exists rest,
        planHypeCoreToBsc (argv process) = (spawned (trace (snd r2)) ++ rest)%list
        /\ (fst r2 = Ret tt -> rest = [])).
Proof.
  intros r1 r2. split.
  - destruct (performs_initial _ _ w
                (flowBscToHypeCore_performs host lib registry process fuel))
      as (rest & Hplan & Hall).
    exists rest. split; [exact Hplan|apply Hall].
  - destruct (performs_initial _ _ w
                (flowHypeCoreToBsc_performs host lib registry process fuel))
      as (rest & Hplan & Hall).
    exists rest. split; [exact Hplan|apply Hall].
Qed.

(** ** What a dry run hands to the step executors *)

(** *** The flag at the end of a command line *)

Lemma plainWords_app_flag (flag : string) (words : list string) : forall afterDash,
  JsString.startsWith "-" flag = true ->
  plainWords afterDash (words ++ [flag]) = plainWords afterDash words.
Proof.
  induction words as [|a r IH]; intros afterDash Hflag; simpl.
  - rewrite Hflag. now rewrite Bool.andb_false_r.
  - now rewrite IH.
Qed.

Lemma skipn_2_app_flag (flag : string) (words : list string) :
  JsString.startsWith "-" flag = true ->
  positionals (skipn 2 (words ++ [flag])) = positionals (skipn 2 words).
Proof.
  intros Hflag.
  destruct words as [|a [|b r]]; try reflexivity.
  change (skipn 2 ((a :: b :: r) ++ [flag])) with (r ++ [flag])%list.
  change (skipn 2 (a :: b :: r)) with r.
  rewrite !positionals_plainWords. now apply plainWords_app_flag.
Qed.

Lemma getArg_app_flag (name flag : string) (words : list string) :
  flag <> name -> last words "" <> name ->
  getArg name (words ++ [flag]) = getArg name words.
Proof.
  intros Hflag. induction words as [|a r IH]; intros Hlast.
  - simpl. now apply getArg_cons_neq.
  - destruct (String.eqb_spec a name) as [->|Hne].
    + destruct r as [|v r']; [now elim Hlast|].
      simpl. now rewrite !getArg_cons_eq.
    + simpl. rewrite !getArg_cons_neq by assumption.
      destruct r as [|v r'].
      * simpl. now apply getArg_cons_neq.
      * apply IH. exact Hlast.
Qed.

(** The usual way to ask for a dry run, the flag after everything else,
    leaves the inputs as they are, unless the flag is taken for the value
    of an option that comes last. *)
Lemma sameInputs_flag_appended (wet : list string) :
  ~ In (last wet "") flowOptions ->
  sameInputs (wet ++ ["--dry-run"]) wet.
Proof.
  intros Hlast. split.
  - unfold getPositionalArg. now rewrite skipn_2_app_flag.
  - intros name Hin. apply getArg_app_flag.
    + intros <-. simpl in Hin. intuition discriminate.
    + intros Heq. apply Hlast. now rewrite Heq.
Qed.

(** *** A dry run on which nothing fails *)

Section Succeeds.

Context {W : Type}.
Variable host : Host W.
Variable lib : Library.
Hypothesis Hreliable : Reliable host lib.

Lemma Succeeds_ret {A : Type} (a : A) (Q : A -> Prop) : Q a -> Succeeds (@ret W A a) Q.
Proof. intros H s. exists a, s. now split. Qed.

Lemma Succeeds_bind {A B : Type} (m : M W A) (f : A -> M W B)
    (Q : A -> Prop) (R : B -> Prop) :
  Succeeds m Q -> (forall a, Q a -> Succeeds (f a) R) -> Succeeds (bind m f) R.
Proof.
  intros Hm Hf s. destruct (Hm s) as (a & s1 & Hrun & Ha).
  destruct (Hf a Ha s1) as (b & s2 & Hrun' & Hb).
  exists b, s2. unfold bind. rewrite Hrun. now split.
Qed.

Lemma Succeeds_orThrow (x : option string) (message : string) :
  truthy x = true -> Succeeds (@orThrow W x message) (fun v => x = Some v).
Proof.
  intros H s. destruct x as [v|]; [|discriminate].
  exists v, s. unfold orThrow. rewrite H. now split.
Qed.

Lemma Succeeds_call {A : Type} (r : Result A) (a : A) :
  r = Ok a -> Succeeds (@call W A r) (fun v => v = a).
Proof. intros -> s. exists a, s. now split. Qed.

Lemma Succeeds_consoleLog (line : string) :
  Succeeds (@consoleLog W line) (fun _ => True).
Proof. intros s. eexists; eexists. split; [reflexivity|exact I]. Qed.

Lemma Succeeds_readContractM c contract fn :
  Succeeds (readContractM host c contract fn) (fun _ => True).
Proof.
  intros s. destruct Hreliable as (Hread & _).
  destruct (Hread c contract fn (world s)) as (v & Hv).
  unfold readContractM.
  destruct (readContract host c contract fn (world s)) as [r w1]. simpl in Hv. subst r.
  eexists; eexists. split; [reflexivity|exact I].
Qed.

Lemma Succeeds_runStep stepName script args :
  Succeeds (runStep host stepName script args) (fun _ => True).
Proof.
  intros s. destruct Hreliable as (_ & Hspawn & _).
  specialize (Hspawn script args (world s)).
  unfold runStep.
  destruct (spawn host script args (world s)) as [r w1]. simpl in Hspawn. subst r.
  eexists; eexists. split; [reflexivity|exact I].
Qed.

Lemma Succeeds_fetchHyperCoreSpotTotal user tokenIndex :
  Succeeds (fetchHyperCoreSpotTotal host lib user tokenIndex)
    (fun total => forall t d, total = Some t -> exists v, parseUnits lib t d = Ok v).
Proof.
  intros s. destruct Hreliable as (_ & _ & Hfetch).
  destruct (Hfetch user (world s))
    as (res & data & balances & Hres & Hok & Hj & Hbal & Hplain & Hparse).
  destruct (fetchInfo host user (world s)) as [r w1] eqn:Hf. simpl in Hres. subst r.
  rewrite (fetchHyperCoreSpotTotal_body host lib user tokenIndex s res w1 data Hf Hok Hj).
  rewrite Hbal.
  destruct (findEntry_plain lib tokenIndex balances Hplain) as [Hnone | (b & Hfound & Hb)].
  - rewrite Hnone. eexists; eexists. split; [reflexivity|]. intros t d [=].
  - rewrite Hfound, (totalOf_plain lib b Hb).
    eexists; eexists. split; [reflexivity|].
    intros t d Ht.
    destruct (findEntry_found _ _ _ _ Hfound) as (pre & post & -> & _).
    destruct (property "total" b) as [[]|] eqn:Htotal; try discriminate.
    injection Ht as <-.
    apply (Hparse b s0 d); [|exact Htotal].
    apply in_or_app. right. now left.
Qed.

Lemma Succeeds_spotTotalToUnits (total : option string) (d : Z) :
  (forall t d, total = Some t -> exists v, parseUnits lib t d = Ok v) ->
  Succeeds (@spotTotalToUnits W lib total d) (fun _ => True).
Proof.
  intros Hparse s. unfold spotTotalToUnits.
  destruct total as [t|]; [|eexists; eexists; split; [reflexivity|exact I]].
  destruct (truthy (Some t)); [|eexists; eexists; split; [reflexivity|exact I]].
  destruct (Hparse t d eq_refl) as (v & ->).
  eexists; eexists. split; [reflexivity|exact I].
Qed.

Lemma Succeeds_bind_orThrow {B : Type} (x : option string) (message : string)
    (f : string -> M W B) (R : B -> Prop) :
  truthy x = true -> Succeeds (f (text x)) R -> Succeeds (bind (orThrow x message) f) R.
Proof.
  intros Hx Hf. eapply Succeeds_bind; [apply Succeeds_orThrow; exact Hx|].
  intros v Hv. cbv beta in Hv. rewrite Hv in Hf. exact Hf.
Qed.

Lemma Succeeds_bind_call {A B : Type} (r : Result A) (a : A)
    (f : A -> M W B) (R : B -> Prop) :
  r = Ok a -> Succeeds (f a) R -> Succeeds (bind (call r) f) R.
Proof.
  intros Hr Hf. eapply Succeeds_bind; [apply Succeeds_call; exact Hr|].
  intros v Hv. cbv beta in Hv. rewrite Hv. exact Hf.
Qed.

Lemma Succeeds_bind_any {A B : Type} (m : M W A) (f : A -> M W B) (R : B -> Prop) :
  Succeeds m (fun _ => True) -> (forall a, Succeeds (f a) R) -> Succeeds (bind m f) R.
Proof.
  intros Hm Hf. eapply Succeeds_bind; [exact Hm|]. intros a _. apply Hf.
Qed.

Lemma Succeeds_bind_ret {A B : Type} (a : A) (f : A -> M W B) (R : B -> Prop) :
  Succeeds (f a) R -> Succeeds (bind (ret a) f) R.
Proof. intros Hf s. exact (Hf s). Qed.

End Succeeds.

(** One step of a run on which nothing fails. *)
Ltac succeeds_step Hhost :=
  lazymatch goal with
  | |- Succeeds (bind (readContractM _ _ _ _) _) _ =>
      apply Succeeds_bind_any; [eapply Succeeds_readContractM; exact Hhost|intros ?]
  | |- Succeeds (bind (runStep _ _ _ _) _) _ =>
      apply Succeeds_bind_any; [eapply Succeeds_runStep; exact Hhost|intros ?]
  | |- Succeeds (bind (consoleLog _) _) _ =>
      apply Succeeds_bind_any; [apply Succeeds_consoleLog|intros ?]
  | |- Succeeds (bind (ret _) _) _ => apply Succeeds_bind_ret
  | |- Succeeds (bind (orThrow _ _) _) _ =>
      apply Succeeds_bind_orThrow; [assumption|]
  | |- Succeeds (runStep _ _ _ _) _ => eapply Succeeds_runStep; exact Hhost
  | |- Succeeds (ret _) _ => now apply Succeeds_ret
  end.

Lemma flowBscToHypeCore_dry_succeeds {W : Type} (host : Host W) (lib : Library)
    (registry : list (string * TokenConfig)) (dry : Process) (fuel : nat)
    (cfg : TokenConfig) :
  Reliable host lib ->
  hasFlag "--dry-run" (argv dry) = true ->
  Accepted lib registry dry ["--wrap-amount"; "--send-amount"; "--core-amount"] cfg ->
  Succeeds (FlowBscToHypeCore.main host lib registry dry fuel) (fun _ => True).
Proof.
  intros Hhost Hdry (Hchecks & Hown & (account & Haccount & Hsigner) & Hparse).
  destruct Hchecks as (Htoken & (to & Hto & Haddress & Hto') & Hamounts & Hrpc & Hkey & _).
  inversion Hamounts as [|? ? Hwrap Hamounts1].
  inversion Hamounts1 as [|? ? Hsend Hamounts2].
  inversion Hamounts2 as [|? ? Hcore _].
  inversion Hparse as [|? ? _ Hparse1].
  inversion Hparse1 as [|? ? Psend Hparse2].
  inversion Hparse2 as [|? ? Pcore _].
  rewrite Hto in Hsigner. simpl text in Hsigner.
  rewrite (truthy_text _ Htoken) in Hown.
  assert (Hrecipient : truthy (Some to) = true)
    by (simpl; now apply negb_true_iff, String.eqb_neq).
  unfold FlowBscToHypeCore.main. cbv zeta. rewrite Hdry, Hto, Haddress. cbn [negb].
  do 7 succeeds_step Hhost.
  apply (Succeeds_bind_call _ account); [exact Haccount|].
  apply (Succeeds_bind_call _ (Own cfg)); [exact Hown|].
  simpl text. rewrite Hsigner, String.eqb_refl. cbn [negb ownConfig].
  do 5 succeeds_step Hhost.
  apply Succeeds_bind_any; [eapply Succeeds_readContractM; exact Hhost|intros tokenDecimals].
  destruct (Psend tokenDecimals) as (sendWei & Hs).
  apply (Succeeds_bind_call _ sendWei); [exact Hs|].
  do 3 succeeds_step Hhost.
  destruct (Pcore tokenDecimals) as (coreWei & Hc).
  apply (Succeeds_bind_call _ coreWei); [exact Hc|].
  eapply Succeeds_bind; [apply Succeeds_fetchHyperCoreSpotTotal; exact Hhost|].
  intros total Htotal. cbv beta in Htotal.
  apply Succeeds_bind_any; [now apply Succeeds_spotTotalToUnits|intros ?].
  repeat succeeds_step Hhost.
Qed.

Lemma flowHypeCoreToBsc_dry_succeeds {W : Type} (host : Host W) (lib : Library)
    (registry : list (string * TokenConfig)) (dry : Process) (fuel : nat)
    (cfg : TokenConfig) :
  Reliable host lib ->
  hasFlag "--dry-run" (argv dry) = true ->
  Accepted lib registry dry
    ["--spot-send-amount"; "--bridge-amount"; "--unwrap-amount"] cfg ->
  truthy (underlying (bsc cfg)) = true ->
  Succeeds (FlowHypeCoreToBsc.main host lib registry dry fuel) (fun _ => True).
Proof.
  intros Hhost Hdry (Hchecks & Hown & (account & Haccount & Hsigner) & _) Hunderlying.
  destruct Hchecks as (Htoken & (to & Hto & Haddress & Hto') & Hamounts & Hrpc & Hkey & _).
  inversion Hamounts as [|? ? Hspot Hamounts1].
  inversion Hamounts1 as [|? ? Hbridge Hamounts2].
  inversion Hamounts2 as [|? ? Hunwrap _].
  rewrite Hto in Hsigner. simpl text in Hsigner.
  rewrite (truthy_text _ Htoken) in Hown.
  assert (Hrecipient : truthy (Some to) = true)
    by (simpl; now apply negb_true_iff, String.eqb_neq).
  unfold FlowHypeCoreToBsc.main. cbv zeta. rewrite Hdry, Hto, Haddress. cbn [negb].
  do 7 succeeds_step Hhost.
  apply (Succeeds_bind_call _ account); [exact Haccount|].
  apply (Succeeds_bind_call _ (Own cfg)); [exact Hown|].
  simpl text. rewrite Hsigner, String.eqb_refl. cbn [negb ownConfig].
  do 4 succeeds_step Hhost.
  eapply Succeeds_bind; [apply Succeeds_fetchHyperCoreSpotTotal; exact Hhost|].
  intros total _.
  repeat succeeds_step Hhost.
Qed.


Lemma steadyHost_reliable : Reliable steadyHost Sim.lib.
Proof.
  split; [|split].
  - intros c contract fn w. now exists 0.
  - reflexivity.
  - intros user w. eexists; eexists; eexists.
    split; [reflexivity|]. split; [reflexivity|]. split; [reflexivity|].
    split; [reflexivity|]. split; [constructor|]. intros b t d [].
Qed.


(** ** Validation comes first *)

(** One check of the validation: it throws, and the run is over with the
    state as it was, or it passes and the run goes on. *)
Ltac checks_step :=
  lazymatch goal with
  | |- (exists e, bind (orThrow ?x ?m) _ ?s = _) \/ _ =>
      rewrite bind_orThrow;
      let H := fresh "Hpass" in
      destruct (truthy x) eqn:H;
      [|left; eexists; reflexivity]
  | |- (exists e, bind (call ?r) _ ?s = _) \/ _ =>
      rewrite bind_call;
      let H := fresh "Hcall" in
      destruct r eqn:H;
      [|left; eexists; reflexivity]
  end.

Ltac checks_passed :=
  lazymatch goal with
  | Hto : getArg "--to" _ = Some ?t, Haddr : isAddress _ ?t = true,
    Hkey : truthy (PRIVATE_KEY _) = true, Hsame : String.eqb _ _ = true |- _ =>
      right; split;
      [unfold checksPass; cbv zeta;
       split; [assumption|];
       split; [exists t; repeat split; assumption|];
       split; [repeat constructor; assumption|];
       split; [assumption|];
       split; [assumption|];
       eexists;
       match goal with
       | Htok : truthy ?x = true, Hmeta : requireToken _ (Some (text ?x)) = Ok _ |- _ =>
           rewrite (truthy_text _ Htok); exact Hmeta
       end
      |eexists; eexists; eexists;
       split; [exact (truthy_text _ Hkey)|];
       split; [eassumption|];
       split; [reflexivity|];
       apply String.eqb_eq; exact Hsame]
  end.

Ltac checks :=
  checks_step;
  lazymatch goal with
  | |- context [getArg "--to" ?args] =>
      let Hto := fresh "Hto" in
      destruct (getArg "--to" args) as [t|] eqn:Hto;
      [|left; eexists; reflexivity];
      checks_step;
      match goal with
      | H : truthy (if isAddress _ _ then _ else _) = true |- _ =>
          apply truthy_checked in H;
          let Hx := fresh "Hx" in
          let Ha := fresh "Haddr" in
          let Hne := fresh "Hne" in
          destruct H as (Hx & Ha & Hne); rewrite Hx; simpl text
      end
  end;
  do 5 checks_step;
  do 2 checks_step;
  lazymatch goal with
  | |- context [String.eqb ?a ?b] =>
      let Hsame := fresh "Hsame" in
      destruct (String.eqb a b) eqn:Hsame;
      [|left; eexists; reflexivity]
  end;
  checks_passed.

(** Both flows make all their checks before anything else: a run either
    throws with the state as it was but for the exception (no read, no
    request, no step executor), or the command line and the environment
    have passed every check, the key gives an account and the recipient
    is the address of that account, compared in lower case. *)
Theorem validation_first {W : Type} (host : Host W) (lib : Library)
    (registry : list (string * TokenConfig)) (process : Process)
    (fuel : nat) (s : State W) :
  ((exists e, FlowBscToHypeCore.main host lib registry process fuel s
              = (Throw e, record (EvThrow e) s))
   \/ (checksPass lib registry process ["--wrap-amount"; "--send-amount"; "--core-amount"]
       /\ exists privateKey account to,
            PRIVATE_KEY process = Some privateKey
            /\ privateKeyToAccount lib privateKey = Ok account
            /\ getArg "--to" (argv process) = Some to
            /\ JsString.toLowerCase to = JsString.toLowerCase (address account)))
  /\ ((exists e, FlowHypeCoreToBsc.main host lib registry process fuel s
                 = (Throw e, record (EvThrow e) s))
      \/ (checksPass lib registry process
            ["--spot-send-amount"; "--bridge-amount"; "--unwrap-amount"]
          /\ exists privateKey account to,
               PRIVATE_KEY process = Some privateKey
               /\ privateKeyToAccount lib privateKey = Ok account
               /\ getArg "--to" (argv process) = Some to
               /\ JsString.toLowerCase to = JsString.toLowerCase (address account))).
Proof.
  split.
  - unfold FlowBscToHypeCore.main. cbv zeta. checks.
  - unfold FlowHypeCoreToBsc.main. cbv zeta. checks.
Qed.

(** ** The flow without confirmations *)

Section Confined.

Local Open Scope list_scope.

Context {W : Type}.
Variable P : Event -> bool.

Lemma confined_ret {A : Type} (a : A) : confined P (@ret W A a).
Proof.
  intros s. exists []. simpl. now rewrite List.app_nil_r.
Qed.

Lemma confined_bind {A B : Type} (m : M W A) (f : A -> M W B) :
  confined P m -> (forall a, confined P (f a)) -> confined P (bind m f).
Proof.
  intros Hm Hf s. unfold bind.
  destruct (Hm s) as (t1 & Ht1 & Hp1).
  destruct (m s) as [[a|e|] s1]; simpl in *; [|now exists t1|now exists t1].
  destruct (Hf a s1) as (t2 & Ht2 & Hp2).
  exists (t1 ++ t2). rewrite Ht2, Ht1, List.app_assoc, forallb_app, Hp1, Hp2. auto.
Qed.

Lemma confined_orThrow (x : option string) (message : string) :
  P (EvThrow (Error message)) = true -> confined P (@orThrow W x message).
Proof.
  intros Hp s. unfold orThrow.
  destruct x as [a|]; [destruct (truthy (Some a))|].
  - apply confined_ret.
  - exists [EvThrow (Error message)]. simpl. now rewrite Hp.
  - exists [EvThrow (Error message)]. simpl. now rewrite Hp.
Qed.

Lemma confined_runStep (host : Host W) (stepName script : string) (args : list string) :
  (forall r, P (EvSpawn script args r) = true) ->
  (forall e, P (EvThrow e) = true) ->
  confined P (runStep host stepName script args).
Proof.
  intros Hspawn Hthrow s. unfold runStep.
  destruct (spawn host script args (world s)) as [r w'].
  destruct (childVerdict stepName r) as [e|].
  - exists [EvSpawn script args r; EvThrow e]. simpl.
    rewrite <- List.app_assoc, Hspawn, Hthrow. auto.
  - exists [EvSpawn script args r]. simpl. rewrite Hspawn. auto.
Qed.

End Confined.

Lemma flowLegacy_performs {W : Type} (host : Host W) (process : Process) :
  performs (FlowLegacy.main host process) (planLegacy (argv process)).
Proof.
  unfold FlowLegacy.main, planLegacy. cbv zeta.
  repeat performs_step.
  apply performs_runStep.
Qed.

Lemma flowLegacy_confined {W : Type} (host : Host W) (process : Process) :
  confined stepOrThrow (FlowLegacy.main host process).
Proof.
  unfold FlowLegacy.main. cbv zeta.
  repeat (apply confined_bind; [|intros ?]);
    first [now apply confined_orThrow|now apply confined_runStep].
Qed.

Lemma flowLegacy_ends {W : Type} (host : Host W) (process : Process) :
  Ends (FlowLegacy.main host process).
Proof.
  unfold FlowLegacy.main. cbv zeta. repeat ends_step.
Qed.

Lemma flowLegacy_aborts {W : Type} (host : Host W) (process : Process) :
  obeys Benign Aborted (FlowLegacy.main host process).
Proof.
  unfold FlowLegacy.main. cbv zeta.
  repeat flow_step.
  all: lazymatch goal with
       | |- forall r, childVerdict ?n r = None -> _ [EvSpawn ?sc ?ar r] =>
           intros r Hr;
           apply (proj1 (abort_allows_plan [(sc, ar)] n sc ar (or_introl eq_refl)) r Hr)
       | |- forall r e, childVerdict ?n r = Some e -> _ e [EvSpawn ?sc ?ar r; EvThrow e] =>
           intros r e Hr;
           apply (proj2 (abort_allows_plan [(sc, ar)] n sc ar (or_introl eq_refl)) r e Hr)
       end.
Qed.

(** The flow of [src/unnamed/part_012] invokes its three step executors
    one after the other and does nothing else: no read of a balance, no
    request, no poll and no timer.  What a run has done is a list of
    step executors that have ended well, followed, when the run fails, by
    the step executor that has not (if that is the cause) and by the
    exception.  The executors are those of its plan, in order; a run that
    returns has invoked all three, and every run ends. *)
Theorem flowLegacy_unconfirmed {W : Type} (host : Host W) (process : Process) (w : W) :
  let r := FlowLegacy.main host process (initial w) in
  forallb stepOrThrow (trace (snd r)) = true
  /\ match fst r with
     | Throw e => Aborted e (trace (snd r))
     | _ => Benign (trace (snd r))
     end
  /\ (exists rest,
        planLegacy (argv process) = (spawned (trace (snd r)) ++ rest)%list
        /\ (fst r = Ret tt -> rest = []))
  /\ fst r <> Pending.
Proof.
  intros r. split; [|split; [|split]].
  - destruct (flowLegacy_confined host process (initial w)) as (tr & Htr & Hp).
    subst r. rewrite Htr. exact Hp.
  - destruct (flowLegacy_aborts host process (initial w)) as (tr & Htr & Hrun).
    subst r. rewrite Htr. exact Hrun.
  - destruct (performs_initial _ _ w (flowLegacy_performs host process))
      as (rest & Hplan & Hall).
    exists rest. split; [exact Hplan|apply Hall].
  - apply flowLegacy_ends.
Qed.

(** ** What the router scripts resolve *)

Lemma env_not_empty (e : string -> option string) (name v : string) :
  RouterUtils.env e name = Some v -> v <> "" /\ e name = Some v.
Proof.
  unfold RouterUtils.env. destruct (e name) as [x|]; [|discriminate].
  destruct (String.eqb_spec x ""); simpl; [discriminate|].
  intros [= <-]. auto.
Qed.

Lemma env_unset_empty (e : string -> option string) (name n : string) :
  e name = Some "" -> RouterUtils.env (unset name e) n = RouterUtils.env e n.
Proof.
  intros He. unfold RouterUtils.env, unset.
  destruct (String.eqb_spec n name) as [->|_]; [|reflexivity].
  now rewrite He.
Qed.

(** The two RPC endpoints are never the empty string, and a variable that
    is set to the empty string counts as one that is not set. *)
Theorem resolveRpcUrl_not_empty (e : string -> option string) :
  RouterUtils.resolveBscRpcUrl e <> ""
  /\ RouterUtils.resolveHyperEvmRpcUrl e <> ""
  /\ (forall name,
        e name = Some "" ->
        RouterUtils.resolveBscRpcUrl (unset name e) = RouterUtils.resolveBscRpcUrl e
        /\ RouterUtils.resolveHyperEvmRpcUrl (unset name e)
           = RouterUtils.resolveHyperEvmRpcUrl e).
Proof.
  unfold RouterUtils.resolveBscRpcUrl, RouterUtils.resolveHyperEvmRpcUrl.
  split; [|split].
  - destruct (RouterUtils.env e "SRC_RPC_URL") as [v|] eqn:H1; simpl.
    + now apply env_not_empty in H1.
    + destruct (RouterUtils.env e "BSC_RPC_URL") as [v|] eqn:H2; [|discriminate].
      now apply env_not_empty in H2.
  - destruct (RouterUtils.env e "HYPEREVM_RPC_URL") as [v|] eqn:H1; simpl.
    + now apply env_not_empty in H1.
    + destruct (RouterUtils.env e "HYPEEVM_RPC_URL") as [v|] eqn:H2; [|discriminate].
      now apply env_not_empty in H2.
  - intros name He. now rewrite !(env_unset_empty e name _ He).
Qed.

(** [resolveRouterAddress] and [resolveUnwrapComposerAddress] return
    nothing but an address.  An override that is given decides alone: when
    it is empty or not an address the call throws, whatever the
    environment and the token hold.  A variable of the environment that is
    empty is passed over. *)
Theorem resolveRouterAddress_sources (lib : Library) (e : string -> option string)
    (configured override : option string) :
  let router := RouterUtils.resolveRouterAddress lib e configured override in
  let composer := RouterUtils.resolveUnwrapComposerAddress lib e configured override in
  (forall a, router = Ok a \/ composer = Ok a -> isAddress lib a = true /\ a <> "")
  /\ (forall o, override = Some o ->
        router = (if (negb (String.eqb o "") && isAddress lib o)%bool
                  then Ok o else Raise (Error RouterUtils.routerMessage))
        /\ composer = (if (negb (String.eqb o "") && isAddress lib o)%bool
                       then Ok o else Raise (Error RouterUtils.unwrapComposerMessage)))
  /\ (forall name, e name = Some "" ->
        RouterUtils.resolveRouterAddress lib (unset name e) configured override = router
        /\ RouterUtils.resolveUnwrapComposerAddress lib (unset name e) configured override
           = composer).
Proof.
  intros router composer. subst router composer.
  unfold RouterUtils.resolveRouterAddress, RouterUtils.resolveUnwrapComposerAddress.
  cbv zeta. split; [|split].
  - intros a [H|H].
    + destruct (orElse _ configured) as [c|]; [|discriminate].
      destruct c as [|ch c]; [discriminate|]. simpl in H.
      destruct (isAddress lib (String ch c)) eqn:Ha; [|discriminate].
      injection H as <-. split; [exact Ha|discriminate].
    + destruct (orElse _ configured) as [c|]; [|discriminate].
      destruct c as [|ch c]; [discriminate|]. simpl in H.
      destruct (isAddress lib (String ch c)) eqn:Ha; [|discriminate].
      injection H as <-. split; [exact Ha|discriminate].
  - intros o ->. simpl.
    destruct o as [|ch o]; simpl; [split; reflexivity|].
    destruct (isAddress lib (String ch o)); split; reflexivity.
  - intros name He. now rewrite !(env_unset_empty e name _ He).
Qed.

(** ** The step executor from BSC to HyperEVM *)

Section Only.

Import Exec.
Local Open Scope list_scope.

Context {W Act : Type}.
Variable P : Act -> bool.

Lemma only_done {A : Type} (a : A) : only P (@done W Act A a).
Proof.
  intros st. exists []. simpl. rewrite List.app_nil_r. repeat split. discriminate.
Qed.

Lemma only_fail {A : Type} (e : JsError) : only P (@fail W Act A e).
Proof.
  intros st. exists []. simpl. rewrite List.app_nil_r. repeat split. discriminate.
Qed.

Lemma only_andThen {A B : Type} (m : X W Act A) (f : A -> X W Act B) :
  only P m -> (forall a, only P (f a)) -> only P (andThen m f).
Proof.
  intros Hm Hf st. unfold andThen.
  destruct (Hm st) as (t1 & Ht1 & Hp1 & He1).
  destruct (m st) as [[a|e|code] st1]; simpl in *.
  - destruct (Hf a st1) as (t2 & Ht2 & Hp2 & He2).
    exists (t1 ++ t2). rewrite Ht2, Ht1, List.app_assoc, forallb_app, Hp1, Hp2. auto.
  - exists t1. repeat split; auto. discriminate.
  - now contradiction (He1 code).
Qed.

Lemma only_tryCatch {A : Type} (m handler : X W Act A) :
  only P m -> only P handler -> only P (tryCatch m handler).
Proof.
  intros Hm Hh st. unfold tryCatch.
  destruct (Hm st) as (t1 & Ht1 & Hp1 & He1).
  destruct (m st) as [[a|e|code] st1]; simpl in *.
  - exists t1. auto.
  - destruct (Hh st1) as (t2 & Ht2 & Hp2 & He2).
    exists (t1 ++ t2). rewrite Ht2, Ht1, List.app_assoc, forallb_app, Hp1, Hp2. auto.
  - now contradiction (He1 code).
Qed.

Lemma only_act (a : Act) : P a = true -> only P (@act W Act a).
Proof.
  intros Ha st. exists [a]. simpl. rewrite Ha. repeat split. discriminate.
Qed.

Lemma only_perform {A : Type} (op : W -> Result A * W) (what : Result A -> Act) :
  (forall r, P (what r) = true) -> only P (perform op what).
Proof.
  intros Hw st. unfold perform. exists [what (fst (op (fst st)))].
  destruct (op (fst st)) as [[a|e] w']; simpl; rewrite Hw; repeat split; discriminate.
Qed.

Lemma only_lift {A : Type} (r : Result A) : only P (@lift W Act A r).
Proof. destruct r; [apply only_done|apply only_fail]. Qed.

Lemma only_orFail (x : option string) (message : string) :
  only P (@orFail W Act x message).
Proof.
  unfold orFail. destruct x; [destruct (truthy _)|];
    first [apply only_done|apply only_fail].
Qed.

Lemma only_if {A : Type} (b : bool) (m1 m2 : X W Act A) :
  only P m1 -> only P m2 -> only P (if b then m1 else m2).
Proof. now destruct b. Qed.

End Only.

Ltac only_step :=
  lazymatch goal with
  | |- only _ (Exec.andThen _ _) => apply only_andThen; [|intros ?]
  | |- only _ (Exec.tryCatch _ _) => apply only_tryCatch
  | |- only _ (if _ then _ else _) => apply only_if
  | |- only _ (match ?t with Own _ => _ | Inherited => _ end) => destruct t
  | |- only _ (Exec.done _) => apply only_done
  | |- only _ (Exec.fail _) => apply only_fail
  | |- only _ (Exec.lift _) => apply only_lift
  | |- only _ (Exec.orFail _ _) => apply only_orFail
  | |- only _ (Exec.act _) => apply only_act; reflexivity
  | |- only _ (Exec.perform _ _) => apply only_perform; reflexivity
  end.

(** With [--dry-run] the step executor [src/bscToHypeEvm.ts] sends
    nothing through the adapter, asks nothing on the terminal and does
    not end the process: what it does is to read, to print and, when the
    adapter asks for it, to approve. *)
Theorem bscToHypeEvm_dry_run {W : Type} (client : BscToHypeEvm.Client W)
    (lib : Library) (padHex : string -> string)
    (registry : list (string * TokenConfig)) (process : Process) (w : W) :
  hasFlag "--dry-run" (argv process) = true ->
  let r := BscToHypeEvm.main client lib padHex registry process (w, []) in
  forallb BscToHypeEvm.dryAction (snd (snd r)) = true
  /\ forall code, fst r <> Exec.Exited code.
Proof.
  intros Hdry r.
  assert (H : only BscToHypeEvm.dryAction
                (BscToHypeEvm.main client lib padHex registry process)).
  { unfold BscToHypeEvm.main. cbv zeta. rewrite Hdry. repeat only_step. }
  destruct (H (w, [])) as (tr & Htr & Hp & He).
  subst r. rewrite Htr. simpl. auto.
Qed.

(** *** One step of a run of the executor *)

Section ExecSteps.

Import Exec.

Context {W Act A B : Type}.
Variable f : A -> X W Act B.
Variable st : W * list Act.

Lemma andThen_done (a : A) : andThen (done a) f st = f a st.
Proof. reflexivity. Qed.

Lemma andThen_fail (e : JsError) : andThen (fail e) f st = (Failed e, st).
Proof. reflexivity. Qed.

Lemma andThen_lift (r : Result A) :
  andThen (lift r) f st
  = match r with
    | Ok a => f a st
    | Raise e => (Failed e, st)
    end.
Proof. now destruct r. Qed.

Lemma andThen_perform (op : W -> Result A * W) (what : Result A -> Act) :
  andThen (perform op what) f st
  = match op (fst st) with
    | (Ok a, w') => f a (w', (snd st ++ [what (Ok a)])%list)
    | (Raise e, w') => (Failed e, (w', (snd st ++ [what (Raise e)])%list))
    end.
Proof.
  unfold andThen, perform. now destruct (op (fst st)) as [[a|e] w'].
Qed.

Lemma andThen_andThen {C : Type} (m : X W Act C) (g : C -> X W Act A) :
  andThen (andThen m g) f st = andThen m (fun c => andThen (g c) f) st.
Proof.
  unfold andThen. now destruct (m st) as [[c|e|code] st'].
Qed.

End ExecSteps.

Section ExecChecks.

Import Exec.

Context {W Act B : Type}.
Variable st : W * list Act.

Lemma andThen_orFail (x : option string) (message : string) (f : string -> X W Act B) :
  andThen (orFail x message) f st
  = if truthy x then f (text x) st else (Failed (Error message), st).
Proof.
  unfold andThen, orFail. destruct x as [a|]; [|reflexivity].
  now destruct (truthy (Some a)).
Qed.

Lemma andThen_act (a : Act) (f : unit -> X W Act B) :
  andThen (act a) f st = f tt (fst st, (snd st ++ [a])%list).
Proof. reflexivity. Qed.

Lemma andThen_exit (a : Act) (code : Z) (f : unit -> X W Act B) :
  andThen (exit a code) f st = (Exited code, (fst st, (snd st ++ [a])%list)).
Proof. reflexivity. Qed.

Lemma andThen_tryCatch_perform (op : W -> Result bool * W) (what : Result bool -> Act)
    (f : bool -> X W Act B) :
  andThen (tryCatch (perform op what) (done false)) f st
  = match op (fst st) with
    | (Ok b, w') => f b (w', (snd st ++ [what (Ok b)])%list)
    | (Raise e, w') => f false (w', (snd st ++ [what (Raise e)])%list)
    end.
Proof.
  unfold andThen, tryCatch, perform. now destruct (op (fst st)) as [[a|e] w'].
Qed.

End ExecChecks.

Ltac exec_In :=
  repeat match goal with
         | H : In _ [] |- _ => destruct H
         | H : In _ (_ :: _) |- _ => destruct H as [H|H]; [try discriminate|]
         end.

(** The run is over: what it has done is known. *)
Ltac exec_over Hr :=
  subst; cbn [fst snd app] in *; exec_In.

Ltac exec_step Hr :=
  cbn [fst snd app Exec.lift] in Hr;
  first
    [ rewrite andThen_orFail in Hr;
      lazymatch type of Hr with
      | _ = (if ?c then _ else _) => destruct c eqn:?; [|exec_over Hr]
      end
    | rewrite andThen_lift in Hr;
      lazymatch type of Hr with
      | _ = match ?c with Ok _ => _ | Raise _ => _ end =>
          destruct c eqn:?; [|exec_over Hr]
      end
    | rewrite andThen_tryCatch_perform in Hr;
      lazymatch type of Hr with
      | _ = match ?c with pair _ _ => _ end => destruct c as [[[|]|?] ?] eqn:?
      end
    | rewrite andThen_perform in Hr;
      lazymatch type of Hr with
      | _ = match ?c with pair _ _ => _ end =>
          destruct c as [[?|?] ?] eqn:?; [|exec_over Hr]
      end
    | rewrite andThen_act in Hr
    | rewrite andThen_exit in Hr; exec_over Hr
    | rewrite andThen_done in Hr
    | rewrite andThen_fail in Hr; exec_over Hr
    | rewrite andThen_andThen in Hr
    | lazymatch type of Hr with
      | _ = Exec.andThen (if ?c then _ else _) _ _ => destruct c eqn:?
      | _ = Exec.andThen (match ?c with Own _ => _ | Inherited => _ end) _ _ =>
          destruct c eqn:?
      | _ = (if ?c then _ else _) _ => destruct c eqn:?
      end ].

(** With or without [--dry-run], the step executor [src/bscToHypeEvm.ts]
    has approved before it asks for the fee: when it has read an
    allowance that is below the amount it is to send, it has written
    [approve] for that amount and awaited the receipt.  A dry run is thus
    not free of transactions. *)
Theorem bscToHypeEvm_approves {W : Type} (client : BscToHypeEvm.Client W)
    (lib : Library) (padHex : string -> string)
    (registry : list (string * TokenConfig)) (process : Process) (w : W)
    (oft token owner spender : string) (a : Z) (p : Exec.SendParam)
    (fee : Result Exec.MessagingFee) :
  let tr := snd (snd (BscToHypeEvm.main client lib padHex registry process (w, []))) in
  In (BscToHypeEvm.ActAllowance token owner spender (Ok a)) tr ->
  In (BscToHypeEvm.ActQuoteSend oft p fee) tr ->
  a < Exec.amountLD p ->
  exists hash blockNumber,
    In (BscToHypeEvm.ActApprove token spender (Exec.amountLD p) (Ok hash)) tr
    /\ In (BscToHypeEvm.ActWait hash (Ok blockNumber)) tr.
Proof.
  intros tr. subst tr.
  remember (BscToHypeEvm.main client lib padHex registry process (w, [])) as r eqn:Hr.
  intros Hallow Hquote Hlt.
  unfold BscToHypeEvm.main, BscToHypeEvm.confirmOrExit in Hr. cbv zeta in Hr.
  repeat (exec_step Hr).
  all: try unfold Exec.act, Exec.done in Hr.
  all: subst; cbn [fst snd app] in *; exec_In.
  all: repeat match goal with
       | H : _ = BscToHypeEvm.ActAllowance _ _ _ _ |- _ => injection H as <- <- <- <-
       | H : _ = BscToHypeEvm.ActQuoteSend _ _ _ |- _ => injection H as <- <- <-
       end.
  all: cbn [Exec.amountLD] in *.
  all: try match goal with
       | H : (_ <? _) = false |- _ => apply Z.ltb_ge in H; lia
       end.
  all: eexists; eexists; split; simpl; repeat first [left; reflexivity | right].
Qed.

Lemma bscToHypeEvm_dry_run_witness :
  forallb BscToHypeEvm.dryAction
    (snd (snd (BscToHypeEvm.main BscToHypeEvm.fixedClient Sim.lib (fun s => s) TOKENS
                 (demoProcess "0xabc" ["--dry-run"]) (tt, [])))) = true.
Proof.
  apply (bscToHypeEvm_dry_run BscToHypeEvm.fixedClient Sim.lib (fun s => s) TOKENS
           (demoProcess "0xabc" ["--dry-run"]) tt).
  reflexivity.
Defined.

Lemma bscToHypeEvm_approves_witness :
  exists hash blockNumber,
    In (BscToHypeEvm.ActApprove "0xUnderlying"
          "0xF351FA44A73E6D1E9c4C2927A8D2b8c69a8B8897" 5 (Ok hash))
       (snd (snd (BscToHypeEvm.main BscToHypeEvm.fixedClient Sim.lib (fun s => s) TOKENS
                    (demoProcess "0xabc" ["--dry-run"]) (tt, []))))
    /\ In (BscToHypeEvm.ActWait hash (Ok blockNumber))
          (snd (snd (BscToHypeEvm.main BscToHypeEvm.fixedClient Sim.lib (fun s => s) TOKENS
                       (demoProcess "0xabc" ["--dry-run"]) (tt, [])))).
Proof.
  apply (bscToHypeEvm_approves BscToHypeEvm.fixedClient Sim.lib (fun s => s) TOKENS
           (demoProcess "0xabc" ["--dry-run"]) tt
           "0xF351FA44A73E6D1E9c4C2927A8D2b8c69a8B8897" "0xUnderlying" "0xABC"
           "0xF351FA44A73E6D1E9c4C2927A8D2b8c69a8B8897" 0
           {| Exec.dstEid := 30367; Exec.to := "0xabc";
              Exec.amountLD := 5; Exec.minAmountLD := 5;
              Exec.extraOptions := "0x"; Exec.composeMsg := "0x";
              Exec.oftCmd := "0x" |}
           (Ok {| Exec.nativeFee := 7; Exec.lzTokenFee := 0 |})).
  - vm_compute. repeat first [left; reflexivity | right].
  - vm_compute. repeat first [left; reflexivity | right].
  - reflexivity.
Defined.

(** ** The step executor from HyperEVM to BSC *)

(** Which of the actions recorded is the one looked for. *)
Ltac pick := simpl; repeat first [left; reflexivity | right].

(** With [--dry-run] the step executor [src/hypeEvmToBsc.ts] only reads
    and prints: it writes no transaction, asks nothing on the terminal
    and does not end the process. *)
Theorem hypeEvmToBsc_dry_run {W : Type} (client : HypeEvmToBsc.Client W)
    (lib : Library) (padHex : string -> string)
    (registry : list (string * TokenConfig)) (process : Process) (w : W) :
  hasFlag "--dry-run" (argv process) = true ->
  let r := HypeEvmToBsc.main client lib padHex registry process (w, []) in
  forallb HypeEvmToBsc.readOnly (snd (snd r)) = true
  /\ forall code, fst r <> Exec.Exited code.
Proof.
  intros Hdry r.
  assert (H : only HypeEvmToBsc.readOnly
                (HypeEvmToBsc.main client lib padHex registry process)).
  { unfold HypeEvmToBsc.main. cbv zeta. rewrite Hdry. repeat only_step. }
  destruct (H (w, [])) as (tr & Htr & Hp & He).
  subst r. rewrite Htr. simpl. auto.
Qed.

Lemma hypeEvmToBsc_dry_run_witness :
  forallb HypeEvmToBsc.readOnly
    (snd (snd (HypeEvmToBsc.main (HypeEvmToBsc.fixedClient 5) HypeEvmToBsc.fixedLib
                 (fun s => s) TOKENS (demoProcess "0xabc" ["--dry-run"]) (tt, [])))) = true.
Proof.
  apply (hypeEvmToBsc_dry_run (HypeEvmToBsc.fixedClient 5) HypeEvmToBsc.fixedLib
           (fun s => s) TOKENS (demoProcess "0xabc" ["--dry-run"]) tt).
  reflexivity.
Defined.

(** The step executor [src/hypeEvmToBsc.ts] writes [send] only in a run
    without [--dry-run], on chain 999, after it has read a balance of the
    signer that covers the amount and a native balance that covers 0.01
    HYPE, and with the fee that [quoteSend] has answered for the same
    parameters. *)
Theorem hypeEvmToBsc_send_guarded {W : Type} (client : HypeEvmToBsc.Client W)
    (lib : Library) (padHex : string -> string)
    (registry : list (string * TokenConfig)) (process : Process) (w : W)
    (oft refund : string) (p : Exec.SendParam) (fee : Exec.MessagingFee)
    (sent : Result string) :
  let tr := snd (snd (HypeEvmToBsc.main client lib padHex registry process (w, []))) in
  In (HypeEvmToBsc.ActSend oft p fee refund sent) tr ->
  hasFlag "--dry-run" (argv process) = false
  /\ In (HypeEvmToBsc.ActGetChainId (Ok 999)) tr
  /\ In (HypeEvmToBsc.ActQuoteSend oft p (Ok fee)) tr
  /\ exists balance nativeBalance minGasWei,
       In (HypeEvmToBsc.ActBalanceOf oft refund (Ok balance)) tr
       /\ Exec.amountLD p <= balance
       /\ In (HypeEvmToBsc.ActGetBalance refund (Ok nativeBalance)) tr
       /\ parseUnits lib "0.01" 18 = Ok minGasWei
       /\ minGasWei <= nativeBalance.
Proof.
  intros tr. subst tr.
  remember (HypeEvmToBsc.main client lib padHex registry process (w, [])) as r eqn:Hr.
  intros Hsend.
  unfold HypeEvmToBsc.main, HypeEvmToBsc.confirmOrExit in Hr. cbv zeta in Hr.
  repeat (exec_step Hr).
  all: try unfold Exec.act, Exec.done in Hr.
  all: subst; cbn [fst snd app] in *; exec_In.
  all: match goal with
       | H : _ = HypeEvmToBsc.ActSend _ _ _ _ _ |- _ => injection H as <- <- <- <- <-
       end.
  all: cbn [Exec.amountLD] in *.
  all: repeat match goal with
       | H : negb _ = false |- _ => apply negb_false_iff in H
       | H : (_ =? _) = true |- _ => apply Z.eqb_eq in H; subst
       end.
  all: split; [reflexivity|]; split; [pick|]; split; [pick|].
  all: eexists; eexists; eexists.
  all: split; [pick|]; split; [apply Z.ltb_ge; eassumption|].
  all: split; [pick|]; split; [reflexivity|]; apply Z.ltb_ge; eassumption.
Qed.

Lemma hypeEvmToBsc_send_guarded_witness :
  exists balance nativeBalance minGasWei,
    In (HypeEvmToBsc.ActBalanceOf "0xe74aA6C4050A15790525eB11cc4562c664dC67C9" "0xABC"
          (Ok balance))
       (snd (snd (HypeEvmToBsc.main (HypeEvmToBsc.fixedClient 5) HypeEvmToBsc.fixedLib
                    (fun s => s) TOKENS (demoProcess "0xabc" []) (tt, []))))
    /\ 5 <= balance
    /\ In (HypeEvmToBsc.ActGetBalance "0xABC" (Ok nativeBalance))
          (snd (snd (HypeEvmToBsc.main (HypeEvmToBsc.fixedClient 5) HypeEvmToBsc.fixedLib
                       (fun s => s) TOKENS (demoProcess "0xabc" []) (tt, []))))
    /\ parseUnits HypeEvmToBsc.fixedLib "0.01" 18 = Ok minGasWei
    /\ minGasWei <= nativeBalance.
Proof.
  apply (hypeEvmToBsc_send_guarded (HypeEvmToBsc.fixedClient 5) HypeEvmToBsc.fixedLib
           (fun s => s) TOKENS (demoProcess "0xabc" []) tt
           "0xe74aA6C4050A15790525eB11cc4562c664dC67C9" "0xABC"
           {| Exec.dstEid := 30102; Exec.to := "0xabc";
              Exec.amountLD := 5; Exec.minAmountLD := 5;
              Exec.extraOptions := "0x"; Exec.composeMsg := "0x";
              Exec.oftCmd := "0x" |}
           {| Exec.nativeFee := 7; Exec.lzTokenFee := 0 |}
           (Ok "0xSendHash")).
  vm_compute. repeat first [left; reflexivity | right].
Defined.

(** ** What the step executor from BSC to HyperEVM sends *)

(** The step executor [src/bscToHypeEvm.ts] writes [send] only in a run
    without [--dry-run], on chain 56, with the fee that [quoteSend] has
    answered for the same parameters; and when [--confirm] is given and
    [--yes] is not, only after the answer on the terminal, blanks taken
    off, was YES. *)
Theorem bscToHypeEvm_send_confirmed {W : Type} (client : BscToHypeEvm.Client W)
    (lib : Library) (padHex : string -> string)
    (registry : list (string * TokenConfig)) (process : Process) (w : W)
    (oft refund : string) (p : Exec.SendParam) (fee : Exec.MessagingFee)
    (sent : Result string) :
  let tr := snd (snd (BscToHypeEvm.main client lib padHex registry process (w, []))) in
  In (BscToHypeEvm.ActSend oft p fee refund sent) tr ->
  hasFlag "--dry-run" (argv process) = false
  /\ In (BscToHypeEvm.ActGetChainId (Ok 56)) tr
  /\ In (BscToHypeEvm.ActQuoteSend oft p (Ok fee)) tr
  /\ (hasFlag "--confirm" (argv process) = true ->
      hasFlag "--yes" (argv process) = false ->
      exists answer,
        In (BscToHypeEvm.ActQuestion (Ok answer)) tr /\ JsString.trim answer = "YES").
Proof.
  intros tr. subst tr.
  remember (BscToHypeEvm.main client lib padHex registry process (w, [])) as r eqn:Hr.
  intros Hsend.
  unfold BscToHypeEvm.main, BscToHypeEvm.confirmOrExit in Hr. cbv zeta in Hr.
  repeat (exec_step Hr).
  all: try unfold Exec.act, Exec.done in Hr.
  all: subst; cbn [fst snd app] in *; exec_In.
  all: match goal with
       | H : _ = BscToHypeEvm.ActSend _ _ _ _ _ |- _ => injection H as <- <- <- <- <-
       end.
  all: repeat match goal with
       | H : negb _ = false |- _ => apply negb_false_iff in H
       | H : (_ =? _) = true |- _ => apply Z.eqb_eq in H; subst
       | H : (_ =? _)%string = true |- _ => apply String.eqb_eq in H
       end.
  all: split; [reflexivity|]; split; [pick|]; split; [pick|].
  all: intros Hconfirm Hyes.
  all: try (rewrite Hconfirm, Hyes in *; discriminate).
  all: eexists; split; [pick|assumption].
Qed.

Lemma bscToHypeEvm_send_confirmed_witness :
  In (BscToHypeEvm.ActQuoteSend "0xF351FA44A73E6D1E9c4C2927A8D2b8c69a8B8897"
        {| Exec.dstEid := 30367; Exec.to := "0xabc";
           Exec.amountLD := 5; Exec.minAmountLD := 5;
           Exec.extraOptions := "0x"; Exec.composeMsg := "0x"; Exec.oftCmd := "0x" |}
        (Ok {| Exec.nativeFee := 7; Exec.lzTokenFee := 0 |}))
     (snd (snd (BscToHypeEvm.main BscToHypeEvm.fixedClient Sim.lib (fun s => s) TOKENS
                  (demoProcess "0xabc" ["--confirm"]) (tt, [])))).
Proof.
  apply (bscToHypeEvm_send_confirmed BscToHypeEvm.fixedClient Sim.lib (fun s => s) TOKENS
           (demoProcess "0xabc" ["--confirm"]) tt
           "0xF351FA44A73E6D1E9c4C2927A8D2b8c69a8B8897" "0xABC"
           {| Exec.dstEid := 30367; Exec.to := "0xabc";
              Exec.amountLD := 5; Exec.minAmountLD := 5;
              Exec.extraOptions := "0x"; Exec.composeMsg := "0x";
              Exec.oftCmd := "0x" |}
           {| Exec.nativeFee := 7; Exec.lzTokenFee := 0 |}
           (Ok "0xSendHash")).
  vm_compute. repeat first [left; reflexivity | right].
Defined.

(** ** Progress lines do not change a poll *)

Section SameWorld.

Context {W T : Type}.
Variable host : Host W.
Variable label : string.
Variables read1 read2 : M W T.
Variable accept : T -> bool.
Variables timeout interval started : Z.

(** Two reads that give the same result and leave the same world. *)
Hypothesis same_read : forall s1 s2,
  world s1 = world s2 ->
  fst (read1 s1) = fst (read2 s2) /\ world (snd (read1 s1)) = world (snd (read2 s2)).

Lemma pollLoop_same (fuel : nat) : forall s1 s2,
  world s1 = world s2 ->
  fst (pollLoop host fuel label read1 accept timeout interval started s1)
  = fst (pollLoop host fuel label read2 accept timeout interval started s2)
  /\ world (snd (pollLoop host fuel label read1 accept timeout interval started s1))
     = world (snd (pollLoop host fuel label read2 accept timeout interval started s2)).
Proof.
  induction fuel as [|fuel IH]; intros s1 s2 Hw; [simpl; auto|].
  destruct (same_read s1 s2 Hw) as [Hres Hworld].
  destruct (read2 s2) as [o2 t2] eqn:H2. simpl in Hres, Hworld.
  destruct (pollLoop_cases host read1 accept timeout started s1)
    as [(v & t1 & Hr & Hok)|[(e & t1 & Hr)|[(t1 & Hr)|
        [(v & t1 & Hr & Hok & Ht)|(v & t1 & Hr & Hok & Ht)]]]];
    rewrite Hr in Hres, Hworld; simpl in Hres, Hworld; subst o2.
  - rewrite (pollLoop_satisfied host label read1 accept timeout interval started
               _ _ _ _ Hr Hok),
            (pollLoop_satisfied host label read2 accept timeout interval started
               _ _ _ _ H2 Hok).
    auto.
  - rewrite (pollLoop_read_throws host label read1 accept timeout interval started
               _ _ _ _ Hr),
            (pollLoop_read_throws host label read2 accept timeout interval started
               _ _ _ _ H2).
    auto.
  - rewrite (pollLoop_read_pending host label read1 accept timeout interval started
               _ _ _ Hr),
            (pollLoop_read_pending host label read2 accept timeout interval started
               _ _ _ H2).
    auto.
  - assert (Ht2 : timeout < clock host (world t2) - started) by now rewrite <- Hworld.
    rewrite (pollLoop_timeout host label read1 accept timeout interval started
               _ _ _ _ Hr Hok Ht),
            (pollLoop_timeout host label read2 accept timeout interval started
               _ _ _ _ H2 Hok Ht2).
    auto.
  - assert (Ht2 : clock host (world t2) - started <= timeout) by now rewrite <- Hworld.
    rewrite (pollLoop_again host label read1 accept timeout interval started
               _ _ _ _ Hr Hok Ht),
            (pollLoop_again host label read2 accept timeout interval started
               _ _ _ _ H2 Hok Ht2).
    apply IH. simpl. now rewrite Hworld.
Qed.

End SameWorld.

Lemma waitingRead_same {W : Type} (host : Host W) (lib : Library) c contract owner
    window what started expectedAtLeast d tokenName (s1 s2 : State W) :
  world s1 = world s2 ->
  fst (waitingRead host lib c contract owner window what started expectedAtLeast d
         tokenName s1)
  = fst (readContractM host c contract (BalanceOf owner) s2)
  /\ world (snd (waitingRead host lib c contract owner window what started
                   expectedAtLeast d tokenName s1))
     = world (snd (readContractM host c contract (BalanceOf owner) s2)).
Proof.
  intros Hw. unfold waitingRead, bind, readContractM, dateNow, getFrame.
  rewrite Hw.
  destruct (readContract host c contract (BalanceOf owner) (world s2)) as [[bal|e] w'];
    simpl; [|auto].
  destruct ((_ || _) && _)%bool; simpl; auto.
Qed.

(** The lines of progress that the [read] closures of the flows print
    change nothing to a poll: [pollUntil] on such a closure ends as it
    does on the bare read of the balance, with the same result and the
    same state of the outside world. *)
Theorem pollUntil_progress_transparent {W : Type} (host : Host W) (lib : Library)
    (fuel : nat) (label : string) c contract owner
    window what started expectedAtLeast d tokenName
    (accept : Z -> bool) (opts : option PollOpts) (s : State W) :
  let watched :=
    pollUntil host fuel label
      (waitingRead host lib c contract owner window what started expectedAtLeast d
         tokenName)
      accept opts s in
  let bare :=
    pollUntil host fuel label (readContractM host c contract (BalanceOf owner))
      accept opts s in
  fst watched = fst bare /\ world (snd watched) = world (snd bare).
Proof.
  intros watched bare. subst watched bare. rewrite !pollUntil_unfold.
  apply pollLoop_same; [|reflexivity].
  intros s1 s2. apply waitingRead_same.
Qed.

(** ** Confirmations between the hops *)

#[local] Instance between_discipline :
  Discipline (Forall between) (fun _ => Forall between).
Proof. apply forall_discipline; reflexivity. Qed.

Lemma stages_app (t1 t2 : list Event) :
  stages (t1 ++ t2)%list = (stages t1 ++ stages t2)%list.
Proof. apply flat_map_app. Qed.

Lemma stages_between (tr : list Event) : Forall between tr -> stages tr = [].
Proof.
  induction 1 as [|ev tr Hev _ IH]; [reflexivity|].
  change (ev :: tr) with ([ev] ++ tr)%list.
  now rewrite stages_app, Hev, IH.
Qed.

Section Paces.

Local Open Scope list_scope.

Context {W : Type}.

Lemma paces_quiet {A : Type} (m : M W A) :
  obeys (Forall between) (fun _ => Forall between) m -> paces m [].
Proof.
  intros H s. destruct (H s) as (tr & Htr & Hall). exists tr. split; [exact Htr|].
  assert (Hnone : stages tr = []) by (apply stages_between; now destruct (fst (m s))).
  rewrite Hnone. destruct (fst (m s)); [reflexivity|now exists []|now exists []].
Qed.

Lemma paces_bind {A B : Type} (m : M W A) (f : A -> M W B) (l1 l2 : list Stage) :
  paces m l1 ->
  (forall a s s', m s = (Ret a, s') -> paces (f a) l2) ->
  paces (bind m f) (l1 ++ l2).
Proof.
  intros Hm Hf s. unfold bind.
  destruct (Hm s) as (t1 & Ht1 & Hg1).
  destruct (m s) as [[a|e|] s1] eqn:Hrun; simpl in *.
  - destruct (Hf a s s1 Hrun s1) as (t2 & Ht2 & Hg2).
    exists (t1 ++ t2). rewrite Ht2, Ht1, List.app_assoc. split; [reflexivity|].
    rewrite stages_app, Hg1.
    destruct (fst (f a s1)).
    + now rewrite Hg2.
    + destruct Hg2 as (rest & ->). exists rest. now rewrite List.app_assoc.
    + destruct Hg2 as (rest & ->). exists rest. now rewrite List.app_assoc.
  - exists t1. split; [exact Ht1|]. destruct Hg1 as (rest & ->).
    exists (rest ++ l2). now rewrite List.app_assoc.
  - exists t1. split; [exact Ht1|]. destruct Hg1 as (rest & ->).
    exists (rest ++ l2). now rewrite List.app_assoc.
Qed.

Lemma paces_bind_as {A B : Type} (m : M W A) (f : A -> M W B) (l1 l2 l : list Stage) :
  paces m l1 ->
  (forall a s s', m s = (Ret a, s') -> paces (f a) l2) ->
  l1 ++ l2 = l ->
  paces (bind m f) l.
Proof.
  intros Hm Hf <-. now apply paces_bind.
Qed.

Lemma paces_bind_quiet {A B : Type} (m : M W A) (f : A -> M W B) (l : list Stage) :
  obeys (Forall between) (fun _ => Forall between) m ->
  (forall a s s', m s = (Ret a, s') -> paces (f a) l) ->
  paces (bind m f) l.
Proof.
  intros Hm Hf. apply (paces_bind m f [] l); [now apply paces_quiet|exact Hf].
Qed.

Lemma paces_runStep (host : Host W) (stepName script : string) (args : list string) :
  paces (runStep host stepName script args) [Hop script args].
Proof.
  intros s. unfold runStep.
  destruct (spawn host script args (world s)) as [r w'].
  destruct (childVerdict stepName r) as [e|].
  - exists [EvSpawn script args r; EvThrow e]. simpl.
    rewrite <- List.app_assoc. split; [reflexivity|]. now exists [].
  - exists [EvSpawn script args r]. simpl. split; reflexivity.
Qed.

Lemma paces_bind_step {B : Type} (host : Host W) (stepName script : string)
    (args : list string) (f : unit -> M W B) (l : list Stage) :
  paces (f tt) l ->
  paces (bind (runStep host stepName script args) f) (Hop script args :: l).
Proof.
  intros Hf. apply (paces_bind _ f [Hop script args] l); [apply paces_runStep|].
  intros [] _ _ _. exact Hf.
Qed.

Lemma paces_pollUntil {T : Type} (host : Host W) (fuel : nat) (label : string)
    (read : M W T) (accept : T -> bool) (opts : option PollOpts) :
  obeys (Forall between) (fun _ => Forall between) read ->
  paces (pollUntil host fuel label read accept opts) [Confirm].
Proof.
  intros Hread s. rewrite pollUntil_unfold.
  destruct (obeys_pollLoop (Forall between) (fun _ => Forall between)
              host fuel label read accept (timeoutOf opts) (intervalOf opts)
              (clock host (world s)) Hread ltac:(repeat constructor)
              (record (EvPollUntil label) s)) as (tr & Htr & Hall).
  exists ([EvPollUntil label] ++ tr). simpl in Htr. rewrite Htr, <- List.app_assoc.
  split; [reflexivity|].
  assert (Hnone : stages tr = []) by (apply stages_between; now destruct (fst _)).
  rewrite stages_app, Hnone.
  destruct (fst _); [reflexivity|now exists []|now exists []].
Qed.

End Paces.

(** A part of a flow, whatever its stages. *)
Ltac paces_any :=
  lazymatch goal with
  | |- paces (bind _ _) _ => eapply paces_bind; [paces_any|intros ? _ _ _; paces_any]
  | |- paces (pollUntil _ _ _ _ _ _) _ => apply paces_pollUntil; quiet
  | |- paces (runStep _ _ _ _) _ => apply paces_runStep
  | |- _ => apply paces_quiet; quiet
  end.

Ltac paces_step :=
  lazymatch goal with
  | |- paces (bind (runStep _ _ _ _) _) _ => apply paces_bind_step
  | |- paces (bind (orThrow _ _) _) _ =>
      apply paces_bind_quiet;
      [quiet
      |let H := fresh "Hgiven" in
       intros ? ? ? H; apply orThrow_value in H;
       try apply checked_address in H;
       try rewrite H; simpl text]
  | |- paces (bind (bind _ _) _) _ =>
      eapply paces_bind_as; [paces_any|intros ? _ _ _|reflexivity]
  | |- paces (bind (pollUntil _ _ _ _ _ _) _) _ =>
      eapply paces_bind_as; [paces_any|intros ? _ _ _|reflexivity]
  | |- paces (bind _ _) _ => apply paces_bind_quiet; [quiet|intros ? _ _ _]
  | |- paces _ [] => apply paces_quiet; quiet
  | |- paces _ _ => paces_any
  end.

Lemma flowBscToHypeCore_paces {W : Type} (host : Host W) (lib : Library)
    (registry : list (string * TokenConfig)) (process : Process) (fuel : nat) :
  paces (FlowBscToHypeCore.main host lib registry process fuel)
    (confirmEach (negb (hasFlag "--dry-run" (argv process)))
       (planBscToHypeCore (argv process))).
Proof.
  unfold FlowBscToHypeCore.main, planBscToHypeCore. cbv zeta.
  destruct (hasFlag "--dry-run" (argv process));
    cbn [confirmEach negb fst snd]; repeat paces_step.
Qed.

Lemma flowHypeCoreToBsc_paces {W : Type} (host : Host W) (lib : Library)
    (registry : list (string * TokenConfig)) (process : Process) (fuel : nat) :
  paces (FlowHypeCoreToBsc.main host lib registry process fuel)
    (if hasFlag "--dry-run" (argv process)
     then confirmEach false (planHypeCoreToBsc (argv process))
     else removelast (confirmEach true (planHypeCoreToBsc (argv process)))).
Proof.
  unfold FlowHypeCoreToBsc.main, planHypeCoreToBsc. cbv zeta.
  destruct (hasFlag "--dry-run" (argv process));
    cbn [confirmEach removelast negb fst snd]; repeat paces_step.
Qed.

Lemma paces_initial {W A : Type} (m : M W A) (plan : list Stage) (w : W) :
  paces m plan ->
  exists rest,
    plan = (stages (trace (snd (m (initial w)))) ++ rest)%list
    /\ (forall a, fst (m (initial w)) = Ret a -> rest = []).
Proof.
  intros H. destruct (H (initial w)) as (tr & Htr & Hrun).
  rewrite Htr. simpl.
  destruct (fst (m (initial w))) as [a|e|].
  - exists []. rewrite List.app_nil_r. auto.
  - destruct Hrun as (rest & ->). exists rest. split; [reflexivity|discriminate].
  - destruct Hrun as (rest & ->). exists rest. split; [reflexivity|discriminate].
Qed.

(** In a run without [--dry-run] every hop but the last of
    [flowHypeCoreToBsc] is followed by a call of [pollUntil] before the
    next hop is started, and no poll is started elsewhere:
    [flowBscToHypeCore] goes hop, poll, hop, poll, hop, poll, and
    [flowHypeCoreToBsc] goes hop, poll, hop, poll, hop.  With [--dry-run]
    the hops follow one another without a poll. *)
Theorem hops_confirmed {W : Type} (host : Host W) (lib : Library)
    (registry : list (string * TokenConfig)) (process : Process)
    (fuel : nat) (w : W) :
  let dry := hasFlag "--dry-run" (argv process) in
  let r1 := FlowBscToHypeCore.main host lib registry process fuel (initial w) in
  let r2 := FlowHypeCoreToBsc.main host lib registry process fuel (initial w) in
  (exists rest,
     confirmEach (negb dry) (planBscToHypeCore (argv process))
     = (stages (trace (snd r1)) ++ rest)%list
     /\ (fst r1 = Ret tt -> rest = []))
  /\ (exists rest,
        (if dry then confirmEach false (planHypeCoreToBsc (argv process))
         else removelast (confirmEach true (planHypeCoreToBsc (argv process))))
        = (stages (trace (snd r2)) ++ rest)%list
        /\ (fst r2 = Ret tt -> rest = [])).
Proof.
  intros dry r1 r2. split.
  - destruct (paces_initial _ _ w
                (flowBscToHypeCore_paces host lib registry process fuel))
      as (rest & Hplan & Hall).
    exists rest. split; [exact Hplan|apply Hall].
  - destruct (paces_initial _ _ w
                (flowHypeCoreToBsc_paces host lib registry process fuel))
      as (rest & Hplan & Hall).
    exists rest. split; [exact Hplan|apply Hall].
Qed.

(** ** From a flow to its step executor *)

Lemma eqb_no_dash (x y : string) :
  JsString.startsWith "-" x = false -> JsString.startsWith "-" y = true ->
  String.eqb x y = false.
Proof.
  intros Hx Hy. apply String.eqb_neq. intros ->. congruence.
Qed.

Lemma getArg_absent (name : string) (args : list string) :
  forallb (fun a => negb (String.eqb a name)) args = true -> getArg name args = None.
Proof.
  induction args as [|a r IH]; [reflexivity|]. simpl.
  intros H. apply andb_true_iff in H. destruct H as [Ha Hr].
  apply negb_true_iff, String.eqb_neq in Ha.
  rewrite getArg_cons_neq by exact Ha. now apply IH.
Qed.

(** The arguments that the flows give to the step executor of a hop with
    a recipient are read back by it as they were meant: the token as the
    first positional argument (no [--token], no [--oft]), the recipient
    as [--to], the amount as [--amount], [--dry-run] when and only when
    the flow has it, and neither [--confirm] nor [--yes], so that the
    executor never asks.  This holds when the paths of the interpreter
    and of the script, the token, the recipient and the amount do not
    start with a dash, and the token is not empty. *)
Theorem hop_arguments_read_back (node script token to amount : string) (dry : bool) :
  JsString.startsWith "-" node = false ->
  JsString.startsWith "-" script = false ->
  token <> "" ->
  JsString.startsWith "-" token = false ->
  JsString.startsWith "-" to = false ->
  JsString.startsWith "-" amount = false ->
  let args :=
    (node :: script :: [token; "--to"; to; "--amount"; amount]
       ++ (if dry then ["--dry-run"] else []))%list in
  orElse (orElse (getArg "--token" args) (getArg "--oft" args)) (getPositionalArg 0 args)
  = Some token
  /\ getArg "--to" args = Some to
  /\ getArg "--amount" args = Some amount
  /\ hasFlag "--dry-run" args = dry
  /\ hasFlag "--confirm" args = false
  /\ hasFlag "--yes" args = false.
Proof.
  intros Hnode Hscript Hne Htoken Hto Hamount args. subst args.
  assert (Hflags : forall flag,
            JsString.startsWith "-" flag = true ->
            String.eqb node flag = false /\ String.eqb script flag = false
            /\ String.eqb token flag = false /\ String.eqb to flag = false
            /\ String.eqb amount flag = false).
  { intros flag Hflag. repeat split; now apply eqb_no_dash. }
  destruct (Hflags "--token" eq_refl) as (T1 & T2 & T3 & T4 & T5).
  destruct (Hflags "--oft" eq_refl) as (O1 & O2 & O3 & O4 & O5).
  destruct (Hflags "--to" eq_refl) as (R1 & R2 & R3 & R4 & R5).
  destruct (Hflags "--amount" eq_refl) as (A1 & A2 & A3 & A4 & A5).
  destruct (Hflags "--dry-run" eq_refl) as (D1 & D2 & D3 & D4 & D5).
  destruct (Hflags "--confirm" eq_refl) as (C1 & C2 & C3 & C4 & C5).
  destruct (Hflags "--yes" eq_refl) as (Y1 & Y2 & Y3 & Y4 & Y5).
  apply String.eqb_neq in Hne.
  split; [|split; [|split; [|split; [|split]]]].
  - rewrite (getArg_absent "--token"), (getArg_absent "--oft").
    + unfold getPositionalArg. cbn [skipn app positionals orElse].
      now rewrite Hne, Htoken.
    + cbn [forallb app]. rewrite O1, O2, O3, O4, O5. now destruct dry.
    + cbn [forallb app]. rewrite T1, T2, T3, T4, T5. now destruct dry.
  - cbn [app]. apply String.eqb_neq in R1, R2, R3.
    rewrite !getArg_cons_neq by assumption. apply getArg_cons_eq.
  - cbn [app]. apply String.eqb_neq in A1, A2, A3, A4.
    rewrite !getArg_cons_neq by (assumption || discriminate).
    apply getArg_cons_eq.
  - unfold hasFlag. cbn [existsb app]. rewrite D1, D2, D3, D4, D5. now destruct dry.
  - unfold hasFlag. cbn [existsb app]. rewrite C1, C2, C3, C4, C5. now destruct dry.
  - unfold hasFlag. cbn [existsb app]. rewrite Y1, Y2, Y3, Y4, Y5. now destruct dry.
Qed.

Lemma hop_arguments_read_back_witness :
  getArg "--to"
    ["node"; "src/bscToHypeEvm.ts"; "CRCLd"; "--to"; "0xabc"; "--amount"; "5"; "--dry-run"]
  = Some "0xabc".
Proof.
  apply (hop_arguments_read_back "node" "src/bscToHypeEvm.ts" "CRCLd" "0xabc" "5" true);
    (discriminate || reflexivity).
Defined.

(** ** The step executor from HyperEVM to HyperCore *)

(** With [--dry-run] the step executor of the hop to HyperCore only
    reads and prints: it transfers nothing, asks nothing on the terminal
    and does not end the process. *)
Theorem hypeEvmToHypeCore_dry_run {W : Type} (client : HypeEvmToHypeCore.Client W)
    (lib : Library) (registry : list (string * TokenConfig))
    (depositAddress : TokenConfig -> option string) (process : Process) (w : W) :
  hasFlag "--dry-run" (argv process) = true ->
  let r := HypeEvmToHypeCore.main client lib registry depositAddress process (w, []) in
  forallb HypeEvmToHypeCore.readOnly (snd (snd r)) = true
  /\ forall code, fst r <> Exec.Exited code.
Proof.
  intros Hdry r.
  assert (H : only HypeEvmToHypeCore.readOnly
                (HypeEvmToHypeCore.main client lib registry depositAddress process)).
  { unfold HypeEvmToHypeCore.main. cbv zeta. rewrite Hdry. repeat only_step. }
  destruct (H (w, [])) as (tr & Htr & Hp & He).
  subst r. rewrite Htr. simpl. auto.
Qed.

Lemma hypeEvmToHypeCore_dry_run_witness :
  forallb HypeEvmToHypeCore.readOnly
    (snd (snd (HypeEvmToHypeCore.main (HypeEvmToHypeCore.fixedClient "YES")
                 HypeEvmToHypeCore.fixedLib TOKENS (fun _ => None)
                 (HypeEvmToHypeCore.invoked "node" "src/hypeEvmToHypeCore.ts" "CRCLd" "5"
                    true (Some "0xABC"))
                 (tt, [])))) = true.
Proof.
  apply (hypeEvmToHypeCore_dry_run (HypeEvmToHypeCore.fixedClient "YES")
           HypeEvmToHypeCore.fixedLib TOKENS (fun _ => None)
           (HypeEvmToHypeCore.invoked "node" "src/hypeEvmToHypeCore.ts" "CRCLd" "5"
              true (Some "0xABC"))
           tt).
  reflexivity.
Defined.

Lemma split_here {A : Type} (x : A) (l : list A) : x :: l = ([] ++ x :: l)%list.
Proof. reflexivity. Qed.

Lemma split_later {A : Type} (y x : A) (l before after : list A) :
  l = (before ++ x :: after)%list -> y :: l = ((y :: before) ++ x :: after)%list.
Proof. now intros ->. Qed.

(** The step executor of the hop to HyperCore transfers only in a run
    without [--dry-run], and once.  Before the transfer it has read the
    chain id, which is 999, and the balance that the account of
    [PRIVATE_KEY], the signer, has of the token, and that balance covers
    the amount.  The token is that of the known token that the command
    line names ([--token], else [--asset], else [--symbol], else the first
    plain word), a name that is not an address; the recipient is the
    deposit address of the token or else the bridge address of its token
    index. *)
Theorem hypeEvmToHypeCore_transfer_guarded {W : Type}
    (client : HypeEvmToHypeCore.Client W)
    (lib : Library) (registry : list (string * TokenConfig))
    (depositAddress : TokenConfig -> option string) (process : Process) (w : W)
    (token recipient : string) (amount : Z) (sent : Result string) :
  let args := argv process in
  let named :=
    orElse (orElse (orElse (getArg "--token" args) (getArg "--asset" args))
                   (getArg "--symbol" args))
           (find (fun a => (negb (String.eqb a "") && negb (JsString.startsWith "-" a))%bool)
                 (skipn 2 args)) in
  let tr :=
    snd (snd (HypeEvmToHypeCore.main client lib registry depositAddress process (w, []))) in
  In (HypeEvmToHypeCore.ActTransfer token recipient amount sent) tr ->
  hasFlag "--dry-run" args = false
  /\ exists privateKey account tokenInput cfg balance before after,
       Exec.env (PRIVATE_KEY process) = Some privateKey
       /\ privateKeyToAccount lib privateKey = Ok account
       /\ named = Some tokenInput
       /\ isAddress lib tokenInput = false
       /\ requireToken registry (Some tokenInput) = Ok (Own cfg)
       /\ token = hyperEvm_oft cfg
       /\ recipient = match depositAddress cfg with
                      | Some d => d
                      | None => toAssetBridgeAddress (hyperCore_tokenIndex cfg)
                      end
       /\ tr = (before
                ++ HypeEvmToHypeCore.ActTransfer token recipient amount sent :: after)%list
       /\ In (HypeEvmToHypeCore.ActGetChainId (Ok 999)) before
       /\ In (HypeEvmToHypeCore.ActBalanceOf token (address account) (Ok balance)) before
       /\ amount <= balance
       /\ (forall t r a s,
             ~ In (HypeEvmToHypeCore.ActTransfer t r a s) (before ++ after)%list).
Proof.
  intros args named tr. subst args named tr.
  remember (HypeEvmToHypeCore.main client lib registry depositAddress process (w, []))
    as r eqn:Hr.
  intros Hsend.
  unfold HypeEvmToHypeCore.main, HypeEvmToHypeCore.confirmOrExit in Hr. cbv zeta in Hr.
  repeat (exec_step Hr).
  all: try unfold Exec.act, Exec.done in Hr.
  all: subst; cbn [fst snd app] in *; exec_In.
  all: match goal with
       | H : _ = HypeEvmToHypeCore.ActTransfer _ _ _ _ |- _ => injection H as <- <- <- <-
       end.
  all: repeat match goal with
       | H : negb _ = false |- _ => apply negb_false_iff in H
       | H : (_ =? _) = true |- _ => apply Z.eqb_eq in H; subst
       end.
  all: split; [reflexivity|].
  all: do 7 eexists.
  all: split; [apply truthy_text; assumption|].
  all: split; [eassumption|].
  all: split; [apply truthy_text; assumption|].
  all: split; [eassumption|]; split; [eassumption|].
  all: split; [reflexivity|]; split; [reflexivity|].
  all: split; [repeat first [apply split_here | apply split_later]|].
  all: split; [pick|]; split; [pick|].
  all: split; [apply Z.ltb_ge; eassumption|].
  all: intros ? ? ? ?; simpl; intuition discriminate.
Qed.

Lemma hypeEvmToHypeCore_transfer_guarded_witness :
  exists before after,
    snd (snd (HypeEvmToHypeCore.main (HypeEvmToHypeCore.fixedClient " YES ")
                HypeEvmToHypeCore.fixedLib TOKENS (fun _ => None)
                (HypeEvmToHypeCore.invoked "node" "src/hypeEvmToHypeCore.ts" "CRCLd" "5"
                   false (Some "0xABC"))
                (tt, [])))
    = (before
         ++ HypeEvmToHypeCore.ActTransfer "0xe74aA6C4050A15790525eB11cc4562c664dC67C9"
              "0x2000000000000000000000000000000000000199" 5 (Ok "0xTransferHash")
         :: after)%list
    /\ In (HypeEvmToHypeCore.ActBalanceOf "0xe74aA6C4050A15790525eB11cc4562c664dC67C9"
             "0xABC" (Ok 5)) before.
Proof.
  destruct (hypeEvmToHypeCore_transfer_guarded (HypeEvmToHypeCore.fixedClient " YES ")
              HypeEvmToHypeCore.fixedLib TOKENS (fun _ => None)
              (HypeEvmToHypeCore.invoked "node" "src/hypeEvmToHypeCore.ts" "CRCLd" "5"
                 false (Some "0xABC"))
              tt "0xe74aA6C4050A15790525eB11cc4562c664dC67C9"
              "0x2000000000000000000000000000000000000199" 5 (Ok "0xTransferHash"))
    as (_ & key & account & name & cfg & balance & before & after
        & Hkey & Haccount & _ & _ & _ & _ & _ & Htr & _ & Hbalance & Hcovers & _).
  - vm_compute. repeat first [left; reflexivity | right].
  - vm_compute in Hkey. injection Hkey as <-.
    vm_compute in Haccount. injection Haccount as <-.
    exists before, after. split; [exact Htr|].
    assert (In (HypeEvmToHypeCore.ActBalanceOf "0xe74aA6C4050A15790525eB11cc4562c664dC67C9"
                  "0xABC" (Ok balance))
               (before ++ HypeEvmToHypeCore.ActTransfer
                            "0xe74aA6C4050A15790525eB11cc4562c664dC67C9"
                            "0x2000000000000000000000000000000000000199" 5
                            (Ok "0xTransferHash") :: after)%list) as Hin
      by (apply in_or_app; left; exact Hbalance).
    rewrite <- Htr in Hin. vm_compute in Hin.
    repeat (destruct Hin as [Hin|Hin]; [try discriminate Hin|]); [|contradiction].
    injection Hin as <-. exact Hbalance.
Defined.

Lemma transfer_asked {W : Type} (client : HypeEvmToHypeCore.Client W)
    (lib : Library) (registry : list (string * TokenConfig))
    (depositAddress : TokenConfig -> option string) (process : Process) (w : W)
    (token recipient : string) (amount : Z) (sent : Result string) :
  hasFlag "--yes" (argv process) = false ->
  let tr :=
    snd (snd (HypeEvmToHypeCore.main client lib registry depositAddress process (w, []))) in
  In (HypeEvmToHypeCore.ActTransfer token recipient amount sent) tr ->
  exists answer,
    In (HypeEvmToHypeCore.ActQuestion (Ok answer)) tr /\ JsString.trim answer = "YES".
Proof.
  intros Hyes tr. subst tr.
  remember (HypeEvmToHypeCore.main client lib registry depositAddress process (w, []))
    as r eqn:Hr.
  intros Hsend.
  unfold HypeEvmToHypeCore.main, HypeEvmToHypeCore.confirmOrExit in Hr. cbv zeta in Hr.
  rewrite Hyes in Hr.
  repeat (exec_step Hr).
  all: try unfold Exec.act, Exec.done in Hr.
  all: subst; cbn [fst snd app] in *; exec_In.
  all: repeat match goal with
       | H : negb _ = false |- _ => apply negb_false_iff in H
       | H : (_ =? _)%string = true |- _ => apply String.eqb_eq in H
       end.
  all: eexists; split; [pick|assumption].
Qed.

(** As [flowBscToHypeCore] invokes it, without [--yes], the step
    executor of the hop to HyperCore asks on the terminal: it transfers
    only after the answer, blanks taken off, was YES.  (The paths of the
    interpreter and of the script, the token and the amount are taken
    not to start with a dash.) *)
Theorem hypeEvmToHypeCore_asks {W : Type} (client : HypeEvmToHypeCore.Client W)
    (lib : Library) (registry : list (string * TokenConfig))
    (depositAddress : TokenConfig -> option string) (w : W)
    (node script tokenName amountHuman : string) (dry : bool) (key : option string)
    (token recipient : string) (amount : Z) (sent : Result string) :
  JsString.startsWith "-" node = false ->
  JsString.startsWith "-" script = false ->
  JsString.startsWith "-" tokenName = false ->
  JsString.startsWith "-" amountHuman = false ->
  let tr :=
    snd (snd (HypeEvmToHypeCore.main client lib registry depositAddress
                (HypeEvmToHypeCore.invoked node script tokenName amountHuman dry key)
                (w, []))) in
  In (HypeEvmToHypeCore.ActTransfer token recipient amount sent) tr ->
  exists answer,
    In (HypeEvmToHypeCore.ActQuestion (Ok answer)) tr /\ JsString.trim answer = "YES".
Proof.
  intros Hnode Hscript Htoken Hamount tr Hsend.
  apply (transfer_asked client lib registry depositAddress _ w token recipient amount sent);
    [|exact Hsend].
  unfold hasFlag. cbn [HypeEvmToHypeCore.invoked argv existsb app].
  rewrite (eqb_no_dash node), (eqb_no_dash script), (eqb_no_dash tokenName),
    (eqb_no_dash amountHuman) by (assumption || reflexivity).
  now destruct dry.
Qed.

Lemma hypeEvmToHypeCore_asks_witness :
  exists answer,
    In (HypeEvmToHypeCore.ActQuestion (Ok answer))
       (snd (snd (HypeEvmToHypeCore.main (HypeEvmToHypeCore.fixedClient " YES ")
                    HypeEvmToHypeCore.fixedLib TOKENS (fun _ => None)
                    (HypeEvmToHypeCore.invoked "node" "src/hypeEvmToHypeCore.ts" "CRCLd"
                       "5" false (Some "0xABC"))
                    (tt, []))))
    /\ JsString.trim answer = "YES".
Proof.
  apply (hypeEvmToHypeCore_asks (HypeEvmToHypeCore.fixedClient " YES ")
           HypeEvmToHypeCore.fixedLib TOKENS (fun _ => None) tt
           "node" "src/hypeEvmToHypeCore.ts" "CRCLd" "5" false (Some "0xABC")
           "0xe74aA6C4050A15790525eB11cc4562c664dC67C9"
           "0x2000000000000000000000000000000000000199" 5 (Ok "0xTransferHash"));
    try reflexivity.
  vm_compute. repeat first [left; reflexivity | right].
Defined.
